(** * twitch-recorder.py: a shallow embedding and its verified properties

    The development follows the layout of the script:
    - [Py]: the Python values the script computes with (str as a list of
      Unicode code points, decoded JSON, datetime formatting);
    - [OsPath], [Requests], [Subprocess], [Logging]: the fragments of the
      libraries whose behaviour the script depends on;
    - an exception/state/trace monad [M] for the methods of
      [TwitchRecorder];
    - [check_user], [check], [loop_check], [run],
      [process_recorded_file], [ffmpeg_copy_and_fix_errors];
    - the constructor, the multi-target scheduler of [main] as a
      transition system over the thread pool ([Scheduler]), and [main] up
      to the choice of the mode;
    - concrete inputs ([Sample]);
    - the theorems: the status mapping, the lock, the channel list, the
      file name, the interval between two polls; what a whole run may do
      (token, logger, files, directories, the command line); the answers
      with status 401 and 404, the cycles that end [loop_check] and the
      units of the pool, the repair step, the scheduler, the minimum
      interval. *)

From Stdlib Require Import ZArith NArith List String Ascii Bool Lia.
From stdpp Require Import gmap list.
Import ListNotations.

Local Open Scope Z_scope.

(* ===================================================================== *)
(** ** Python values *)
(* ===================================================================== *)

Module Py.

(** A Python [str] is a sequence of Unicode code points. *)
Definition str : Type := list N.

(** ASCII literals of the script. *)
Definition lit (s : string) : str := map N_of_ascii (list_ascii_of_string s).

Definition in_ranges (tbl : list (N * N)) (c : N) : bool :=
  existsb (fun r => (fst r <=? c)%N && (c <=? snd r)%N) tbl.

(** [str.isalnum] on one character: the code points whose Unicode
    general category is a letter or that carry a decimal, digit or
    numeric value.  Table of CPython 3.11 (Unicode 14.0.0), as inclusive
    ranges. *)
Definition alnum_ranges : list (N * N) := [
  (48, 57); (65, 90); (97, 122); (170, 170); (178, 179); (181, 181); (185, 186); (188, 190);
  (192, 214); (216, 246); (248, 705); (710, 721); (736, 740); (748, 748); (750, 750);
  (880, 884); (886, 887); (890, 893); (895, 895); (902, 902); (904, 906); (908, 908);
  (910, 929); (931, 1013); (1015, 1153); (1162, 1327); (1329, 1366); (1369, 1369);
  (1376, 1416); (1488, 1514); (1519, 1522); (1568, 1610); (1632, 1641); (1646, 1647);
  (1649, 1747); (1749, 1749); (1765, 1766); (1774, 1788); (1791, 1791); (1808, 1808);
  (1810, 1839); (1869, 1957); (1969, 1969); (1984, 2026); (2036, 2037); (2042, 2042);
  (2048, 2069); (2074, 2074); (2084, 2084); (2088, 2088); (2112, 2136); (2144, 2154);
  (2160, 2183); (2185, 2190); (2208, 2249); (2308, 2361); (2365, 2365); (2384, 2384);
  (2392, 2401); (2406, 2415); (2417, 2432); (2437, 2444); (2447, 2448); (2451, 2472);
  (2474, 2480); (2482, 2482); (2486, 2489); (2493, 2493); (2510, 2510); (2524, 2525);
  (2527, 2529); (2534, 2545); (2548, 2553); (2556, 2556); (2565, 2570); (2575, 2576);
  (2579, 2600); (2602, 2608); (2610, 2611); (2613, 2614); (2616, 2617); (2649, 2652);
  (2654, 2654); (2662, 2671); (2674, 2676); (2693, 2701); (2703, 2705); (2707, 2728);
  (2730, 2736); (2738, 2739); (2741, 2745); (2749, 2749); (2768, 2768); (2784, 2785);
  (2790, 2799); (2809, 2809); (2821, 2828); (2831, 2832); (2835, 2856); (2858, 2864);
  (2866, 2867); (2869, 2873); (2877, 2877); (2908, 2909); (2911, 2913); (2918, 2927);
  (2929, 2935); (2947, 2947); (2949, 2954); (2958, 2960); (2962, 2965); (2969, 2970);
  (2972, 2972); (2974, 2975); (2979, 2980); (2984, 2986); (2990, 3001); (3024, 3024);
  (3046, 3058); (3077, 3084); (3086, 3088); (3090, 3112); (3114, 3129); (3133, 3133);
  (3160, 3162); (3165, 3165); (3168, 3169); (3174, 3183); (3192, 3198); (3200, 3200);
  (3205, 3212); (3214, 3216); (3218, 3240); (3242, 3251); (3253, 3257); (3261, 3261);
  (3293, 3294); (3296, 3297); (3302, 3311); (3313, 3314); (3332, 3340); (3342, 3344);
  (3346, 3386); (3389, 3389); (3406, 3406); (3412, 3414); (3416, 3425); (3430, 3448);
  (3450, 3455); (3461, 3478); (3482, 3505); (3507, 3515); (3517, 3517); (3520, 3526);
  (3558, 3567); (3585, 3632); (3634, 3635); (3648, 3654); (3664, 3673); (3713, 3714);
  (3716, 3716); (3718, 3722); (3724, 3747); (3749, 3749); (3751, 3760); (3762, 3763);
  (3773, 3773); (3776, 3780); (3782, 3782); (3792, 3801); (3804, 3807); (3840, 3840);
  (3872, 3891); (3904, 3911); (3913, 3948); (3976, 3980); (4096, 4138); (4159, 4169);
  (4176, 4181); (4186, 4189); (4193, 4193); (4197, 4198); (4206, 4208); (4213, 4225);
  (4238, 4238); (4240, 4249); (4256, 4293); (4295, 4295); (4301, 4301); (4304, 4346);
  (4348, 4680); (4682, 4685); (4688, 4694); (4696, 4696); (4698, 4701); (4704, 4744);
  (4746, 4749); (4752, 4784); (4786, 4789); (4792, 4798); (4800, 4800); (4802, 4805);
  (4808, 4822); (4824, 4880); (4882, 4885); (4888, 4954); (4969, 4988); (4992, 5007);
  (5024, 5109); (5112, 5117); (5121, 5740); (5743, 5759); (5761, 5786); (5792, 5866);
  (5870, 5880); (5888, 5905); (5919, 5937); (5952, 5969); (5984, 5996); (5998, 6000);
  (6016, 6067); (6103, 6103); (6108, 6108); (6112, 6121); (6128, 6137); (6160, 6169);
  (6176, 6264); (6272, 6276); (6279, 6312); (6314, 6314); (6320, 6389); (6400, 6430);
  (6470, 6509); (6512, 6516); (6528, 6571); (6576, 6601); (6608, 6618); (6656, 6678);
  (6688, 6740); (6784, 6793); (6800, 6809); (6823, 6823); (6917, 6963); (6981, 6988);
  (6992, 7001); (7043, 7072); (7086, 7141); (7168, 7203); (7232, 7241); (7245, 7293);
  (7296, 7304); (7312, 7354); (7357, 7359); (7401, 7404); (7406, 7411); (7413, 7414);
  (7418, 7418); (7424, 7615); (7680, 7957); (7960, 7965); (7968, 8005); (8008, 8013);
  (8016, 8023); (8025, 8025); (8027, 8027); (8029, 8029); (8031, 8061); (8064, 8116);
  (8118, 8124); (8126, 8126); (8130, 8132); (8134, 8140); (8144, 8147); (8150, 8155);
  (8160, 8172); (8178, 8180); (8182, 8188); (8304, 8305); (8308, 8313); (8319, 8329);
  (8336, 8348); (8450, 8450); (8455, 8455); (8458, 8467); (8469, 8469); (8473, 8477);
  (8484, 8484); (8486, 8486); (8488, 8488); (8490, 8493); (8495, 8505); (8508, 8511);
  (8517, 8521); (8526, 8526); (8528, 8585); (9312, 9371); (9450, 9471); (10102, 10131);
  (11264, 11492); (11499, 11502); (11506, 11507); (11517, 11517); (11520, 11557);
  (11559, 11559); (11565, 11565); (11568, 11623); (11631, 11631); (11648, 11670);
  (11680, 11686); (11688, 11694); (11696, 11702); (11704, 11710); (11712, 11718);
  (11720, 11726); (11728, 11734); (11736, 11742); (11823, 11823); (12293, 12295);
  (12321, 12329); (12337, 12341); (12344, 12348); (12353, 12438); (12445, 12447);
  (12449, 12538); (12540, 12543); (12549, 12591); (12593, 12686); (12690, 12693);
  (12704, 12735); (12784, 12799); (12832, 12841); (12872, 12879); (12881, 12895);
  (12928, 12937); (12977, 12991); (13312, 19903); (19968, 42124); (42192, 42237);
  (42240, 42508); (42512, 42539); (42560, 42606); (42623, 42653); (42656, 42735);
  (42775, 42783); (42786, 42888); (42891, 42954); (42960, 42961); (42963, 42963);
  (42965, 42969); (42994, 43009); (43011, 43013); (43015, 43018); (43020, 43042);
  (43056, 43061); (43072, 43123); (43138, 43187); (43216, 43225); (43250, 43255);
  (43259, 43259); (43261, 43262); (43264, 43301); (43312, 43334); (43360, 43388);
  (43396, 43442); (43471, 43481); (43488, 43492); (43494, 43518); (43520, 43560);
  (43584, 43586); (43588, 43595); (43600, 43609); (43616, 43638); (43642, 43642);
  (43646, 43695); (43697, 43697); (43701, 43702); (43705, 43709); (43712, 43712);
  (43714, 43714); (43739, 43741); (43744, 43754); (43762, 43764); (43777, 43782);
  (43785, 43790); (43793, 43798); (43808, 43814); (43816, 43822); (43824, 43866);
  (43868, 43881); (43888, 44002); (44016, 44025); (44032, 55203); (55216, 55238);
  (55243, 55291); (63744, 64109); (64112, 64217); (64256, 64262); (64275, 64279);
  (64285, 64285); (64287, 64296); (64298, 64310); (64312, 64316); (64318, 64318);
  (64320, 64321); (64323, 64324); (64326, 64433); (64467, 64829); (64848, 64911);
  (64914, 64967); (65008, 65019); (65136, 65140); (65142, 65276); (65296, 65305);
  (65313, 65338); (65345, 65370); (65382, 65470); (65474, 65479); (65482, 65487);
  (65490, 65495); (65498, 65500); (65536, 65547); (65549, 65574); (65576, 65594);
  (65596, 65597); (65599, 65613); (65616, 65629); (65664, 65786); (65799, 65843);
  (65856, 65912); (65930, 65931); (66176, 66204); (66208, 66256); (66273, 66299);
  (66304, 66339); (66349, 66378); (66384, 66421); (66432, 66461); (66464, 66499);
  (66504, 66511); (66513, 66517); (66560, 66717); (66720, 66729); (66736, 66771);
  (66776, 66811); (66816, 66855); (66864, 66915); (66928, 66938); (66940, 66954);
  (66956, 66962); (66964, 66965); (66967, 66977); (66979, 66993); (66995, 67001);
  (67003, 67004); (67072, 67382); (67392, 67413); (67424, 67431); (67456, 67461);
  (67463, 67504); (67506, 67514); (67584, 67589); (67592, 67592); (67594, 67637);
  (67639, 67640); (67644, 67644); (67647, 67669); (67672, 67702); (67705, 67742);
  (67751, 67759); (67808, 67826); (67828, 67829); (67835, 67867); (67872, 67897);
  (67968, 68023); (68028, 68047); (68050, 68096); (68112, 68115); (68117, 68119);
  (68121, 68149); (68160, 68168); (68192, 68222); (68224, 68255); (68288, 68295);
  (68297, 68324); (68331, 68335); (68352, 68405); (68416, 68437); (68440, 68466);
  (68472, 68497); (68521, 68527); (68608, 68680); (68736, 68786); (68800, 68850);
  (68858, 68899); (68912, 68921); (69216, 69246); (69248, 69289); (69296, 69297);
  (69376, 69415); (69424, 69445); (69457, 69460); (69488, 69505); (69552, 69579);
  (69600, 69622); (69635, 69687); (69714, 69743); (69745, 69746); (69749, 69749);
  (69763, 69807); (69840, 69864); (69872, 69881); (69891, 69926); (69942, 69951);
  (69956, 69956); (69959, 69959); (69968, 70002); (70006, 70006); (70019, 70066);
  (70081, 70084); (70096, 70106); (70108, 70108); (70113, 70132); (70144, 70161);
  (70163, 70187); (70272, 70278); (70280, 70280); (70282, 70285); (70287, 70301);
  (70303, 70312); (70320, 70366); (70384, 70393); (70405, 70412); (70415, 70416);
  (70419, 70440); (70442, 70448); (70450, 70451); (70453, 70457); (70461, 70461);
  (70480, 70480); (70493, 70497); (70656, 70708); (70727, 70730); (70736, 70745);
  (70751, 70753); (70784, 70831); (70852, 70853); (70855, 70855); (70864, 70873);
  (71040, 71086); (71128, 71131); (71168, 71215); (71236, 71236); (71248, 71257);
  (71296, 71338); (71352, 71352); (71360, 71369); (71424, 71450); (71472, 71483);
  (71488, 71494); (71680, 71723); (71840, 71922); (71935, 71942); (71945, 71945);
  (71948, 71955); (71957, 71958); (71960, 71983); (71999, 71999); (72001, 72001);
  (72016, 72025); (72096, 72103); (72106, 72144); (72161, 72161); (72163, 72163);
  (72192, 72192); (72203, 72242); (72250, 72250); (72272, 72272); (72284, 72329);
  (72349, 72349); (72368, 72440); (72704, 72712); (72714, 72750); (72768, 72768);
  (72784, 72812); (72818, 72847); (72960, 72966); (72968, 72969); (72971, 73008);
  (73030, 73030); (73040, 73049); (73056, 73061); (73063, 73064); (73066, 73097);
  (73112, 73112); (73120, 73129); (73440, 73458); (73648, 73648); (73664, 73684);
  (73728, 74649); (74752, 74862); (74880, 75075); (77712, 77808); (77824, 78894);
  (82944, 83526); (92160, 92728); (92736, 92766); (92768, 92777); (92784, 92862);
  (92864, 92873); (92880, 92909); (92928, 92975); (92992, 92995); (93008, 93017);
  (93019, 93025); (93027, 93047); (93053, 93071); (93760, 93846); (93952, 94026);
  (94032, 94032); (94099, 94111); (94176, 94177); (94179, 94179); (94208, 100343);
  (100352, 101589); (101632, 101640); (110576, 110579); (110581, 110587); (110589, 110590);
  (110592, 110882); (110928, 110930); (110948, 110951); (110960, 111355); (113664, 113770);
  (113776, 113788); (113792, 113800); (113808, 113817); (119520, 119539); (119648, 119672);
  (119808, 119892); (119894, 119964); (119966, 119967); (119970, 119970); (119973, 119974);
  (119977, 119980); (119982, 119993); (119995, 119995); (119997, 120003); (120005, 120069);
  (120071, 120074); (120077, 120084); (120086, 120092); (120094, 120121); (120123, 120126);
  (120128, 120132); (120134, 120134); (120138, 120144); (120146, 120485); (120488, 120512);
  (120514, 120538); (120540, 120570); (120572, 120596); (120598, 120628); (120630, 120654);
  (120656, 120686); (120688, 120712); (120714, 120744); (120746, 120770); (120772, 120779);
  (120782, 120831); (122624, 122654); (123136, 123180); (123191, 123197); (123200, 123209);
  (123214, 123214); (123536, 123565); (123584, 123627); (123632, 123641); (124896, 124902);
  (124904, 124907); (124909, 124910); (124912, 124926); (124928, 125124); (125127, 125135);
  (125184, 125251); (125259, 125259); (125264, 125273); (126065, 126123); (126125, 126127);
  (126129, 126132); (126209, 126253); (126255, 126269); (126464, 126467); (126469, 126495);
  (126497, 126498); (126500, 126500); (126503, 126503); (126505, 126514); (126516, 126519);
  (126521, 126521); (126523, 126523); (126530, 126530); (126535, 126535); (126537, 126537);
  (126539, 126539); (126541, 126543); (126545, 126546); (126548, 126548); (126551, 126551);
  (126553, 126553); (126555, 126555); (126557, 126557); (126559, 126559); (126561, 126562);
  (126564, 126564); (126567, 126570); (126572, 126578); (126580, 126583); (126585, 126588);
  (126590, 126590); (126592, 126601); (126603, 126619); (126625, 126627); (126629, 126633);
  (126635, 126651); (127232, 127244); (130032, 130041); (131072, 173791); (173824, 177976);
  (177984, 178205); (178208, 183969); (183984, 191456); (194560, 195101); (196608, 201546)
]%N.

Definition isalnum (c : N) : bool := in_ranges alnum_ranges c.

(** [str.isspace] on one character (the characters [str.rstrip()]
    strips when called without argument). *)
Definition space_ranges : list (N * N) :=
  [(9, 13); (28, 32); (133, 133); (160, 160); (5760, 5760); (8192, 8202);
   (8232, 8233); (8239, 8239); (8287, 8287); (12288, 12288)]%N.

Definition isspace (c : N) : bool := in_ranges space_ranges c.

(** [s.rstrip()] *)
Fixpoint rstrip (s : str) : str :=
  match s with
  | [] => []
  | c :: s' =>
      match rstrip s' with
      | [] => if isspace c then [] else [c]
      | t => c :: t
      end
  end.

(** Iterating a text file: the text is cut after every newline, the
    newline staying at the end of its line; a last line without newline
    is yielded too.  The text is the decoded one (universal newlines
    already translated to "\n"). *)
Fixpoint iter_lines_from (cur : str) (text : str) : list str :=
  match text with
  | [] => match cur with [] => [] | _ => [rev cur] end
  | c :: text' =>
      if (c =? 10)%N then rev (c :: cur) :: iter_lines_from [] text'
      else iter_lines_from (c :: cur) text'
  end.

Definition iter_lines (text : str) : list str := iter_lines_from [] text.

(** Decimal digits of a number, most significant first. *)
Fixpoint decimal_from (fuel : nat) (n : N) (acc : str) : str :=
  match fuel with
  | O => acc
  | S fuel' =>
      let acc' := (48 + n mod 10)%N :: acc in
      if (n <? 10)%N then acc' else decimal_from fuel' (n / 10)%N acc'
  end.

Definition decimal (n : N) : str := decimal_from (S (N.to_nat (N.log2 n))) n [].

(** ["%0wd" % n] *)
Definition zero_padded (w : nat) (n : N) : str :=
  let d := decimal n in
  repeat 48%N (w - length d) ++ d.

Record datetime : Type := {
  year : N; month : N; day : N; hour : N; minute : N; second : N
}.

(** [d.strftime("%Y-%m-%d %Hh%Mm%Ss")] *)
Definition strftime_date_time (d : datetime) : str :=
  zero_padded 4 (year d) ++ lit "-" ++ zero_padded 2 (month d) ++ lit "-"
    ++ zero_padded 2 (day d) ++ lit " " ++ zero_padded 2 (hour d) ++ lit "h"
    ++ zero_padded 2 (minute d) ++ lit "m" ++ zero_padded 2 (second d) ++ lit "s".

(** Decoded JSON, as [r.json()] returns it. *)
#[local] Unset Elimination Schemes.
Inductive json : Type :=
| JNull
| JBool (b : bool)
| JNum (n : Z)
| JStr (s : str)
| JArr (items : list json)
| JObj (fields : list (str * json)).
#[local] Set Elimination Schemes.

(** Truth value of a decoded JSON value ([not x] is its negation). *)
Definition truthy (v : json) : bool :=
  match v with
  | JNull => false
  | JBool b => b
  | JNum n => negb (n =? 0)
  | JStr s => match s with [] => false | _ => true end
  | JArr l => match l with [] => false | _ => true end
  | JObj kv => match kv with [] => false | _ => true end
  end.

Definition str_eqb (a b : str) : bool := bool_decide (a = b).

Fixpoint dict_get (key : str) (kv : list (str * json)) : option json :=
  match kv with
  | [] => None
  | (k, v) :: kv' => if str_eqb k key then Some v else dict_get key kv'
  end.

Inductive exn : Type :=
| KeyError
| TypeError
| AttributeError
| FileNotFoundError            (* OSError of a missing file or program *)
| ValueError
| RequestException             (* requests.exceptions.RequestException *)
| LockTimeout.                 (* filelock.Timeout *)

(** [v[key]] for a string key *)
Definition getitem (v : json) (key : str) : exn + json :=
  match v with
  | JObj kv => match dict_get key kv with Some x => inr x | None => inl KeyError end
  | _ => inl TypeError
  end.

(** [next(iter(v), None)] *)
Definition first_or_None (v : json) : exn + json :=
  match v with
  | JArr l => inr (match l with [] => JNull | x :: _ => x end)
  | JObj kv => inr (match kv with [] => JNull | (k, _) :: _ => JStr k end)
  | JStr s => inr (match s with [] => JNull | c :: _ => JStr [c] end)
  | JNull | JBool _ | JNum _ => inl TypeError
  end.

(** [v.get(key)]: only a dict has the method. *)
Definition dot_get (v : json) (key : str) : exn + json :=
  match v with
  | JObj kv => inr (match dict_get key kv with Some x => x | None => JNull end)
  | _ => inl AttributeError
  end.

(** [s + v] for a str [s]: [v] must be a str as well. *)
Definition str_add (s : str) (v : json) : exn + str :=
  match v with
  | JStr t => inr (s ++ t)
  | _ => inl TypeError
  end.

End Py.
Import Py.
Arguments lit : simpl never.
Arguments alnum_ranges : simpl never.

(* ===================================================================== *)
(** ** Library fragments: os.path, requests, subprocess, logging *)
(* ===================================================================== *)

Module OsPath.

Definition sep : N := 47%N.

Definition startswith_sep (p : str) : bool :=
  match p with c :: _ => (c =? sep)%N | [] => false end.

Definition endswith_sep (p : str) : bool :=
  match rev p with c :: _ => (c =? sep)%N | [] => false end.

(** POSIX [os.path.join(a, b)] *)
Definition join (a b : str) : str :=
  if startswith_sep b then b
  else if match a with [] => true | _ => endswith_sep a end then a ++ b
  else a ++ sep :: b.

(** [os.path.basename]: what follows the last separator. *)
Fixpoint basename (p : str) : str :=
  match p with
  | [] => []
  | c :: p' =>
      if existsb (N.eqb sep) p then basename p' else p
  end.

End OsPath.

Module Requests.

(** The response of the server; [body] is the decoded JSON body (the
    body of the streams endpoint is taken to be valid JSON). *)
Record Response : Type := { status_code : Z; body : json }.

(** [Response.raise_for_status()] raises [HTTPError(response=self)]
    exactly for the client and server error codes. *)
Definition raise_for_status_raises (r : Response) : bool :=
  (400 <=? status_code r) && (status_code r <? 600).

(** [Response.ok]: no exception from [raise_for_status()]. *)
Definition ok (r : Response) : bool := negb (raise_for_status_raises r).

(** [Response.__bool__] returns [self.ok]: a response object with an
    error status is false in a boolean context. *)
Definition Response_bool (r : Response) : bool := ok r.

(** What [requests.get(url, headers=..., timeout=15)] does: it either
    raises a [RequestException] that carries no response (timeout,
    connection error) or returns the server's response. *)
Inductive reply : Type :=
| NoResponse
| Responded (r : Response).

End Requests.

Module Subprocess.

Definition bytes : Type := list Byte.byte.

(** Running an external program that writes (at most) one file: the
    program cannot be started ([OSError]), or it runs, exits with a
    return code and has written [written] to its output path ([None]:
    it has written nothing). *)
Inductive outcome : Type :=
| LaunchFailure
| Exited (returncode : Z) (written : option bytes).

End Subprocess.
Export Subprocess(bytes).

Module Logging.
Inductive level : Type := DEBUG | INFO | WARNING | ERROR.

(** A [logging.Logger] object, as [logging.getLogger(name)] gives it. *)
Inductive Logger : Type := getLogger (name : string).
End Logging.

(* ===================================================================== *)
(** ** State, events and the monad of the recorder's methods *)
(* ===================================================================== *)

Inductive TwitchResponseStatus : Type :=
| ONLINE
| OFFLINE
| NOT_FOUND
| UNAUTHORIZED
| ERROR.

(** The attributes of a [TwitchRecorder] object. *)
Record TwitchRecorder : Type := {
  ffmpeg_path : str;
  disable_ffmpeg : bool;
  refresh : Z;
  root_path : str;
  username : str;
  quality : str;
  access_token : str;
  (** [None] unless a logger was passed to the constructor *)
  logger : option Logging.Logger
}.

(** What a method does to the outside world, in order. *)
Inductive event : Type :=
| Sleep (secs : Z)                                (* time.sleep(secs) *)
| Log (lvl : Logging.level) (msg : string)        (* logging / self.logger *)
| LockAcquired (lock_file : str)                  (* FileLock.__enter__ succeeded *)
| LockBusy (lock_file : str)                      (* FileLock.__enter__ timed out *)
| LockReleased (lock_file : str)                  (* FileLock.__exit__ *)
| HttpGet (user token : str)                      (* GET helix/streams?user_login=user *)
| TokenRequest                                    (* POST to the token endpoint *)
| Streamlink (user qual output : str)             (* subprocess.run(["streamlink", ...]) *)
| Ffmpeg (program input output : str)             (* subprocess.call([ffmpeg_path, ...]) *)
| Makedirs (path : str).                          (* os.makedirs(path) *)

(** The recorder object and the part of the file system it works on:
    regular files with their content, and directories. *)
Record state : Type := {
  self : TwitchRecorder;
  files : gmap str bytes;
  dirs : gset str
}.

Inductive result (A : Type) : Type :=
| Returned (a : A)
| Raised (e : exn).
Arguments Returned {A} a.
Arguments Raised {A} e.

(** A method: from the state before to its result, the state after and the
    events it produced. *)
Definition M (A : Type) : Type := state -> result A * state * list event.

Definition ret {A} (a : A) : M A := fun s => (Returned a, s, []).

Definition raise {A} (e : exn) : M A := fun s => (Raised e, s, []).

Definition bind {A B} (m : M A) (k : A -> M B) : M B :=
  fun s =>
    match m s with
    | (Returned a, s1, t1) =>
        match k a s1 with
        | (r, s2, t2) => (r, s2, t1 ++ t2)
        end
    | (Raised e, s1, t1) => (Raised e, s1, t1)
    end.

Declare Scope M_scope.
Delimit Scope M_scope with M.
Notation "'let*' x ':=' m 'in' k" := (bind m (fun x => k))
  (at level 10, x pattern, m at level 100, k at level 200) : M_scope.
Notation "m '>>' k" := (bind m (fun _ => k))
  (at level 100, k at level 200, right associativity) : M_scope.
Local Open Scope M_scope.

(** [try: body  except Exception-class: handler] *)
Definition try_except {A} (body : M A) (handler : exn -> M A) : M A :=
  fun s =>
    match body s with
    | (Returned a, s1, t1) => (Returned a, s1, t1)
    | (Raised e, s1, t1) =>
        match handler e s1 with
        | (r, s2, t2) => (r, s2, t1 ++ t2)
        end
    end.

(** [body] followed by [cleanup] on every exit path (the [__exit__] of a
    context manager). *)
Definition finally {A} (body : M A) (cleanup : M unit) : M A :=
  fun s =>
    match body s with
    | (r, s1, t1) =>
        match cleanup s1 with
        | (_, s2, t2) => (r, s2, t1 ++ t2)
        end
    end.

Definition emit (e : event) : M unit := fun s => (Returned tt, s, [e]).

Definition get_self : M TwitchRecorder := fun s => (Returned (self s), s, []).

Definition get_files : M (gmap str bytes) := fun s => (Returned (files s), s, []).

Definition set_self (r : TwitchRecorder) : M unit :=
  fun s => (Returned tt, {| self := r; files := files s; dirs := dirs s |}, []).

Definition set_files (fs : gmap str bytes) : M unit :=
  fun s => (Returned tt, {| self := self s; files := fs; dirs := dirs s |}, []).

(** A Python operation that may raise. *)
Definition lift {A} (x : exn + A) : M A :=
  match x with inl e => raise e | inr a => ret a end.

(** [logging.info(msg, ...)] and the like, on the root logger. *)
Definition log (lvl : Logging.level) (msg : string) : M unit := emit (Log lvl msg).

(** [self.logger.info(msg, ...)] and the like: [self.logger] may be
    [None], which has no such method. *)
Definition self_logger (lvl : Logging.level) (msg : string) : M unit :=
  let* me := get_self in
  match logger me with
  | Some _ => emit (Log lvl msg)
  | None => raise AttributeError
  end.

(* ===================================================================== *)
(** ** The environment of one polling cycle *)
(* ===================================================================== *)

(** Everything the outside world decides during one call of [check]. *)
Record cycle : Type := {
  (** the [FileLock] is obtained within its 0.05 s timeout *)
  lock_free : bool;
  (** outcome of the status request of [check_user] *)
  status_reply : Requests.reply;
  (** outcome of [fetch_access_token]: the new token, or [None] when the
      request or its [raise_for_status] raises *)
  token_reply : option str;
  (** [datetime.datetime.now()] *)
  now : datetime;
  (** the streamlink child process *)
  streamlink_run : Subprocess.outcome;
  (** the ffmpeg child process *)
  ffmpeg_run : Subprocess.outcome
}.

(* ===================================================================== *)
(** ** TwitchRecorder *)
(* ===================================================================== *)

(** [self.access_token = token] and [self.refresh = secs] *)
Definition with_access_token (token : str) (me : TwitchRecorder) : TwitchRecorder :=
  {| ffmpeg_path := ffmpeg_path me; disable_ffmpeg := disable_ffmpeg me;
     refresh := refresh me; root_path := root_path me; username := username me;
     quality := quality me; access_token := token; logger := logger me |}.

Definition with_refresh (secs : Z) (me : TwitchRecorder) : TwitchRecorder :=
  {| ffmpeg_path := ffmpeg_path me; disable_ffmpeg := disable_ffmpeg me;
     refresh := secs; root_path := root_path me; username := username me;
     quality := quality me; access_token := access_token me; logger := logger me |}.

(** [time.sleep(secs)]; a negative argument raises [ValueError]. *)
Definition sleep (secs : Z) : M unit :=
  if secs <? 0 then raise ValueError else emit (Sleep secs).

(** [TwitchRecorder.fetch_access_token()] *)
Definition fetch_access_token (reply : option str) : M str :=
  emit TokenRequest >>
  match reply with
  | Some token => ret token
  | None => raise RequestException
  end.

(** [os.remove(path)] *)
Definition os_remove (path : str) : M unit :=
  let* fs := get_files in
  match fs !! path with
  | Some _ => set_files (delete path fs)
  | None => raise FileNotFoundError
  end.

(** [shutil.move(src, dst)] of a regular file *)
Definition shutil_move (src dst : str) : M unit :=
  let* fs := get_files in
  match fs !! src with
  | Some content => set_files (<[dst := content]> (delete src fs))
  | None => raise FileNotFoundError
  end.

(** [os.path.exists(path)] *)
Definition os_path_exists (path : str) : M bool :=
  let* fs := get_files in
  ret (bool_decide (is_Some (fs !! path))).

(** Running a child process that writes to [output]. *)
Definition subprocess_run (e : event) (output : str) (run : Subprocess.outcome) : M Z :=
  emit e >>
  match run with
  | Subprocess.LaunchFailure => raise FileNotFoundError
  | Subprocess.Exited code written =>
      match written with
      | Some content =>
          let* fs := get_files in
          set_files (<[output := content]> fs) >> ret code
      | None => ret code
      end
  end.

Definition ffmpeg_copy_and_fix_errors (run : Subprocess.outcome)
    (recorded_filename processed_filename : str) : M unit :=
  try_except
    (let* me := get_self in
     let* _ := subprocess_run
                 (Ffmpeg (ffmpeg_path me) recorded_filename processed_filename)
                 processed_filename run in
     os_remove recorded_filename)
    (fun e => log Logging.ERROR "(the exception)").

Definition process_recorded_file (run : Subprocess.outcome)
    (recorded_filename processed_filename : str) : M unit :=
  let* me := get_self in
  if disable_ffmpeg me then
    log Logging.INFO "moving: %s" >>
    shutil_move recorded_filename processed_filename
  else
    log Logging.INFO "fixing %s" >>
    ffmpeg_copy_and_fix_errors run recorded_filename processed_filename.

(** The [except requests.exceptions.RequestException as e] clause of
    [check_user]; [e_response] is [e.response]. *)
Definition check_user_except (e_response : option Requests.Response)
    (status : TwitchResponseStatus) : TwitchResponseStatus :=
  match e_response with
  | Some r =>
      if Requests.Response_bool r then
        let status := if Requests.status_code r =? 401 then UNAUTHORIZED else status in
        let status := if Requests.status_code r =? 404 then NOT_FOUND else status in
        status
      else status
  | None => status
  end.

Definition check_user (reply : Requests.reply)
  : M (TwitchResponseStatus * json) :=
  let info := JNull in
  let status := ERROR in
  let* me := get_self in
  emit (HttpGet (username me) (access_token me)) >>
  match reply with
  | Requests.NoResponse => ret (check_user_except None status, info)
  | Requests.Responded r =>
      if Requests.raise_for_status_raises r then
        ret (check_user_except (Some r) status, info)
      else
        let info := Requests.body r in
        match info with
        | JNull => ret (OFFLINE, info)
        | _ =>
            let* data := lift (getitem info (lit "data")) in
            if negb (truthy data) then ret (OFFLINE, info) else ret (ONLINE, info)
        end
  end.

(** The characters the cleaning of the file name keeps:
    [x.isalnum() or x in [' ', '-', '_', '.']]. *)
Definition keeps (x : N) : bool :=
  isalnum x || bool_decide (x ∈ lit " " ++ lit "-" ++ lit "_" ++ lit ".").

(** Line 174: the characters of [filename] that satisfy [keeps], joined. *)
Definition clean_filename (filename : str) : str := List.filter keeps filename.

(** The file name of a recording, before cleaning (lines 170-171). *)
Definition compose_filename (user : str) (t : datetime) (title : json) : exn + str :=
  match str_add (user ++ lit " - " ++ strftime_date_time t ++ lit " - ") title with
  | inl e => inl e
  | inr s => inr (s ++ lit ".mp4")
  end.

(** [with filelock.FileLock(lock_file=lock_file, timeout=0.05) as lock: body] *)
Definition with_FileLock {A} (lock_file : str) (free : bool) (body : M A) : M A :=
  if free then
    emit (LockAcquired lock_file) >> finally body (emit (LockReleased lock_file))
  else
    emit (LockBusy lock_file) >> raise LockTimeout.

(** The [if]/[elif] chain of [check] on the pair returned by
    [check_user] (lines 152-193). *)
Definition check_status (c : cycle) (recorded_path processed_path : str)
    (status : TwitchResponseStatus) (info : json) : M unit :=
  let* me := get_self in
  match status with
  | NOT_FOUND =>
      log Logging.ERROR "username not found, invalid username or typo" >>
      sleep (refresh me)
  | ERROR =>
      log Logging.ERROR "%s unexpected error. will try again in 5 minutes" >>
      sleep 300
  | OFFLINE =>
      log Logging.INFO "%s currently offline, checking again in %s seconds" >>
      sleep (refresh me)
  | UNAUTHORIZED =>
      log Logging.WARNING "unauthorized, will attempt to log back in immediately" >>
      let* token := fetch_access_token (token_reply c) in
      set_self (with_access_token token me)
  | ONLINE =>
      log Logging.INFO "%s online, stream recording in session" >>
      let* channels := lift (getitem info (lit "data")) in
      let* channel := lift (first_or_None channels) in
      let* title := lift (dot_get channel (lit "title")) in
      let* filename := lift (compose_filename (username me) (now c) title) in
      let filename := clean_filename filename in
      let recorded_filename := OsPath.join recorded_path filename in
      let processed_filename := OsPath.join processed_path filename in
      self_logger Logging.INFO "Recording user %s" >>
      let* _ := subprocess_run
                  (Streamlink (username me) (quality me) recorded_filename)
                  recorded_filename (streamlink_run c) in
      log Logging.INFO "recording stream is done, processing video file" >>
      let* present := os_path_exists recorded_filename in
      (if present then
         process_recorded_file (ffmpeg_run c) recorded_filename processed_filename
       else
         log Logging.INFO "skip fixing, file not found") >>
      log Logging.INFO "processing is done, going back to checking..."
  end.

(** The body of the [with] statement of [check] (lines 151-193). *)
Definition check_locked (c : cycle) (recorded_path processed_path : str) : M unit :=
  let* (status, info) := check_user (status_reply c) in
  check_status c recorded_path processed_path status info.

Definition check (c : cycle) (recorded_path processed_path : str) : M unit :=
  try_except
    (with_FileLock (recorded_path ++ lit ".lock") (lock_free c)
       (check_locked c recorded_path processed_path))
    (fun e => match e with LockTimeout => ret tt | _ => raise e end).

(** [loop_check]: the [while True] loop, run on the environments of its
    successive iterations.  It never returns by itself: [Returned tt]
    means that every supplied iteration was executed and the loop is still
    running; [Raised e] that an iteration ended the loop with [e]. *)
Fixpoint loop_check (cs : list cycle) (recorded_path processed_path : str) : M unit :=
  match cs with
  | [] => ret tt
  | c :: cs' =>
      check c recorded_path processed_path >>
      (let* me := get_self in sleep (refresh me)) >>
      loop_check cs' recorded_path processed_path
  end.

(** [os.makedirs(path)] when [os.path.isdir(path)] is [False]. *)
Definition makedirs_if_missing (path : str) : M unit :=
  fun s =>
    if bool_decide (path ∈ dirs s) then (Returned tt, s, [])
    else (Returned tt, {| self := self s; files := files s; dirs := {[path]} ∪ dirs s |},
          [Makedirs path]).

(** [[f for f in os.listdir(d) if os.path.isfile(os.path.join(d, f))]]:
    the names of the regular files directly inside [d]. *)
Definition listdir_files (d : str) (fs : gmap str bytes) : list str :=
  omap (fun k =>
          let name := OsPath.basename k in
          if bool_decide (name ≠ [] ∧ OsPath.join d name = k) then Some name else None)
       (map fst (map_to_list fs)).

(** The [for f in video_list] loop of [run]; [repair f] is what the ffmpeg
    child process started for [f] does. *)
Fixpoint process_previous (repair : str -> Subprocess.outcome)
    (recorded_path processed_path : str) (video_list : list str) : M unit :=
  match video_list with
  | [] => ret tt
  | f :: rest =>
      process_recorded_file (repair f)
        (OsPath.join recorded_path f) (OsPath.join processed_path f) >>
      process_previous repair recorded_path processed_path rest
  end.

Definition recorded_dir (me : TwitchRecorder) : str :=
  OsPath.join (OsPath.join (root_path me) (lit "recorded")) (username me).

Definition processed_dir (me : TwitchRecorder) : str :=
  OsPath.join (OsPath.join (root_path me) (lit "processed")) (username me).

(** [run], up to the choice between [check] and [loop_check] (lines
    68-95): the directories, the minimum interval, the files left by a
    previous session. *)
Definition run_prepare (repair : str -> Subprocess.outcome) : M unit :=
  let* me := get_self in
  let recorded_path := recorded_dir me in
  let processed_path := processed_dir me in
  makedirs_if_missing recorded_path >>
  makedirs_if_missing processed_path >>
  (if refresh me <? 15 then
     self_logger Logging.WARNING "check interval should not be lower than 15 seconds" >>
     set_self (with_refresh 15 me) >>
     self_logger Logging.INFO "system set check interval to 15 seconds"
   else ret tt) >>
  try_except
    (let* fs := get_files in
     let video_list := listdir_files recorded_path fs in
     (if (0 <? length video_list)%nat then
        self_logger Logging.INFO "processing previously recorded files"
      else ret tt) >>
     process_previous repair recorded_path processed_path video_list)
    (fun e => log Logging.ERROR "(the exception)").

(** [run(once)]: [c] is the environment of the first call of [check],
    [cs] those of the further iterations of [loop_check] (unused when
    [once]). *)
Definition run (once : bool) (repair : str -> Subprocess.outcome)
    (c : cycle) (cs : list cycle) : M unit :=
  let* me := get_self in
  let recorded_path := recorded_dir me in
  let processed_path := processed_dir me in
  run_prepare repair >>
  if once then
    self_logger Logging.DEBUG "checking for %s, recording with %s quality" >>
    check c recorded_path processed_path
  else
    log Logging.INFO "checking for %s every %s seconds, recording with %s quality" >>
    loop_check (c :: cs) recorded_path processed_path.

(** Projections of what a method did from a given state. *)
Definition result_of {A} (x : result A * state * list event) : result A := fst (fst x).
Definition state_of {A} (x : result A * state * list event) : state := snd (fst x).
Definition events_of {A} (x : result A * state * list event) : list event := snd x.

(* ===================================================================== *)
(** ** Reading a trace *)
(* ===================================================================== *)

Definition is_poll (e : event) : bool :=
  match e with HttpGet _ _ => true | _ => false end.

Definition is_sleep (e : event) : bool :=
  match e with Sleep _ => true | _ => false end.

(** Number of status requests in a trace. *)
Definition polls (t : list event) : nat := length (List.filter is_poll t).

(** Seconds slept between consecutive status requests; [since] is the time
    slept since the last request, if there was one. *)
Fixpoint gaps_from (since : option Z) (t : list event) : list Z :=
  match t with
  | [] => []
  | HttpGet _ _ :: t' =>
      match since with
      | Some d => d :: gaps_from (Some 0) t'
      | None => gaps_from (Some 0) t'
      end
  | Sleep d :: t' => gaps_from (option_map (Z.add d) since) t'
  | _ :: t' => gaps_from since t'
  end.

Definition poll_gaps (t : list event) : list Z := gaps_from None t.

(** [since] being the time slept since the last status request, if there
    was one: that time is at least [bound]. *)
Definition slept_at_least (bound : Z) (since : option Z) : Prop :=
  match since with
  | Some d => bound <= d
  | None => True
  end.

Definition is_lock_attempt (e : event) : bool :=
  match e with LockAcquired _ | LockBusy _ => true | _ => false end.

(** Number of attempts to take the lock in a trace. *)
Definition lock_attempts (t : list event) : nat := length (List.filter is_lock_attempt t).

(** The ASCII characters a portable file name is made of. *)
Definition ascii_safe (x : N) : bool :=
  ((48 <=? x) && (x <=? 57) || (65 <=? x) && (x <=? 90) || (97 <=? x) && (x <=? 122)
   || (x =? 32) || (x =? 45) || (x =? 95) || (x =? 46))%N.

Definition launches (run : Subprocess.outcome) : bool :=
  match run with Subprocess.LaunchFailure => false | Subprocess.Exited _ _ => true end.

Definition has_logger (me : TwitchRecorder) : bool :=
  match logger me with Some _ => true | None => false end.

(** A live stream that [check] records: ["data"] is a list whose first
    entry is an object with a string ["title"], the recorder has a logger
    and streamlink can be started. *)
Definition recordable (me : TwitchRecorder) (data : json) (c : cycle) : bool :=
  match data with
  | JArr (JObj entry :: _) =>
      match dict_get (lit "title") entry with
      | Some (JStr _) => has_logger me && launches (streamlink_run c)
      | _ => false
      end
  | _ => false
  end.

(** The cycles in which [check] raises nothing: the lock is busy, or the
    status request fails or is answered by an error status, or its body is
    [null] or has a false ["data"], or the stream is one that [check]
    records. *)
Definition benign (me : TwitchRecorder) (c : cycle) : bool :=
  negb (lock_free c) ||
  match status_reply c with
  | Requests.NoResponse => true
  | Requests.Responded r =>
      Requests.raise_for_status_raises r ||
      match Requests.body r with
      | JNull => true
      | JObj fields =>
          match dict_get (lit "data") fields with
          | Some data => negb (truthy data) || recordable me data c
          | None => false
          end
      | _ => false
      end
  end.

(** What the status request of a cycle brings, read off the answer: the
    lock is busy and no request is made; nothing to record (the request
    fails, is answered with an error status, or its body is [null] or has
    a false ["data"]); a true ["data"]; or a body from which ["data"]
    cannot be read. *)
Inductive poll_class : Type :=
| Skipped
| Idle
| Live (data : json)
| Malformed.

Definition classify (c : cycle) : poll_class :=
  if negb (lock_free c) then Skipped
  else
    match status_reply c with
    | Requests.NoResponse => Idle
    | Requests.Responded r =>
        if Requests.raise_for_status_raises r then Idle
        else
          match Requests.body r with
          | JNull => Idle
          | JObj fields =>
              match dict_get (lit "data") fields with
              | Some data => if truthy data then Live data else Idle
              | None => Malformed
              end
          | _ => Malformed
          end
    end.

(** ["data"] is a list whose first entry is an object with a string
    ["title"]. *)
Definition titled (data : json) : bool :=
  match data with
  | JArr (JObj entry :: _) =>
      match dict_get (lit "title") entry with
      | Some (JStr _) => true
      | _ => false
      end
  | _ => false
  end.

(** The cycles after which the loop goes on: nothing is polled or nothing
    is to record, or, on a recorder with a logger ([logged]), a titled
    live stream whose capture can be started. *)
Definition goes_on (logged : bool) (c : cycle) : bool :=
  match classify c with
  | Skipped | Idle => true
  | Live data => logged && titled data && launches (streamlink_run c)
  | Malformed => false
  end.

(** The cycles that fail: ["data"] cannot be read, the live stream has no
    string title, or, on a recorder with a logger, the capture cannot be
    started.  (A titled live stream on a recorder without logger is in
    neither class.) *)
Definition fails (logged : bool) (c : cycle) : bool :=
  match classify c with
  | Skipped | Idle => false
  | Live data => negb (titled data) || logged && negb (launches (streamlink_run c))
  | Malformed => true
  end.

(* ===================================================================== *)
(** ** The constructor *)
(* ===================================================================== *)

(** The values of the module [config] that the recorder object keeps
    ([client_id] and [client_secret] only shape the requests). *)
Record Config : Type := { config_root_path : str; config_username : str }.

(** The attributes the constructor sets (lines 35-53), for the token
    [token]. *)
Definition attributes (cfg : Config) (user : option str)
    (lg : option Logging.Logger) (token : str) : TwitchRecorder :=
  {| ffmpeg_path := lit "ffmpeg"; disable_ffmpeg := false; refresh := 15;
     root_path := config_root_path cfg;
     username := match user with Some u => u | None => config_username cfg end;
     quality := lit "best"; access_token := token; logger := lg |}.

(** [TwitchRecorder(username, logger, access_token)] (lines 30-53).
    Without a token the constructor calls [fetch_access_token]; [fetched]
    is the outcome of that call, as for [fetch_access_token] above. *)
Definition __init__ (cfg : Config) (user : option str)
    (lg : option Logging.Logger) (token : option str) (fetched : option str)
  : result TwitchRecorder * list event :=
  match token with
  | Some t => (Returned (attributes cfg user lg t), [])
  | None =>
      match fetched with
      | Some t => (Returned (attributes cfg user lg t), [TokenRequest])
      | None => (Raised RequestException, [TokenRequest])
      end
  end.

(* ===================================================================== *)
(** ** The multi-target scheduler of [main] *)
(* ===================================================================== *)

Module Scheduler.

Definition num_workers : nat := 4.

(** Where the thread pool is with one submitted call. *)
Inductive phase : Type :=
| Queued                          (* in the executor's work queue *)
| Running                         (* being executed by a worker thread *)
| Finished (r : result unit).     (* result or exception stored in the future *)

(** One [pool.submit(recorder.run, True)]. *)
Record future : Type := {
  fut_username : str;
  fut_token : str;
  fut_phase : phase
}.

(** The executor's work items, in submission order (a future is known by
    its position), and [list_of_futures] of [main]. *)
Record t : Type := {
  pool : list future;
  list_of_futures : list nat
}.

Definition initial : t := {| pool := []; list_of_futures := [] |}.

Definition is_running (f : future) : bool :=
  match fut_phase f with Running => true | _ => false end.

Definition is_done (f : future) : bool :=
  match fut_phase f with Finished _ => true | _ => false end.

(** Units being executed by a worker thread. *)
Definition executing (s : t) : nat := length (List.filter is_running (pool s)).

(** Units submitted and not finished yet (queued or running). *)
Definition in_flight (s : t) : nat :=
  length (List.filter (fun f => negb (is_done f)) (pool s)).

(** [[line.rstrip() for line in f
      if line.rstrip() is not None and len(line.rstrip()) > 1]]
    on the lines of the file; [line.rstrip()] is never [None]. *)
Definition select_usernames (lines : list str) : list str :=
  map rstrip (List.filter (fun line => (1 <? length (rstrip line))%nat) lines).

Definition twitch_usernames (text : str) : list str :=
  select_usernames (iter_lines text).

Definition new_future (token : str) (user : str) : future :=
  {| fut_username := user; fut_token := token; fut_phase := Queued |}.

(** The recorder of a submitted call (line 249): built for the user name,
    with the logger of [main] and the token of the batch. *)
Definition recorder (cfg : Config) (f : future) : TwitchRecorder :=
  attributes cfg (Some (fut_username f)) (Some (Logging.getLogger "__main__"))
    (fut_token f).

(** What a worker thread stores in the future of a call: the outcome of
    [recorder.run(True)], in whatever environment the call meets. *)
Definition unit_outcome (f : future) (r : result unit) : Prop :=
  exists cfg repair c fs ds,
    r = result_of (run true repair c []
                     {| self := recorder cfg f; files := fs; dirs := ds |}).

(** Lines 245-252: one recorder and one submitted call per user name,
    all appended to [list_of_futures]. *)
Definition submit_batch (text token : str) (s : t) : t :=
  let users := twitch_usernames text in
  {| pool := pool s ++ map (new_future token) users;
     list_of_futures := list_of_futures s ++ seq (length (pool s)) (length users) |}.

(** [list.remove(x)]: the first occurrence goes. *)
Fixpoint list_remove (x : nat) (l : list nat) : list nat :=
  match l with
  | [] => []
  | y :: l' => if (x =? y)%nat then l' else y :: list_remove x l'
  end.

Definition set_phase (i : nat) (p : phase) (s : t) : t :=
  {| pool := alter (fun f => {| fut_username := fut_username f;
                                fut_token := fut_token f;
                                fut_phase := p |}) i (pool s);
     list_of_futures := list_of_futures s |}.

Definition forget (i : nat) (s : t) : t :=
  {| pool := pool s; list_of_futures := list_remove i (list_of_futures s) |}.

(** The moves of the main thread and of the pool's worker threads.
    (Opening streamers.txt and fetching the token of a batch may raise,
    which ends [main]: the moves are those of a [main] that goes on.) *)
Inductive step : t -> t -> Prop :=
| step_start s i f :
    (* an idle worker thread (there are [max_workers = num_workers]
       of them) takes a queued call *)
    pool s !! i = Some f -> fut_phase f = Queued ->
    (executing s < num_workers)%nat ->
    step s (set_phase i Running s)
| step_finish s i f r :
    (* the call returns or raises; either way the worker stores the
       outcome in the future *)
    pool s !! i = Some f -> fut_phase f = Running -> unit_outcome f r ->
    step s (set_phase i (Finished r) s)
| step_drain s i f :
    (* lines 240-242: while more than [num_workers] futures are listed,
       take one that is completed and remove it *)
    (num_workers < length (list_of_futures s))%nat ->
    In i (list_of_futures s) -> pool s !! i = Some f -> is_done f = true ->
    step s (forget i s)
| step_submit s text token :
    (* lines 245-252, reached when the inner [while] condition is false *)
    (length (list_of_futures s) <= num_workers)%nat ->
    step s (submit_batch text token s).

Definition reachable (s : t) : Prop := rtc step initial s.

(** The same with channel lists of at most [bound] names: a move adds at
    most [bound] calls to the pool. *)
Definition step_within (bound : nat) (s s' : t) : Prop :=
  step s s' /\ (length (pool s') <= length (pool s) + bound)%nat.

Definition reachable_within (bound : nat) (s : t) : Prop :=
  rtc (step_within bound) initial s.

(** The call at position [i] is being executed. *)
Definition running_at (s : t) (i : nat) : Prop :=
  exists f, pool s !! i = Some f /\ fut_phase f = Running.

(** The future at position [i] is submitted and not finished. *)
Definition pending_at (s : t) (i : nat) : bool :=
  match pool s !! i with
  | Some f => negb (is_done f)
  | None => false
  end.

(** Every unfinished future is in [list_of_futures]. *)
Definition tracked (s : t) : Prop :=
  forall i, pending_at s i = true -> In i (list_of_futures s).

End Scheduler.

(** Events other than the status request and the lock, with sleeps of a
    non-negative length: what the branches of [check] may produce. *)
Definition calm (e : event) : Prop :=
  is_poll e = false /\ is_lock_attempt e = false
  /\ match e with Sleep d => 0 <= d | _ => True end.

Definition not_LockTimeout (e : exn) : Prop := e <> LockTimeout.

(** The state in which the recorder object has the token [token]. *)
Definition with_token (token : str) (s : state) : state :=
  {| self := with_access_token token (self s); files := files s; dirs := dirs s |}.

(* ===================================================================== *)
(** ** Specifications of methods *)
(* ===================================================================== *)

(** [wp m s Q]: running [m] from [s] gives a result, a state and
    events related by [Q]. *)
Definition wp {A} (m : M A) (s : state)
    (Q : result A -> state -> list event -> Prop) : Prop :=
  Q (result_of (m s)) (state_of (m s)) (events_of (m s)).

(** [tame I E X m]: from a state in [I], method [m] ends in a state in
    [I], produces only events in [E] and raises only exceptions in [X]. *)
Definition tame {A} (I : state -> Prop) (E : event -> Prop) (X : exn -> Prop)
    (m : M A) : Prop :=
  forall s, I s ->
    I (state_of (m s)) /\ Forall E (events_of (m s))
    /\ (forall e, result_of (m s) = Raised e -> X e).

(** The server's answer with status [code] and decoded body [b]. *)
Definition http (code : Z) (b : json) : Requests.reply :=
  Requests.Responded {| Requests.status_code := code; Requests.body := b |}.

(* ===================================================================== *)
(** ** Concrete inputs of the examples *)
(* ===================================================================== *)

Module Sample.

(** The recorder of channel "bob" with the default settings, as [main]
    builds it in single-target mode: without logger. *)
Definition bob : TwitchRecorder :=
  {| ffmpeg_path := lit "ffmpeg"; disable_ffmpeg := false; refresh := 15;
     root_path := lit "/data"; username := lit "bob"; quality := lit "best";
     access_token := lit "token-1"; logger := None |}.

(** The same as [main] builds it in multi-target mode: with its logger. *)
Definition pooled_bob : TwitchRecorder :=
  {| ffmpeg_path := lit "ffmpeg"; disable_ffmpeg := false; refresh := 15;
     root_path := lit "/data"; username := lit "bob"; quality := lit "best";
     access_token := lit "token-1";
     logger := Some (Logging.getLogger "__main__") |}.

Definition recorded_path : str := lit "/data/recorded/bob".
Definition processed_path : str := lit "/data/processed/bob".

(** [bob] and an empty file system. *)
Definition start : state := {| self := bob; files := ∅; dirs := ∅ |}.

Definition pooled_start : state := {| self := pooled_bob; files := ∅; dirs := ∅ |}.

(** 2024-01-02 03:04:05 *)
Definition jan2 : datetime :=
  {| year := 2024; month := 1; day := 2; hour := 3; minute := 4; second := 5 |}.

(** A cycle with the lock free and the given answer to the status
    request; streamlink and ffmpeg run and write one byte each. *)
Definition cycle_with (reply : Requests.reply) : cycle :=
  {| lock_free := true; status_reply := reply; token_reply := Some (lit "token-2");
     now := jan2;
     streamlink_run := Subprocess.Exited 0 (Some [Byte.x01]);
     ffmpeg_run := Subprocess.Exited 0 (Some [Byte.x02]) |}.

(** The same with the lock held by somebody else. *)
Definition busy_cycle (reply : Requests.reply) : cycle :=
  {| lock_free := false; status_reply := reply; token_reply := Some (lit "token-2");
     now := jan2;
     streamlink_run := Subprocess.Exited 0 (Some [Byte.x01]);
     ffmpeg_run := Subprocess.Exited 0 (Some [Byte.x02]) |}.

(** Bodies of the streams endpoint: nobody live, a live stream with the
    given title, a live stream whose entry has no title. *)
Definition offline_body : json := JObj [(lit "data", JArr [])].

Definition online_body (title : str) : json :=
  JObj [(lit "data", JArr [JObj [(lit "title", JStr title)]])].

Definition untitled_body : json :=
  JObj [(lit "data", JArr [JObj [(lit "id", JStr (lit "41"))]])].

Definition offline : cycle := cycle_with (http 200 offline_body).

Definition untitled : cycle := cycle_with (http 200 untitled_body).

(** [start] with one recording left in the recorded directory. *)
Definition leftover : str := lit "/data/recorded/bob/bob - old.mp4".

Definition repaired : str := lit "/data/processed/bob/bob - old.mp4".

Definition with_leftover : state :=
  {| self := bob; files := {[ leftover := [Byte.x0a; Byte.x0b] ]}; dirs := ∅ |}.

(** The recorder as the pool runs it, with one recording left in its
    recorded directory. *)
Definition pooled_with_leftover : state :=
  {| self := pooled_bob; files := {[ leftover := [Byte.x0a; Byte.x0b] ]}; dirs := ∅ |}.

(** A live stream whose capture ends at once: streamlink exits with an
    error and has written nothing. *)
Definition short_capture : cycle :=
  {| lock_free := true;
     status_reply := http 200 (online_body (lit "Ranked Play!"));
     token_reply := Some (lit "token-2"); now := jan2;
     streamlink_run := Subprocess.Exited 1 None;
     ffmpeg_run := Subprocess.Exited 0 (Some [Byte.x02]) |}.

(** A [streamers.txt] with five names. *)
Definition streamers : str :=
  lit "alice" ++ [10%N] ++ lit "bob" ++ [10%N] ++ lit "carol" ++ [10%N]
    ++ lit "dave" ++ [10%N] ++ lit "erin" ++ [10%N].

End Sample.

(* ===================================================================== *)
(** ** More readings of a trace *)
(* ===================================================================== *)

Definition is_token_request (e : event) : bool :=
  match e with TokenRequest => true | _ => false end.

(** The capture process (streamlink) and the repair process (ffmpeg). *)
Definition is_capture (e : event) : bool :=
  match e with Streamlink _ _ _ => true | _ => false end.

Definition is_repair (e : event) : bool :=
  match e with Ffmpeg _ _ _ => true | _ => false end.

(** The state in which the recorder object has the interval [secs]. *)
Definition with_interval (secs : Z) (s : state) : state :=
  {| self := with_refresh secs (self s); files := files s; dirs := dirs s |}.

(* ===================================================================== *)
(** ** [main] up to the choice of the mode *)
(* ===================================================================== *)

(** [r.username = arg], [r.quality = arg], [r.disable_ffmpeg = b] *)
Definition with_username (arg : str) (me : TwitchRecorder) : TwitchRecorder :=
  {| ffmpeg_path := ffmpeg_path me; disable_ffmpeg := disable_ffmpeg me;
     refresh := refresh me; root_path := root_path me; username := arg;
     quality := quality me; access_token := access_token me; logger := logger me |}.

Definition with_quality (arg : str) (me : TwitchRecorder) : TwitchRecorder :=
  {| ffmpeg_path := ffmpeg_path me; disable_ffmpeg := disable_ffmpeg me;
     refresh := refresh me; root_path := root_path me; username := username me;
     quality := arg; access_token := access_token me; logger := logger me |}.

Definition with_disable_ffmpeg (b : bool) (me : TwitchRecorder) : TwitchRecorder :=
  {| ffmpeg_path := ffmpeg_path me; disable_ffmpeg := b;
     refresh := refresh me; root_path := root_path me; username := username me;
     quality := quality me; access_token := access_token me; logger := logger me |}.

(** How a step of [main] goes on: with the next statement, with
    [print(usage_message)] and [sys.exit(code)] ([sys.exit()] is status 0),
    or with an exception that nothing catches. *)
Inductive flow (A : Type) : Type :=
| Next (a : A)
| SystemExit (code : Z)
| Uncaught (e : exn).
Arguments Next {A} a.
Arguments SystemExit {A} code.
Arguments Uncaught {A} e.

(** The local variables of [main] that the options change. *)
Record main_vars : Type := {
  twitch_recorder : TwitchRecorder;
  specified_username : bool
}.

(** The body of [for opt, arg in opts] (lines 213-229).  [level_of arg] is
    the value of [getattr(logging, arg.upper(), None)] when that is an
    [int], and [None] otherwise. *)
Definition main_option (level_of : str -> option Z) (opt arg : str) (v : main_vars)
  : flow main_vars * list event :=
  let r := twitch_recorder v in
  if str_eqb opt (lit "-h") then
    (SystemExit 0, [])
  else if str_eqb opt (lit "-u") || str_eqb opt (lit "--username") then
    (Next {| twitch_recorder := with_username arg r; specified_username := true |}, [])
  else if str_eqb opt (lit "-q") || str_eqb opt (lit "--quality") then
    (Next {| twitch_recorder := with_quality arg r;
             specified_username := specified_username v |}, [])
  else if str_eqb opt (lit "-l") || str_eqb opt (lit "--log")
          || str_eqb opt (lit "--logging") then
    match level_of arg with
    | Some _ => (Next v, [Log Logging.INFO "logging configured to %s"])
    | None => (Uncaught ValueError, [])
    end
  else if str_eqb opt (lit "--disable-ffmpeg") then
    (Next {| twitch_recorder := with_disable_ffmpeg true r;
             specified_username := specified_username v |},
     [Log Logging.INFO "ffmpeg disabled"])
  else (Next v, []).

(** The loop over the pairs that [getopt.getopt] has returned. *)
Fixpoint main_options (level_of : str -> option Z) (opts : list (str * str))
    (v : main_vars) : flow main_vars * list event :=
  match opts with
  | [] => (Next v, [])
  | (opt, arg) :: rest =>
      match main_option level_of opt arg v with
      | (Next v', t) =>
          match main_options level_of rest v' with
          | (x, t') => (x, t ++ t')
          end
      | (stop, t) => (stop, t)
      end
  end.

(** What [main] goes on with after the options. *)
Inductive main_mode : Type :=
| Single (r : TwitchRecorder)     (* twitch_recorder.run() *)
| Multi.                          (* the loop over the thread pool *)

(** [main], up to the choice of the mode (lines 198-231).  [parsed] is
    what [getopt.getopt] makes of the command line: its list of pairs, or
    [None] when it raises [GetoptError]. *)
Definition main_setup (cfg : Config) (fetched : option str)
    (level_of : str -> option Z) (parsed : option (list (str * str)))
  : flow main_mode * list event :=
  match __init__ cfg None None None fetched with
  | (Raised e, t) => (Uncaught e, t)
  | (Returned r, t) =>
      match parsed with
      | None => (SystemExit 2, t)
      | Some opts =>
          match main_options level_of opts
                  {| twitch_recorder := r; specified_username := false |} with
          | (Next v, t') =>
              (Next (if specified_username v then Single (twitch_recorder v) else Multi),
               t ++ t')
          | (SystemExit code, t') => (SystemExit code, t ++ t')
          | (Uncaught e, t') => (Uncaught e, t ++ t')
          end
      end
  end.

(** [opt] is one of the options that set the user name, or the log level. *)
Definition is_username_option (opt : str) : bool :=
  str_eqb opt (lit "-u") || str_eqb opt (lit "--username").

Definition is_log_option (opt : str) : bool :=
  str_eqb opt (lit "-l") || str_eqb opt (lit "--log") || str_eqb opt (lit "--logging").

(** A pair of [opts] after which the loop goes on: it is not [-h], and if
    it sets the log level, the level is one that [logging] knows. *)
Definition passes (level_of : str -> option Z) (oa : str * str) : bool :=
  negb (str_eqb (fst oa) (lit "-h"))
  && (negb (is_log_option (fst oa))
      || match level_of (snd oa) with Some _ => true | None => false end).

(** What [check] sleeps, while it holds the lock, after a status request
    that gives it nothing to record: 300 seconds on ERROR, the interval on
    OFFLINE. *)
Definition idle_sleep (st : state) (reply : Requests.reply) : option Z :=
  match result_of (check_user reply st) with
  | Returned (OFFLINE, _) => Some (refresh (self st))
  | Returned (ERROR, _) => Some 300
  | _ => None
  end.

(* ===================================================================== *)
(** ** The files a method may change *)
(* ===================================================================== *)

(** [m] changes no file whose path is outside [P]. *)
Definition confined {A} (P : str -> Prop) (m : M A) : Prop :=
  forall s k, files (state_of (m s)) !! k = files s !! k \/ P k.

(** [k] is the path of an entry directly inside the directory [d]: [d]
    joined with a name that is not empty and holds no separator. *)
Definition directly_inside (d k : str) : Prop :=
  exists name, name <> [] /\ ~ In OsPath.sep name /\ k = OsPath.join d name.

(** [k] is directly inside one of the two directories of a recorder. *)
Definition in_directories (recorded_path processed_path k : str) : Prop :=
  directly_inside recorded_path k \/ directly_inside processed_path k.

(** The state in which the files are [fs]. *)
Definition with_files (fs : gmap str bytes) (s : state) : state :=
  {| self := self s; files := fs; dirs := dirs s |}.

(* ===================================================================== *)
(** * Theorems *)
(* ===================================================================== *)

(** Unfolding of the monad's operations. *)
Ltac run_M :=
  unfold result_of, state_of, events_of, log, lift, sleep, fetch_access_token,
    os_remove, shutil_move, os_path_exists, subprocess_run,
    try_except, finally, bind, ret, raise, emit,
    get_self, get_files, set_self, set_files in *;
  cbn [fst snd] in *.

(* --------------------------------------------------------------------- *)
(** ** check_user *)
(* --------------------------------------------------------------------- *)

(** A response with an error status is false in a boolean context, so the
    [except] clause never changes the status. *)
Lemma check_user_except_error_status r status :
  Requests.raise_for_status_raises r = true ->
  check_user_except (Some r) status = status.
Proof.
  intros H. unfold check_user_except, Requests.Response_bool, Requests.ok.
  now rewrite H.
Qed.

Lemma check_user_state reply st : state_of (check_user reply st) = st.
Proof.
  unfold check_user. destruct reply as [|r]; run_M; [reflexivity|].
  destruct (Requests.raise_for_status_raises r); [reflexivity|].
  destruct (Requests.body r) as [| | | | |kv]; try reflexivity.
  cbn. destruct (dict_get _ kv) as [d|]; [|reflexivity].
  cbn. now destruct (truthy d).
Qed.

Lemma check_user_events reply st :
  events_of (check_user reply st)
  = [HttpGet (username (self st)) (access_token (self st))].
Proof.
  unfold check_user. destruct reply as [|r]; run_M; [reflexivity|].
  destruct (Requests.raise_for_status_raises r); [reflexivity|].
  destruct (Requests.body r) as [| | | | |kv]; try reflexivity.
  cbn. destruct (dict_get _ kv) as [d|]; [|reflexivity].
  cbn. now destruct (truthy d).
Qed.

(** [check_user] never answers UNAUTHORIZED or NOT_FOUND. *)
Lemma check_user_statuses reply st status info :
  result_of (check_user reply st) = Returned (status, info) ->
  status = ERROR \/ status = OFFLINE \/ status = ONLINE.
Proof.
  unfold check_user. destruct reply as [|r]; run_M.
  - intros [= <- _]. now left.
  - destruct (Requests.raise_for_status_raises r) eqn:E.
    + rewrite (check_user_except_error_status _ _ E). intros [= <- _]. now left.
    + destruct (Requests.body r) as [| | | | |kv]; cbn;
        try (intros [= <- _]; tauto); try discriminate.
      destruct (dict_get _ kv) as [d|]; cbn; [|discriminate].
      destruct (truthy d); cbn; intros [= <- _]; tauto.
Qed.

(** The rows of the mapping that the code implements: no response and
    error statuses give ERROR, a [null] body or a false ["data"] gives
    OFFLINE, a true ["data"] gives ONLINE together with the decoded body
    (which holds the first entry's title). *)
Lemma check_user_rows st :
  result_of (check_user Requests.NoResponse st) = Returned (ERROR, JNull)
  /\ (forall r, Requests.raise_for_status_raises r = true ->
        result_of (check_user (Requests.Responded r) st) = Returned (ERROR, JNull))
  /\ (forall r, Requests.raise_for_status_raises r = false ->
        Requests.body r = JNull ->
        result_of (check_user (Requests.Responded r) st) = Returned (OFFLINE, JNull))
  /\ (forall r fields data, Requests.raise_for_status_raises r = false ->
        Requests.body r = JObj fields -> dict_get (lit "data") fields = Some data ->
        result_of (check_user (Requests.Responded r) st)
        = Returned (if truthy data then ONLINE else OFFLINE, JObj fields)).
Proof.
  repeat split.
  - intros r E. unfold check_user. run_M. rewrite E.
    now rewrite (check_user_except_error_status _ _ E).
  - intros r E B. unfold check_user. run_M. now rewrite E, B.
  - intros r fields data E B D. unfold check_user. run_M. rewrite E, B. cbn.
    rewrite D. cbn. now destruct (truthy data).
Qed.

(** C2 (the code at the failing inputs): a status request answered with
    HTTP 401 or HTTP 404 makes [check_user] return ERROR, not UNAUTHORIZED
    or NOT_FOUND, whatever the body and the state. *)
Theorem check_user_401_404_give_ERROR st b :
  result_of (check_user (http 401 b) st) = Returned (ERROR, JNull)
  /\ result_of (check_user (http 404 b) st) = Returned (ERROR, JNull).
Proof. split; reflexivity. Qed.

(* --------------------------------------------------------------------- *)
(** ** A small logic of the methods *)
(* --------------------------------------------------------------------- *)

Section Tame.

Context (I : state -> Prop) (E : event -> Prop) (X : exn -> Prop).

Lemma tame_ret {A} (a : A) : tame I E X (ret a).
Proof. intros s Hs. run_M. repeat split; [assumption|constructor|discriminate]. Qed.

Lemma tame_raise {A} e : X e -> tame I E X (@raise A e).
Proof.
  intros He s Hs. run_M. repeat split; [assumption|constructor|].
  now intros e' [= <-].
Qed.

Lemma tame_emit e : E e -> tame I E X (emit e).
Proof.
  intros He s Hs. run_M. repeat split; [assumption|now repeat constructor|discriminate].
Qed.

Lemma tame_log lvl msg : E (Log lvl msg) -> tame I E X (log lvl msg).
Proof. apply tame_emit. Qed.

Lemma tame_bind {A B} (m : M A) (k : A -> M B) :
  tame I E X m -> (forall a, tame I E X (k a)) -> tame I E X (bind m k).
Proof.
  intros Hm Hk s Hs. specialize (Hm s Hs). run_M.
  destruct (m s) as [[[a|e] s1] t1]; cbn in *.
  - destruct Hm as (H1 & H2 & _). specialize (Hk a s1 H1).
    destruct (k a s1) as [[r s2] t2]; cbn in *.
    destruct Hk as (K1 & K2 & K3). repeat split; [assumption| |assumption].
    apply Forall_app; now split.
  - destruct Hm as (H1 & H2 & H3). repeat split; [assumption|assumption|].
    intros e' [= <-]. now apply H3.
Qed.

Lemma tame_try_except {A} (m : M A) (h : exn -> M A) :
  tame I E (fun _ => True) m -> (forall e, tame I E X (h e)) ->
  tame I E X (try_except m h).
Proof.
  intros Hm Hh s Hs. specialize (Hm s Hs). run_M.
  destruct (m s) as [[[a|e] s1] t1]; cbn in *.
  - destruct Hm as (H1 & H2 & _). repeat split; [assumption|assumption|discriminate].
  - destruct Hm as (H1 & H2 & _). specialize (Hh e s1 H1).
    destruct (h e s1) as [[r s2] t2]; cbn in *.
    destruct Hh as (K1 & K2 & K3). repeat split; [assumption| |assumption].
    apply Forall_app; now split.
Qed.

Lemma tame_finally {A} (m : M A) (cleanup : M unit) :
  tame I E X m -> tame I E (fun _ => True) cleanup -> tame I E X (finally m cleanup).
Proof.
  intros Hm Hc s Hs. specialize (Hm s Hs). run_M.
  destruct (m s) as [[r s1] t1]; cbn in *. destruct Hm as (H1 & H2 & H3).
  specialize (Hc s1 H1). destruct (cleanup s1) as [[r' s2] t2]; cbn in *.
  destruct Hc as (K1 & K2 & _). repeat split; [assumption| |assumption].
  apply Forall_app; now split.
Qed.

Lemma tame_get_self : tame I E X get_self.
Proof. intros s Hs. run_M. repeat split; [assumption|constructor|discriminate]. Qed.

Lemma tame_self_logger lvl msg :
  E (Log lvl msg) -> X AttributeError -> tame I E X (self_logger lvl msg).
Proof.
  intros He HX s Hs. unfold self_logger. run_M. destruct (logger (self s)); cbn.
  - repeat split; [assumption|now repeat constructor|discriminate].
  - repeat split; [assumption|constructor|]. now intros e [= <-].
Qed.

Lemma tame_get_files : tame I E X get_files.
Proof. intros s Hs. run_M. repeat split; [assumption|constructor|discriminate]. Qed.

Lemma tame_lift {A} (x : exn + A) :
  (forall e, x = inl e -> X e) -> tame I E X (lift x).
Proof.
  intros Hx. destruct x as [e|a]; cbn.
  - apply tame_raise. now apply Hx.
  - apply tame_ret.
Qed.

(** Methods that only touch the files keep every invariant on the
    recorder object. *)
Hypothesis I_self : forall s s', self s' = self s -> I s -> I s'.

Lemma tame_set_files fs : tame I E X (set_files fs).
Proof.
  intros s Hs. run_M. repeat split; [|constructor|discriminate].
  now apply (I_self s).
Qed.

Lemma tame_makedirs path : E (Makedirs path) -> tame I E X (makedirs_if_missing path).
Proof.
  intros He s Hs. unfold makedirs_if_missing. run_M.
  destruct (bool_decide _); cbn; repeat split; try assumption; try discriminate.
  - constructor.
  - now apply (I_self s).
  - now repeat constructor.
Qed.

End Tame.

Lemma bind_get_self {A} (k : TwitchRecorder -> M A) s :
  bind get_self k s = k (self s) s.
Proof. run_M. now destruct (k (self s) s) as [[r s2] t2]. Qed.

Ltac tame_side :=
  lazymatch goal with
  | |- calm _ => unfold calm; cbn; repeat split; (lia || reflexivity)
  | |- not_LockTimeout _ => unfold not_LockTimeout; congruence
  | |- True => exact Logic.I
  | |- _ => idtac
  end.

Ltac tame_step :=
  lazymatch goal with
  | |- tame _ _ _ (bind _ _) => apply tame_bind; [|intros ?]
  | |- tame _ _ _ (ret _) => apply tame_ret
  | |- tame _ _ _ (raise _) => apply tame_raise; tame_side
  | |- tame _ _ _ (emit _) => apply tame_emit; tame_side
  | |- tame _ _ _ (log _ _) => apply tame_log; tame_side
  | |- tame _ _ _ get_self => apply tame_get_self
  | |- tame _ _ _ get_files => apply tame_get_files
  | |- tame _ _ _ (set_files _) => apply tame_set_files; assumption
  | |- tame _ _ _ (try_except _ _) => apply tame_try_except; [|intros ?]
  | |- tame _ _ _ (finally _ _) => apply tame_finally
  | |- tame _ _ _ (if ?b then _ else _) => destruct b eqn:?
  | |- tame _ _ _ (match ?x with _ => _ end) => destruct x eqn:?
  end.

Section TameMethods.

(** An invariant on the recorder object that a change of token keeps. *)
Context (I : state -> Prop).
Hypothesis I_self : forall s s', self s' = self s -> I s -> I s'.
Hypothesis I_token : forall s token, I s -> I (with_token token s).

Lemma tame_sleep X d : X ValueError -> tame I calm X (sleep d).
Proof.
  intros HX. unfold sleep. destruct (d <? 0) eqn:Hd.
  - now apply tame_raise.
  - apply tame_emit. apply Z.ltb_ge in Hd. tame_side.
Qed.

Lemma tame_fetch_access_token reply :
  tame I calm not_LockTimeout (fetch_access_token reply).
Proof. unfold fetch_access_token. repeat tame_step. Qed.

Lemma tame_os_remove X path : X FileNotFoundError -> tame I calm X (os_remove path).
Proof.
  intros HX. unfold os_remove. repeat tame_step. assumption.
Qed.

Lemma tame_shutil_move X src dst :
  X FileNotFoundError -> tame I calm X (shutil_move src dst).
Proof.
  intros HX. unfold shutil_move. repeat tame_step. assumption.
Qed.

Lemma tame_os_path_exists X path : tame I calm X (os_path_exists path).
Proof. unfold os_path_exists. repeat tame_step. Qed.

Lemma tame_subprocess_run X e output run :
  calm e -> X FileNotFoundError -> tame I calm X (subprocess_run e output run).
Proof.
  intros He HX. unfold subprocess_run.
  apply tame_bind; [now apply tame_emit|intros _].
  destruct run as [|code [content|]]; [now apply tame_raise| |apply tame_ret].
  repeat tame_step.
Qed.

Lemma tame_ffmpeg_copy_and_fix_errors X run recorded processed :
  tame I calm X (ffmpeg_copy_and_fix_errors run recorded processed).
Proof.
  unfold ffmpeg_copy_and_fix_errors.
  apply tame_try_except; [|intros e; apply tame_log; tame_side].
  apply tame_bind; [apply tame_get_self|intros me].
  apply tame_bind; [|intros _; now apply tame_os_remove].
  apply tame_subprocess_run; tame_side.
Qed.

Lemma tame_process_recorded_file run recorded processed :
  tame I calm not_LockTimeout (process_recorded_file run recorded processed).
Proof.
  unfold process_recorded_file.
  apply tame_bind; [apply tame_get_self|intros me].
  destruct (disable_ffmpeg me).
  - apply tame_bind; [apply tame_log; tame_side|intros _].
    apply tame_shutil_move. tame_side.
  - apply tame_bind; [apply tame_log; tame_side|intros _].
    apply tame_ffmpeg_copy_and_fix_errors.
Qed.

Lemma tame_check_status c recorded_path processed_path status info :
  tame I calm not_LockTimeout
    (check_status c recorded_path processed_path status info).
Proof.
  intros s Hs. unfold check_status. rewrite bind_get_self.
  destruct status.
  4: { (* UNAUTHORIZED: the recorder object changes in its token only *)
    run_M. destruct (token_reply c) as [token|]; cbn.
    - repeat split; [now apply I_token|repeat constructor|discriminate].
    - repeat split; [assumption|repeat constructor|].
      intros e [= <-]. tame_side. }
  all: remember (self s) as me eqn:Hme; clear Hme; revert s Hs;
    match goal with
    | |- forall s, _ -> _ (state_of (?m s)) /\ _ =>
        change (tame I calm not_LockTimeout m)
    end.
  - (* ONLINE *)
    apply tame_bind; [apply tame_log; tame_side|intros _].
    apply tame_bind; [apply tame_lift|intros channels].
    { unfold getitem. intros e. destruct info; try (intros [= <-]; tame_side).
      destruct (dict_get _ _); intros [= <-]. tame_side. }
    apply tame_bind; [apply tame_lift|intros channel].
    { intros e. destruct channels; cbn; intros [= <-]; tame_side. }
    apply tame_bind; [apply tame_lift|intros title].
    { intros e. destruct channel; cbn; intros [= <-]; tame_side. }
    apply tame_bind; [apply tame_lift|intros filename].
    { intros e. unfold compose_filename. destruct title; cbn; intros [= <-]; tame_side. }
    apply tame_bind; [apply tame_self_logger; tame_side|intros _].
    apply tame_bind; [apply tame_subprocess_run; tame_side|intros _].
    apply tame_bind; [apply tame_log; tame_side|intros _].
    apply tame_bind; [apply tame_os_path_exists|intros present].
    apply tame_bind; [|intros _; apply tame_log; tame_side].
    destruct present; [apply tame_process_recorded_file|apply tame_log; tame_side].
  - (* OFFLINE *)
    apply tame_bind; [apply tame_log; tame_side|intros _].
    apply tame_sleep. tame_side.
  - (* NOT_FOUND *)
    apply tame_bind; [apply tame_log; tame_side|intros _].
    apply tame_sleep. tame_side.
  - (* ERROR *)
    apply tame_bind; [apply tame_log; tame_side|intros _].
    apply tame_sleep. tame_side.
Qed.

End TameMethods.

(* --------------------------------------------------------------------- *)
(** ** check: the branches on the status *)
(* --------------------------------------------------------------------- *)

(** The branches with a sleep, for an interval that [time.sleep]
    accepts. *)
Lemma check_status_sleeps c recorded_path processed_path info st :
  0 <= refresh (self st) ->
  check_status c recorded_path processed_path OFFLINE info st
  = (Returned tt, st,
     [Log Logging.INFO "%s currently offline, checking again in %s seconds";
      Sleep (refresh (self st))])
  /\ check_status c recorded_path processed_path ERROR info st
     = (Returned tt, st,
        [Log Logging.ERROR "%s unexpected error. will try again in 5 minutes";
         Sleep 300])
  /\ check_status c recorded_path processed_path NOT_FOUND info st
     = (Returned tt, st,
        [Log Logging.ERROR "username not found, invalid username or typo";
         Sleep (refresh (self st))]).
Proof.
  intros Hr. apply Z.ltb_ge in Hr.
  unfold check_status. rewrite !bind_get_self. run_M. rewrite Hr.
  now repeat split.
Qed.


(* --------------------------------------------------------------------- *)
(** ** check: the lock *)
(* --------------------------------------------------------------------- *)

Lemma check_user_raises reply st e :
  result_of (check_user reply st) = Raised e -> e = KeyError \/ e = TypeError.
Proof.
  unfold check_user. destruct reply as [|r]; run_M; [discriminate|].
  destruct (Requests.raise_for_status_raises r); [discriminate|].
  destruct (Requests.body r) as [| | | | |kv]; cbn;
    try discriminate; try (intros [= <-]; tauto).
  destruct (dict_get _ kv) as [d|]; cbn; [|intros [= <-]; tauto].
  destruct (truthy d); discriminate.
Qed.

(** The body of the [with] statement: the status request, then the branch
    on its status. *)
Lemma check_locked_eq c recorded_path processed_path st :
  check_locked c recorded_path processed_path st
  = let poll := HttpGet (username (self st)) (access_token (self st)) in
    match result_of (check_user (status_reply c) st) with
    | Returned (status, info) =>
        let x := check_status c recorded_path processed_path status info st in
        (result_of x, state_of x, poll :: events_of x)
    | Raised e => (Raised e, st, [poll])
    end.
Proof.
  unfold check_locked, bind.
  pose proof (check_user_state (status_reply c) st) as Hs.
  pose proof (check_user_events (status_reply c) st) as He.
  unfold result_of, state_of, events_of in *.
  destruct (check_user (status_reply c) st) as [[[[status info]|e] s1] t1];
    cbn [fst snd] in *; subst; [|reflexivity].
  now destruct (check_status c recorded_path processed_path status info st)
    as [[r s2] t2].
Qed.

Lemma check_locked_never_LockTimeout c recorded_path processed_path st :
  result_of (check_locked c recorded_path processed_path st) <> Raised LockTimeout.
Proof.
  rewrite check_locked_eq. cbn zeta.
  destruct (result_of (check_user _ _)) as [[status info]|e] eqn:Hu.
  - change (result_of (check_status c recorded_path processed_path status info st)
            <> Raised LockTimeout).
    intros H.
    destruct (tame_check_status (fun _ => True) (fun _ _ _ _ => Logic.I)
                (fun _ _ _ => Logic.I) c recorded_path processed_path status info st Logic.I) as (_ & _ & HX).
    now apply (HX _ H).
  - apply check_user_raises in Hu. intros [= ->]. now destruct Hu.
Qed.

Lemma check_busy c recorded_path processed_path st :
  lock_free c = false ->
  check c recorded_path processed_path st
  = (Returned tt, st, [LockBusy (recorded_path ++ lit ".lock")]).
Proof. intros H. unfold check, with_FileLock. rewrite H. reflexivity. Qed.

Lemma check_free c recorded_path processed_path st :
  lock_free c = true ->
  check c recorded_path processed_path st
  = let lock := recorded_path ++ lit ".lock" in
    let x := check_locked c recorded_path processed_path st in
    (result_of x, state_of x, LockAcquired lock :: events_of x ++ [LockReleased lock]).
Proof.
  intros H. unfold check, with_FileLock. rewrite H.
  pose proof (check_locked_never_LockTimeout c recorded_path processed_path st) as Hn.
  run_M. destruct (check_locked _ _ _ _) as [[[[]|e] s1] t1]; cbn in *.
  - reflexivity.
  - destruct e; cbn; now rewrite ?app_nil_r.
Qed.

(* --------------------------------------------------------------------- *)
(** ** check: recording a live stream *)
(* --------------------------------------------------------------------- *)

Ltac case_lookup :=
  repeat (match goal with
          | |- context [match ?m !! ?k with _ => _ end] =>
              let E := fresh "E" in destruct (m !! k) eqn:E; cbn
          end).

Lemma M_eta {A} (m : M A) s : m s = (result_of (m s), state_of (m s), events_of (m s)).
Proof. unfold result_of, state_of, events_of. now destruct (m s) as [[r s1] t1]. Qed.

Lemma bind_emit {A} e (k : unit -> M A) s :
  bind (emit e) k s
  = (result_of (k tt s), state_of (k tt s), e :: events_of (k tt s)).
Proof. run_M. now destruct (k tt s) as [[r s1] t1]. Qed.

Lemma bind_ret {A B} (a : A) (k : A -> M B) s : bind (ret a) k s = k a s.
Proof. run_M. now destruct (k a s) as [[r s1] t1]. Qed.

Lemma bind_returned {A B} (m : M A) (k : A -> M B) s a :
  result_of (m s) = Returned a ->
  bind m k s
  = (result_of (k a (state_of (m s))), state_of (k a (state_of (m s))),
     events_of (m s) ++ events_of (k a (state_of (m s)))).
Proof.
  run_M. destruct (m s) as [[r s1] t1]; cbn. intros ->.
  now destruct (k a s1) as [[r2 s2] t2].
Qed.

Lemma bind_raised {A B} (m : M A) (k : A -> M B) s e :
  result_of (m s) = Raised e ->
  bind m k s = (Raised e, state_of (m s), events_of (m s)).
Proof. run_M. destruct (m s) as [[r s1] t1]; cbn. now intros ->. Qed.

Lemma ffmpeg_copy_and_fix_errors_returns run recorded processed st :
  result_of (ffmpeg_copy_and_fix_errors run recorded processed st) = Returned tt.
Proof.
  unfold ffmpeg_copy_and_fix_errors. rewrite ?bind_get_self. run_M.
  destruct run as [|code [w|]]; cbn; case_lookup; reflexivity.
Qed.

Lemma process_recorded_file_returns run recorded processed st :
  is_Some (files st !! recorded) ->
  result_of (process_recorded_file run recorded processed st) = Returned tt.
Proof.
  intros [content Hc]. unfold process_recorded_file.
  rewrite bind_get_self. destruct (disable_ffmpeg (self st)).
  - run_M. cbn. now rewrite Hc.
  - pose proof (ffmpeg_copy_and_fix_errors_returns run recorded processed st) as H.
    run_M. cbn.
    now destruct (ffmpeg_copy_and_fix_errors run recorded processed st) as [[r s2] t2].
Qed.

(** What follows the capture: repair the file if there is one. *)
Lemma after_capture_returns run recorded processed st :
  result_of
    ((let* present := os_path_exists recorded in
      (if present then process_recorded_file run recorded processed
       else log Logging.INFO "skip fixing, file not found") >>
      log Logging.INFO "processing is done, going back to checking...") st)
  = Returned tt.
Proof.
  rewrite bind_returned with (a := bool_decide (is_Some (files st !! recorded)))
    by reflexivity.
  change (state_of (os_path_exists recorded st)) with st.
  change (events_of (os_path_exists recorded st)) with (@nil event).
  cbn [result_of fst app].
  destruct (bool_decide (is_Some (files st !! recorded))) eqn:Hp.
  - apply bool_decide_eq_true in Hp.
    rewrite bind_returned with (a := tt)
      by now apply process_recorded_file_returns.
    reflexivity.
  - reflexivity.
Qed.

Lemma subprocess_run_launched e output run st :
  launches run = true ->
  exists code, result_of (subprocess_run e output run st) = Returned code
               /\ events_of (subprocess_run e output run st) = [e].
Proof.
  destruct run as [|code [w|]]; [discriminate|..]; intros _; exists code; now run_M.
Qed.

Lemma wp_bind_emit {A} e (k : unit -> M A) s Q :
  wp (k tt) s (fun r s' t => Q r s' (e :: t)) -> wp (bind (emit e) k) s Q.
Proof. unfold wp. now rewrite bind_emit. Qed.

Lemma wp_bind_get_self {A} (k : TwitchRecorder -> M A) s Q :
  wp (k (self s)) s Q -> wp (bind get_self k) s Q.
Proof. unfold wp. now rewrite bind_get_self. Qed.

Lemma bind_self_logger {A} lvl msg (k : unit -> M A) s :
  bind (self_logger lvl msg) k s
  = if has_logger (self s) then
      (result_of (k tt s), state_of (k tt s), Log lvl msg :: events_of (k tt s))
    else (Raised AttributeError, s, []).
Proof.
  unfold has_logger, self_logger. destruct (logger (self s)) eqn:Hl.
  - rewrite bind_returned with (a := tt); rewrite bind_get_self, Hl; reflexivity.
  - rewrite bind_raised with (e := AttributeError); rewrite bind_get_self, Hl;
      reflexivity.
Qed.

Lemma wp_bind_self_logger {A} lvl msg (k : unit -> M A) s Q :
  has_logger (self s) = true ->
  wp (k tt) s (fun r s' t => Q r s' (Log lvl msg :: t)) ->
  wp (bind (self_logger lvl msg) k) s Q.
Proof. intros Hl. unfold wp. now rewrite bind_self_logger, Hl. Qed.

Lemma wp_bind_ret {A B} (a : A) (k : A -> M B) s Q :
  wp (k a) s Q -> wp (bind (ret a) k) s Q.
Proof. unfold wp. now rewrite bind_ret. Qed.

Lemma wp_bind_returned {A B} (m : M A) (k : A -> M B) s a Q :
  result_of (m s) = Returned a ->
  wp (k a) (state_of (m s)) (fun r s' t => Q r s' (events_of (m s) ++ t)) ->
  wp (bind m k) s Q.
Proof. intros H. unfold wp. now rewrite (bind_returned m k s a H). Qed.

Lemma check_status_ONLINE_records c recorded_path processed_path info st
    entry more title raw :
  getitem info (lit "data") = inr (JArr (JObj entry :: more)) ->
  dict_get (lit "title") entry = Some (JStr title) ->
  compose_filename (username (self st)) (now c) (JStr title) = inr raw ->
  has_logger (self st) = true ->
  launches (streamlink_run c) = true ->
  wp (check_status c recorded_path processed_path ONLINE info) st
    (fun r _ t =>
       r = Returned tt
       /\ exists rest,
            t = Log Logging.INFO "%s online, stream recording in session"
                :: Log Logging.INFO "Recording user %s"
                :: Streamlink (username (self st)) (quality (self st))
                     (OsPath.join recorded_path (clean_filename raw))
                :: rest).
Proof.
  intros Hd Ht Hraw Hlog Hl. unfold check_status. apply wp_bind_get_self.
  apply wp_bind_emit. rewrite Hd. apply wp_bind_ret.
  apply wp_bind_ret. cbn [dot_get]. rewrite Ht. apply wp_bind_ret.
  rewrite Hraw. apply wp_bind_ret. apply wp_bind_self_logger; [exact Hlog|].
  destruct (subprocess_run_launched
              (Streamlink (username (self st)) (quality (self st))
                 (OsPath.join recorded_path (clean_filename raw)))
              (OsPath.join recorded_path (clean_filename raw))
              (streamlink_run c) st Hl) as (code & Hr & He).
  apply (wp_bind_returned _ _ _ code); [exact Hr|]. rewrite He.
  apply wp_bind_emit. unfold wp. split.
  - apply after_capture_returns.
  - eexists. reflexivity.
Qed.

(* --------------------------------------------------------------------- *)
(** ** check and loop_check: the shape of a cycle *)
(* --------------------------------------------------------------------- *)

(** [check] changes nothing but the token of the recorder object. *)
Lemma check_keeps (I : state -> Prop) c recorded_path processed_path st :
  (forall s s', self s' = self s -> I s -> I s') ->
  (forall s token, I s -> I (with_token token s)) ->
  I st -> I (state_of (check c recorded_path processed_path st)).
Proof.
  intros I_self I_token Hst. destruct (lock_free c) eqn:Hl.
  - rewrite (check_free _ _ _ _ Hl). cbn zeta. cbn [state_of fst snd].
    fold (@state_of unit). rewrite check_locked_eq. cbn zeta.
    destruct (result_of (check_user _ _)) as [[status info]|e]; [|assumption].
    cbn [state_of fst snd]. fold (@state_of unit).
    now destruct (tame_check_status I I_self I_token
                    c recorded_path processed_path status info st Hst) as (H & _).
  - now rewrite (check_busy _ _ _ _ Hl).
Qed.

Lemma check_keeps_refresh c recorded_path processed_path st :
  refresh (self (state_of (check c recorded_path processed_path st)))
  = refresh (self st).
Proof.
  apply (check_keeps (fun s => refresh (self s) = refresh (self st))).
  - intros s s' H. now rewrite H.
  - intros s token H. exact H.
  - reflexivity.
Qed.

(** One iteration of [loop_check]: the check, then, unless it raised, the
    sleep of the loop and the next iterations. *)
Lemma loop_check_cons c cs recorded_path processed_path st :
  0 <= refresh (self st) ->
  loop_check (c :: cs) recorded_path processed_path st
  = let x := check c recorded_path processed_path st in
    match result_of x with
    | Returned _ =>
        let y := loop_check cs recorded_path processed_path (state_of x) in
        (result_of y, state_of y,
         events_of x ++ Sleep (refresh (self st)) :: events_of y)
    | Raised e => (Raised e, state_of x, events_of x)
    end.
Proof.
  intros Hr. cbn [loop_check].
  pose proof (check_keeps_refresh c recorded_path processed_path st) as Hk.
  cbn zeta.
  destruct (result_of (check c recorded_path processed_path st)) as [[]|e] eqn:Hx.
  - rewrite (bind_returned _ _ _ tt Hx).
    set (s1 := state_of (check c recorded_path processed_path st)) in *.
    rewrite (bind_returned _ _ s1 tt).
    + rewrite bind_get_self. unfold sleep. rewrite Hk.
      apply Z.ltb_ge in Hr. rewrite Hr. reflexivity.
    + rewrite bind_get_self. unfold sleep. rewrite Hk.
      apply Z.ltb_ge in Hr. now rewrite Hr.
  - now rewrite (bind_raised _ _ _ e Hx).
Qed.

Lemma recordable_inv me data c :
  recordable me data c = true ->
  exists entry more title,
    data = JArr (JObj entry :: more)
    /\ dict_get (lit "title") entry = Some (JStr title)
    /\ has_logger me = true
    /\ launches (streamlink_run c) = true.
Proof.
  unfold recordable. destruct data as [| | | |[|[| | | | |entry] more]|]; try discriminate.
  destruct (dict_get _ entry) as [[| | |title| |]|] eqn:Ht; try discriminate.
  intros Hl. apply andb_prop in Hl. destruct Hl as (Hlog & Hl).
  now exists entry, more, title.
Qed.

(** The events of a check: the lock first, then the status request and
    the branch on the status, then the release; or the busy lock alone. *)
Lemma check_events_shape c recorded_path processed_path st :
  let lock := recorded_path ++ lit ".lock" in
  let poll := HttpGet (username (self st)) (access_token (self st)) in
  if lock_free c then
    exists branch,
      events_of (check c recorded_path processed_path st)
      = LockAcquired lock :: poll :: branch ++ [LockReleased lock]
      /\ Forall calm branch
  else
    check c recorded_path processed_path st = (Returned tt, st, [LockBusy lock]).
Proof.
  intros lock poll. destruct (lock_free c) eqn:Hl; [|now apply check_busy].
  rewrite (check_free _ _ _ _ Hl). cbn zeta. cbn [events_of snd].
  fold (@events_of unit). rewrite check_locked_eq. cbn zeta.
  destruct (result_of (check_user _ _)) as [[status info]|e] eqn:Hu.
  - exists (events_of (check_status c recorded_path processed_path status info st)).
    split; [reflexivity|].
    now destruct (tame_check_status (fun _ => True) (fun _ _ _ _ => Logic.I)
                    (fun _ _ _ => Logic.I) c recorded_path processed_path
                    status info st Logic.I) as (_ & H & _).
  - exists []. split; [reflexivity|constructor].
Qed.

(** C3 (amended): the lock is attempted at the start of every check,
    before the status request and whatever the status.  When it is
    obtained, the request and the branch on the status run while it is
    held (for a live stream with a title, on a recorder that has a logger,
    the capture is started), and it is released at the end.  When it is
    busy, the check is a no-op that returns normally without a status
    request, and [loop_check] goes on with its sleep of one interval and the
    next iteration. *)
Theorem check_lock_protocol c recorded_path processed_path st :
  let lock := recorded_path ++ lit ".lock" in
  let poll := HttpGet (username (self st)) (access_token (self st)) in
  if lock_free c then
    exists branch,
      events_of (check c recorded_path processed_path st)
      = LockAcquired lock :: poll :: branch ++ [LockReleased lock]
      /\ Forall calm branch
      /\ (forall info data,
            result_of (check_user (status_reply c) st) = Returned (ONLINE, info) ->
            getitem info (lit "data") = inr data ->
            recordable (self st) data c = true ->
            exists output,
              In (Streamlink (username (self st)) (quality (self st)) output) branch)
  else
    check c recorded_path processed_path st = (Returned tt, st, [LockBusy lock])
    /\ (0 <= refresh (self st) ->
        forall cs,
          let y := loop_check cs recorded_path processed_path st in
          loop_check (c :: cs) recorded_path processed_path st
          = (result_of y, state_of y,
             LockBusy lock :: Sleep (refresh (self st)) :: events_of y)).
Proof.
  intros lock poll. destruct (lock_free c) eqn:Hl.
  - rewrite (check_free _ _ _ _ Hl). cbn zeta. cbn [events_of snd].
    fold (@events_of unit). rewrite check_locked_eq. cbn zeta.
    destruct (result_of (check_user _ _)) as [[status info]|e] eqn:Hu.
    + exists (events_of (check_status c recorded_path processed_path status info st)).
      split; [reflexivity|]. split.
      * now destruct (tame_check_status (fun _ => True) (fun _ _ _ _ => Logic.I)
                        (fun _ _ _ => Logic.I) c recorded_path processed_path
                        status info st Logic.I) as (_ & H & _).
      * intros info' data [= -> <-] Hd Hrec.
        destruct (recordable_inv _ _ _ Hrec)
          as (entry & more & title & -> & Ht & Hlog & Hrun).
        destruct (check_status_ONLINE_records c recorded_path processed_path info st
                    entry more title _ Hd Ht eq_refl Hlog Hrun) as (_ & rest & Hrest).
        eexists. rewrite Hrest. right; right; left. reflexivity.
    + exists []. split; [reflexivity|]. split; [constructor|discriminate].
  - split; [now apply check_busy|]. intros Hr cs y.
    rewrite (loop_check_cons _ _ _ _ _ Hr). now rewrite (check_busy _ _ _ _ Hl).
Qed.

(** C3 (as stated, refuted): the poll of this cycle returns OFFLINE, and
    the lock was attempted, and obtained, before the status request. *)
Lemma lock_attempted_when_OFFLINE :
  let t := events_of (check Sample.offline Sample.recorded_path
                        Sample.processed_path Sample.start) in
  result_of (check_user (status_reply Sample.offline) Sample.start)
  = Returned (OFFLINE, Sample.offline_body)
  /\ lock_attempts t = 1%nat
  /\ firstn 2 t = [LockAcquired (lit "/data/recorded/bob.lock");
                   HttpGet (lit "bob") (lit "token-1")].
Proof. repeat split; vm_compute; reflexivity. Qed.

Lemma check_lock_protocol_witness :
  lock_free (Sample.busy_cycle (http 200 (Sample.online_body (lit "Ranked Play!"))))
  = false
  /\ check (Sample.busy_cycle (http 200 (Sample.online_body (lit "Ranked Play!"))))
       Sample.recorded_path Sample.processed_path Sample.start
     = (Returned tt, Sample.start, [LockBusy (Sample.recorded_path ++ lit ".lock")]).
Proof.
  split; [reflexivity|].
  exact (proj1 (check_lock_protocol
                  (Sample.busy_cycle (http 200 (Sample.online_body (lit "Ranked Play!"))))
                  Sample.recorded_path Sample.processed_path Sample.start)).
Defined.

(* --------------------------------------------------------------------- *)
(** ** check: the number of status requests *)
(* --------------------------------------------------------------------- *)

Lemma calm_polls t : Forall calm t -> polls t = 0%nat.
Proof.
  unfold polls. induction 1 as [|e t (He & _) _ IH]; [reflexivity|].
  cbn. now rewrite He.
Qed.

Lemma check_polls c recorded_path processed_path st :
  polls (events_of (check c recorded_path processed_path st))
  = (if lock_free c then 1 else 0)%nat.
Proof.
  pose proof (check_events_shape c recorded_path processed_path st) as H.
  cbn zeta in H. destruct (lock_free c).
  - destruct H as (branch & -> & Hcalm). unfold polls.
    cbn [List.filter is_poll length]. rewrite List.filter_app. cbn [List.filter is_poll].
    rewrite app_nil_r. f_equal. now apply calm_polls.
  - rewrite H. reflexivity.
Qed.

(* --------------------------------------------------------------------- *)
(** ** loop_check: which cycles end the loop *)
(* --------------------------------------------------------------------- *)

Lemma check_free_result c recorded_path processed_path st status info :
  lock_free c = true ->
  result_of (check_user (status_reply c) st) = Returned (status, info) ->
  result_of (check c recorded_path processed_path st)
  = result_of (check_status c recorded_path processed_path status info st).
Proof.
  intros Hl Hu. rewrite (check_free _ _ _ _ Hl). cbn zeta. cbn [result_of fst].
  fold (@result_of unit). rewrite check_locked_eq. cbn zeta. now rewrite Hu.
Qed.

Lemma benign_logger me me' c :
  has_logger me = has_logger me' -> benign me c = benign me' c.
Proof. intros H. unfold benign, recordable. now rewrite H. Qed.

Lemma check_keeps_logger c recorded_path processed_path st :
  has_logger (self (state_of (check c recorded_path processed_path st)))
  = has_logger (self st).
Proof.
  apply (check_keeps (fun s => has_logger (self s) = has_logger (self st))).
  - intros s s' H. now rewrite H.
  - intros s token H. exact H.
  - reflexivity.
Qed.

Lemma check_benign_returns c recorded_path processed_path st :
  0 <= refresh (self st) -> benign (self st) c = true ->
  result_of (check c recorded_path processed_path st) = Returned tt.
Proof.
  intros Hr Hb. destruct (lock_free c) eqn:Hl;
    [|now rewrite (check_busy _ _ _ _ Hl)].
  unfold benign in Hb. rewrite Hl in Hb. cbn [negb orb] in Hb.
  destruct (check_status_sleeps c recorded_path processed_path JNull st Hr)
    as (Hoff & Herr & _).
  destruct (check_user_rows st) as (R1 & R2 & R3 & R4).
  destruct (status_reply c) as [|r] eqn:Hreply.
  - rewrite (check_free_result _ _ _ _ ERROR JNull Hl) by now rewrite Hreply.
    now rewrite Herr.
  - destruct (Requests.raise_for_status_raises r) eqn:Hraise.
    + rewrite (check_free_result _ _ _ _ ERROR JNull Hl)
        by (rewrite Hreply; now apply R2).
      now rewrite Herr.
    + cbn [orb] in Hb. destruct (Requests.body r) as [| | | | |fields] eqn:Hbody;
        try discriminate.
      * rewrite (check_free_result _ _ _ _ OFFLINE JNull Hl)
          by (rewrite Hreply; now apply R3).
        now rewrite Hoff.
      * destruct (dict_get (lit "data") fields) as [data|] eqn:Hd; [|discriminate].
        rewrite (check_free_result _ _ _ _ (if truthy data then ONLINE else OFFLINE)
                   (JObj fields) Hl)
          by (rewrite Hreply; now apply (R4 r fields data)).
        destruct (truthy data); cbn [negb orb] in Hb.
        -- destruct (recordable_inv _ _ _ Hb)
             as (entry & more & title & -> & Ht & Hlog & Hrun).
           assert (Hg : getitem (JObj fields) (lit "data")
                        = inr (JArr (JObj entry :: more)))
             by (unfold getitem; now rewrite Hd).
           now destruct (check_status_ONLINE_records c recorded_path processed_path
                           (JObj fields) st entry more title _ Hg Ht eq_refl Hlog Hrun)
             as (H & _).
        -- destruct (check_status_sleeps c recorded_path processed_path
                       (JObj fields) st Hr) as (Hoff' & _).
           now rewrite Hoff'.
Qed.

Lemma check_lock_attempts c recorded_path processed_path st :
  lock_attempts (events_of (check c recorded_path processed_path st)) = 1%nat.
Proof.
  pose proof (check_events_shape c recorded_path processed_path st) as H.
  cbn zeta in H. destruct (lock_free c).
  - destruct H as (branch & -> & Hcalm). unfold lock_attempts.
    cbn [List.filter is_lock_attempt]. rewrite List.filter_app. cbn.
    replace (List.filter is_lock_attempt branch) with (@nil event); [reflexivity|].
    symmetry. induction Hcalm as [|e l (_ & He & _) _ IH]; [reflexivity|].
    cbn. now rewrite He.
  - rewrite H. reflexivity.
Qed.

Lemma lock_attempts_app t1 t2 :
  lock_attempts (t1 ++ t2) = (lock_attempts t1 + lock_attempts t2)%nat.
Proof. unfold lock_attempts. now rewrite List.filter_app, length_app. Qed.

Lemma loop_check_benign me cs recorded_path processed_path st :
  0 <= refresh (self st) -> has_logger (self st) = has_logger me ->
  Forall (fun c => benign me c = true) cs ->
  result_of (loop_check cs recorded_path processed_path st) = Returned tt
  /\ lock_attempts (events_of (loop_check cs recorded_path processed_path st))
     = length cs.
Proof.
  intros Hr Hlog Hcs. revert st Hr Hlog.
  induction Hcs as [|c cs Hc _ IH]; intros st Hr Hlog; [now split|].
  rewrite (loop_check_cons _ _ _ _ _ Hr). cbn zeta.
  rewrite (check_benign_returns c recorded_path processed_path st Hr)
    by now rewrite (benign_logger _ me c Hlog).
  cbn [result_of events_of fst snd]. fold (@result_of unit). fold (@events_of unit).
  destruct (IH (state_of (check c recorded_path processed_path st))) as (IH1 & IH2).
  { now rewrite check_keeps_refresh. }
  { now rewrite check_keeps_logger. }
  split; [exact IH1|].
  rewrite lock_attempts_app, (check_lock_attempts c recorded_path processed_path st).
  change (lock_attempts (Sleep ?d :: ?t)) with (lock_attempts t).
  now rewrite IH2.
Qed.

(* --------------------------------------------------------------------- *)
(** ** The scheduler *)
(* --------------------------------------------------------------------- *)

Module SchedulerFacts.
Import Scheduler.

Lemma count_alter {A} (P : A -> bool) (g : A -> A) (l : list A) i x :
  l !! i = Some x ->
  (length (List.filter P (alter g i l)) + Nat.b2n (P x)
   = length (List.filter P l) + Nat.b2n (P (g x)))%nat.
Proof.
  revert i. induction l as [|y l IH]; intros [|i] H; try discriminate.
  - injection H as ->. cbn. destruct (P x), (P (g x)); cbn; lia.
  - cbn in H. specialize (IH i H). cbn. destruct (P y); cbn; lia.
Qed.

Lemma count_by_index {A} (P : A -> bool) (l : list A) :
  length (List.filter P l)
  = length (List.filter
              (fun i => match l !! i with Some x => P x | None => false end)
              (seq 0 (length l))).
Proof.
  induction l as [|x l IH] using rev_ind; [reflexivity|].
  rewrite length_app, Nat.add_1_r, seq_S, !List.filter_app, !length_app.
  cbn [length List.filter Nat.add].
  rewrite list_lookup_middle by reflexivity.
  rewrite IH. f_equal; [|now destruct (P x)].
  f_equal. apply List.filter_ext_in.
  intros i Hi. apply in_seq in Hi. now rewrite lookup_app_l by lia.
Qed.

Lemma in_flight_by_index s :
  in_flight s = length (List.filter (pending_at s) (seq 0 (length (pool s)))).
Proof. unfold in_flight. now rewrite count_by_index. Qed.

(** Tracked unfinished futures are no more than the listed ones. *)
Lemma tracked_in_flight s :
  tracked s -> (in_flight s <= length (list_of_futures s))%nat.
Proof.
  intros Ht. rewrite in_flight_by_index. apply List.NoDup_incl_length.
  - apply List.NoDup_filter, seq_NoDup.
  - intros i Hi. apply filter_In in Hi. now apply Ht.
Qed.

Lemma in_list_remove i j l : In j l -> j <> i -> In j (list_remove i l).
Proof.
  induction l as [|y l IH]; [easy|]. intros [->|Hj] Hne; cbn.
  - destruct (Nat.eqb_spec i j); [congruence|now left].
  - destruct (Nat.eqb_spec i y); [assumption|right; now apply IH].
Qed.

Lemma pending_at_set_phase i p s j :
  pending_at (set_phase i p s) j
  = if decide (i = j) then
      match pool s !! j with
      | Some _ => match p with Finished _ => false | _ => true end
      | None => false
      end
    else pending_at s j.
Proof.
  unfold pending_at, set_phase. cbn [pool]. destruct (decide (i = j)) as [->|Hne].
  - rewrite list_lookup_alter_eq. destruct (pool s !! j); [|reflexivity].
    cbn. now destruct p.
  - now rewrite list_lookup_alter_ne.
Qed.

Lemma step_tracked s s' : step s s' -> tracked s -> tracked s'.
Proof.
  intros Hstep Ht. destruct Hstep as [s i f Hi Hq Hlt|s i f r Hi Hrun|s i f Hlen Hin Hi Hd|s text token Hlen].
  - intros j. rewrite pending_at_set_phase. destruct (decide (i = j)) as [<-|]; [|apply Ht].
    intros _. apply Ht. unfold pending_at, is_done. now rewrite Hi, Hq.
  - intros j. rewrite pending_at_set_phase. destruct (decide (i = j)) as [<-|]; [|apply Ht].
    rewrite Hi. discriminate.
  - intros j Hj. cbn. apply in_list_remove; [now apply Ht|].
    intros ->. unfold pending_at, forget in Hj. cbn [pool] in Hj.
    rewrite Hi, Hd in Hj. discriminate.
  - intros j Hj. unfold submit_batch, pending_at in *. cbn [pool list_of_futures] in *.
    apply in_app_iff.
    destruct (Nat.lt_ge_cases j (length (pool s))) as [Hlt|Hge].
    + left. apply Ht. unfold pending_at. now rewrite lookup_app_l in Hj.
    + right. apply in_seq. split; [assumption|].
      destruct (_ !! j) eqn:Hl; [|discriminate].
      apply lookup_lt_Some in Hl. now rewrite length_app, length_map in Hl.
Qed.

Lemma step_executing s s' :
  step s s' -> (executing s <= num_workers)%nat -> (executing s' <= num_workers)%nat.
Proof.
  intros Hstep He. destruct Hstep as [s i f Hi Hq Hlt|s i f r Hi Hrun|s i f Hlen Hin Hi Hd|s text token Hlen].
  - unfold executing, set_phase in *. cbn [pool].
    pose proof (count_alter is_running
                  (fun f => {| fut_username := fut_username f;
                               fut_token := fut_token f; fut_phase := Running |})
                  (pool s) i f Hi) as Hc.
    assert (Hf : is_running f = false) by (unfold is_running; now rewrite Hq).
    cbn beta in Hc. rewrite Hf in Hc. cbn [is_running fut_phase Nat.b2n] in Hc. lia.
  - unfold executing, set_phase in *. cbn [pool].
    pose proof (count_alter is_running
                  (fun f => {| fut_username := fut_username f;
                               fut_token := fut_token f; fut_phase := Finished r |})
                  (pool s) i f Hi) as Hc.
    assert (Hf : is_running f = true) by (unfold is_running; now rewrite Hrun).
    cbn beta in Hc. rewrite Hf in Hc. cbn [is_running fut_phase Nat.b2n] in Hc. lia.
  - exact He.
  - unfold executing, submit_batch in *. cbn [pool].
    rewrite List.filter_app, length_app.
    replace (List.filter is_running (map (new_future token) (twitch_usernames text)))
      with (@nil future); [cbn; lia|].
    induction (twitch_usernames text); [reflexivity|assumption].
Qed.

Lemma in_flight_submit_batch text token s :
  in_flight (submit_batch text token s)
  = (in_flight s + length (twitch_usernames text))%nat.
Proof.
  unfold in_flight, submit_batch. cbn [pool]. rewrite List.filter_app, length_app.
  f_equal. induction (twitch_usernames text) as [|u us IH]; [reflexivity|].
  cbn. now rewrite IH.
Qed.

Lemma reachable_invariants s :
  reachable s -> (executing s <= num_workers)%nat /\ tracked s.
Proof.
  unfold reachable. revert s. apply rtc_ind_r.
  - split; [cbn; lia|]. intros i. unfold pending_at. cbn. discriminate.
  - intros s s' _ Hstep (He & Ht). split.
    + eapply step_executing; eassumption.
    + eapply step_tracked; eassumption.
Qed.

End SchedulerFacts.

(** C8 (as stated, refuted): from the initial state the scheduler submits
    the five channels of the list at once; five units are then in flight,
    more than the four workers. *)
Lemma in_flight_exceeds_worker_cap :
  let s := Scheduler.submit_batch Sample.streamers (lit "token-1") Scheduler.initial in
  Scheduler.reachable s
  /\ Scheduler.in_flight s = 5%nat
  /\ (Scheduler.num_workers < Scheduler.in_flight s)%nat.
Proof.
  cbn zeta. split; [|split].
  - apply rtc_once. apply Scheduler.step_submit. cbn. unfold Scheduler.num_workers. lia.
  - vm_compute. reflexivity.
  - vm_compute. lia.
Qed.

(* --------------------------------------------------------------------- *)
(** ** The channel list *)
(* --------------------------------------------------------------------- *)

Lemma select_usernames_app l1 l2 :
  Scheduler.select_usernames (l1 ++ l2)
  = Scheduler.select_usernames l1 ++ Scheduler.select_usernames l2.
Proof. unfold Scheduler.select_usernames. now rewrite List.filter_app, map_app. Qed.

Lemma select_usernames_long lines user :
  In user (Scheduler.select_usernames lines) -> (1 < length user)%nat.
Proof.
  unfold Scheduler.select_usernames. intros H. apply in_map_iff in H.
  destruct H as (line & <- & Hl). apply filter_In in Hl. destruct Hl as (_ & Hl).
  now apply Nat.ltb_lt in Hl.
Qed.

(** C10: a line whose content without trailing whitespace has at most one
    character is skipped: the list of user names is the one of the file
    without that line.  Every recorder submitted for a batch has a user
    name of at least two characters. *)
Theorem short_lines_are_skipped before line after :
  (length (rstrip line) <= 1)%nat ->
  Scheduler.select_usernames (before ++ line :: after)
  = Scheduler.select_usernames (before ++ after)
  /\ (forall text token s f,
        In f (Scheduler.pool (Scheduler.submit_batch text token s)) ->
        In f (Scheduler.pool s) \/ (1 < length (Scheduler.fut_username f))%nat).
Proof.
  intros Hshort. split.
  - rewrite !select_usernames_app. f_equal.
    change (line :: after) with ([line] ++ after). rewrite select_usernames_app.
    unfold Scheduler.select_usernames at 1. cbn [List.filter].
    apply Nat.ltb_ge in Hshort. now rewrite Hshort.
  - intros text token s f Hf. unfold Scheduler.submit_batch in Hf.
    cbn [Scheduler.pool] in Hf. apply in_app_iff in Hf.
    destruct Hf as [Hf|Hf]; [now left|right].
    apply in_map_iff in Hf. destruct Hf as (user & <- & Hu).
    now apply select_usernames_long in Hu.
Qed.

Lemma short_lines_are_skipped_witness :
  (length (rstrip (lit "x" ++ [10%N])) <= 1)%nat
  /\ Scheduler.select_usernames
       ([lit "alice" ++ [10%N]] ++ (lit "x" ++ [10%N]) :: [lit "bob" ++ [10%N]])
     = Scheduler.select_usernames ([lit "alice" ++ [10%N]] ++ [lit "bob" ++ [10%N]]).
Proof.
  split; [vm_compute; lia|].
  apply (short_lines_are_skipped [lit "alice" ++ [10%N]] (lit "x" ++ [10%N])
           [lit "bob" ++ [10%N]]).
  vm_compute; lia.
Defined.

(* --------------------------------------------------------------------- *)
(** ** The cycles that raise *)
(* --------------------------------------------------------------------- *)

Lemma wp_bind_raise {A B} e (k : A -> M B) s (Q : result B -> state -> list event -> Prop) :
  Q (Raised e) s [] -> wp (bind (raise e) k) s Q.
Proof. unfold wp. now rewrite (bind_raised (raise e) k s e eq_refl). Qed.

(** A live stream that is not [recordable] makes the ONLINE branch
    raise. *)
Lemma check_status_ONLINE_raises c recorded_path processed_path info st data :
  getitem info (lit "data") = inr data ->
  truthy data = true -> recordable (self st) data c = false ->
  exists e,
    result_of (check_status c recorded_path processed_path ONLINE info st) = Raised e.
Proof.
  intros Hd Htruthy Hrec.
  change (wp (check_status c recorded_path processed_path ONLINE info) st
            (fun r _ _ => exists e, r = Raised e)).
  unfold check_status. apply wp_bind_get_self. apply wp_bind_emit. rewrite Hd.
  apply wp_bind_ret.
  destruct data as [|b|n|[|x s]|[|channel more]|[|[k v] fields]];
    try discriminate Htruthy;
    try (apply wp_bind_raise; now eexists);
    cbn [first_or_None lift]; apply wp_bind_ret;
    try (apply wp_bind_raise; now eexists).
  destruct channel as [| | | | |entry]; try (apply wp_bind_raise; now eexists).
  cbn [dot_get lift recordable] in *. apply wp_bind_ret.
  destruct (dict_get (lit "title") entry) as [[| | |title| |]|];
    try (apply wp_bind_raise; now eexists).
  cbn [compose_filename str_add lift]. apply wp_bind_ret.
  destruct (has_logger (self st)) eqn:Hlog.
  - apply wp_bind_self_logger; [exact Hlog|]. cbn [andb] in Hrec.
    destruct (streamlink_run c); [|discriminate].
    unfold subprocess_run. unfold wp.
    rewrite bind_raised with (e := FileNotFoundError); [now eexists|reflexivity].
  - unfold wp. rewrite bind_self_logger, Hlog. now eexists.
Qed.

(** [benign] is exact: in any other cycle [check] raises. *)
Lemma check_not_benign_raises c recorded_path processed_path st :
  benign (self st) c = false ->
  exists e, result_of (check c recorded_path processed_path st) = Raised e.
Proof.
  unfold benign. intros Hb. apply orb_false_elim in Hb. destruct Hb as (Hl & Hb).
  apply negb_false_iff in Hl.
  rewrite (check_free _ _ _ _ Hl). cbn zeta. cbn [result_of fst].
  fold (@result_of unit). rewrite check_locked_eq. cbn zeta.
  destruct (check_user_rows st) as (_ & _ & _ & R4).
  destruct (status_reply c) as [|r] eqn:Hreply; [discriminate|].
  apply orb_false_elim in Hb. destruct Hb as (Hraise & Hb).
  destruct (Requests.body r) as [|b|n|s|items|fields] eqn:Hbody; try discriminate;
    try (unfold check_user; run_M; rewrite Hraise, Hbody; cbn; now eexists).
  destruct (dict_get (lit "data") fields) as [data|] eqn:Hd.
  - apply orb_false_elim in Hb. destruct Hb as (Ht & Hrec).
    apply negb_false_iff in Ht.
    rewrite (R4 r fields data Hraise Hbody Hd), Ht. cbn [result_of fst].
    fold (@result_of unit).
    apply (check_status_ONLINE_raises c recorded_path processed_path (JObj fields)
             st data); [|assumption|assumption].
    unfold getitem. now rewrite Hd.
  - unfold check_user. run_M. rewrite Hraise, Hbody. cbn. rewrite Hd. cbn.
    now eexists.
Qed.

(** In single-target mode [main] builds the recorder without logger: the
    first poll that finds the channel live makes [check] raise, at
    [self.logger.info], before the capture is started. *)
Lemma live_stream_without_logger_raises :
  let x := check (Sample.cycle_with (http 200 (Sample.online_body (lit "Ranked Play!"))))
             Sample.recorded_path Sample.processed_path Sample.start in
  result_of x = Raised AttributeError
  /\ List.filter (fun e => match e with Streamlink _ _ _ => true | _ => false end)
       (events_of x) = [].
Proof. split; vm_compute; reflexivity. Qed.

(* --------------------------------------------------------------------- *)
(** ** Failures of a cycle *)
(* --------------------------------------------------------------------- *)

(** A check that raises ends [loop_check] with its exception. *)
Lemma loop_check_raised c cs recorded_path processed_path st e :
  result_of (check c recorded_path processed_path st) = Raised e ->
  loop_check (c :: cs) recorded_path processed_path st
  = (Raised e, state_of (check c recorded_path processed_path st),
     events_of (check c recorded_path processed_path st)).
Proof. intros H. cbn [loop_check]. now rewrite (bind_raised _ _ _ e H). Qed.

(** C4 (as stated, refuted): a live stream whose entry has no title makes
    [check] raise TypeError; [loop_check] ends with it at the first cycle,
    and the second cycle is never polled. *)
Lemma untitled_stream_ends_loop_check :
  let x := loop_check [Sample.untitled; Sample.offline]
             Sample.recorded_path Sample.processed_path Sample.start in
  result_of x = Raised TypeError /\ polls (events_of x) = 1%nat.
Proof. split; vm_compute; reflexivity. Qed.

(* --------------------------------------------------------------------- *)
(** ** The repair step *)
(* --------------------------------------------------------------------- *)

Lemma ffmpeg_launch_failure recorded processed st :
  ffmpeg_copy_and_fix_errors Subprocess.LaunchFailure recorded processed st
  = (Returned tt, st,
     [Ffmpeg (ffmpeg_path (self st)) recorded processed;
      Log Logging.ERROR "(the exception)"]).
Proof. reflexivity. Qed.

(** Once ffmpeg has run, the input is removed whatever its return code and
    whether or not it has written its output. *)
Lemma ffmpeg_exit_removes_input code written recorded processed st :
  files (state_of (ffmpeg_copy_and_fix_errors (Subprocess.Exited code written)
                     recorded processed st)) !! recorded = None.
Proof.
  unfold ffmpeg_copy_and_fix_errors. run_M.
  destruct written as [w|]; cbn; case_lookup; cbn;
    try assumption; apply lookup_delete_eq.
Qed.

(* --------------------------------------------------------------------- *)
(** ** The file name of a recording *)
(* --------------------------------------------------------------------- *)

Lemma in_ranges_app t1 t2 c : in_ranges (t1 ++ t2) c = in_ranges t1 c || in_ranges t2 c.
Proof. unfold in_ranges. apply existsb_app. Qed.

Lemma in_ranges_above tbl c bound :
  forallb (fun r => (bound <=? fst r)%N) tbl = true -> (c < bound)%N ->
  in_ranges tbl c = false.
Proof.
  intros Htbl Hc. unfold in_ranges. induction tbl as [|[lo hi] tbl IH]; [reflexivity|].
  cbn [forallb existsb fst snd] in *. apply andb_prop in Htbl.
  destruct Htbl as (Hlo & Htbl).
  rewrite (IH Htbl), orb_false_r. apply N.leb_le in Hlo.
  apply andb_false_intro1. apply N.leb_gt. lia.
Qed.

(** Below 128 the alphanumeric characters are the ASCII digits and
    letters. *)
Lemma isalnum_ascii c :
  (c < 128)%N ->
  isalnum c = ((48 <=? c) && (c <=? 57) || (65 <=? c) && (c <=? 90)
               || (97 <=? c) && (c <=? 122))%N.
Proof.
  intros Hc. unfold isalnum.
  rewrite <- (firstn_skipn 3 alnum_ranges), in_ranges_app.
  rewrite (in_ranges_above (skipn 3 alnum_ranges) c 128); [|now vm_compute|assumption].
  replace (firstn 3 alnum_ranges) with [(48, 57); (65, 90); (97, 122)]%N
    by (vm_compute; reflexivity).
  cbn. now rewrite !orb_false_r, !orb_assoc.
Qed.

Lemma keeps_ascii c : (c < 128)%N -> keeps c = ascii_safe c.
Proof.
  intros Hc. unfold keeps, ascii_safe. rewrite (isalnum_ascii c Hc).
  replace (bool_decide (c ∈ lit " " ++ lit "-" ++ lit "_" ++ lit "."))
    with ((c =? 32) || (c =? 45) || (c =? 95) || (c =? 46))%N.
  - now rewrite !orb_assoc.
  - change (lit " " ++ lit "-" ++ lit "_" ++ lit ".") with [32; 45; 95; 46]%N.
    symmetry. destruct (bool_decide _) eqn:Hd.
    + apply bool_decide_eq_true in Hd. rewrite !elem_of_cons in Hd.
      destruct Hd as [->|[->|[->|[->|Hd]]]]; try reflexivity.
      now apply elem_of_nil in Hd.
    + apply bool_decide_eq_false in Hd. rewrite !elem_of_cons in Hd.
      symmetry.
      repeat (apply orb_false_intro); apply N.eqb_neq; intros ->; apply Hd; tauto.
Qed.

Lemma decimal_from_digits fuel n acc :
  Forall (fun x => (x < 128)%N) acc ->
  Forall (fun x => (x < 128)%N) (decimal_from fuel n acc).
Proof.
  revert n acc. induction fuel as [|fuel IH]; intros n acc Hacc; [assumption|].
  cbn [decimal_from].
  assert (Forall (fun x => (x < 128)%N) ((48 + n mod 10)%N :: acc)).
  { constructor; [|assumption]. pose proof (N.mod_upper_bound n 10). lia. }
  destruct (n <? 10)%N; [assumption|now apply IH].
Qed.

Lemma zero_padded_ascii w n : Forall (fun x => (x < 128)%N) (zero_padded w n).
Proof.
  unfold zero_padded, decimal. apply Forall_app. split.
  - apply Forall_forall. intros x Hx. apply list_elem_of_In, repeat_spec in Hx.
    subst. lia.
  - apply decimal_from_digits. constructor.
Qed.

Ltac lit_ascii := unfold lit; cbn; repeat (constructor; [reflexivity|]); constructor.

Lemma strftime_ascii t : Forall (fun x => (x < 128)%N) (strftime_date_time t).
Proof.
  unfold strftime_date_time.
  repeat (apply Forall_app; split; [first [apply zero_padded_ascii|lit_ascii]|]).
  lit_ascii.
Qed.

(** C6 (amended): a character of the cleaned file name is one of
    A-Z, a-z, 0-9, space, '-', '_', '.', or a non-ASCII character that
    [str.isalnum] accepts (letters and digits of other scripts in the
    channel name or the title are kept).  When the channel name and the
    title are ASCII, only the characters of the first kind remain.
    Channel "bob" with title "Ranked Play!" at 2024-01-02 03:04:05 gives
    "bob - 2024-01-02 03h04m05s - Ranked Play.mp4". *)
Theorem clean_filename_characters user t title :
  exists raw,
    compose_filename user t (JStr title) = inr raw
    /\ (forall x, In x (clean_filename raw) ->
          ascii_safe x = true \/ ((128 <= x)%N /\ isalnum x = true))
    /\ (Forall (fun x => (x < 128)%N) (user ++ title) ->
        Forall (fun x => ascii_safe x = true) (clean_filename raw))
    /\ (user = lit "bob" -> t = Sample.jan2 -> title = lit "Ranked Play!" ->
        clean_filename raw = lit "bob - 2024-01-02 03h04m05s - Ranked Play.mp4").
Proof.
  eexists. split; [reflexivity|]. split; [|split].
  - intros x Hx. apply filter_In in Hx. destruct Hx as (_ & Hk).
    destruct (N.lt_ge_cases x 128) as [Hlt|Hge].
    + left. now rewrite <- (keeps_ascii x Hlt).
    + right. split; [assumption|]. unfold keeps in Hk.
      apply orb_true_iff in Hk. destruct Hk as [Hk|Hk]; [assumption|].
      apply bool_decide_eq_true in Hk.
      change (lit " " ++ lit "-" ++ lit "_" ++ lit ".") with [32; 45; 95; 46]%N in Hk.
      rewrite !elem_of_cons in Hk.
      destruct Hk as [->|[->|[->|[->|Hk]]]]; try lia. now apply elem_of_nil in Hk.
  - intros Hascii. apply Forall_app in Hascii. destruct Hascii as (Hu & Ht).
    apply List.Forall_forall. intros x Hx. apply filter_In in Hx.
    destruct Hx as (Hx & Hk). rewrite <- keeps_ascii; [assumption|].
    revert x Hx Hk.
    enough (Hraw : Forall (fun x => (x < 128)%N)
                     (((user ++ lit " - " ++ strftime_date_time t ++ lit " - ")
                         ++ title) ++ lit ".mp4")).
    { intros x Hx _. rewrite List.Forall_forall in Hraw. now apply Hraw. }
    apply Forall_app; split; [|lit_ascii].
    apply Forall_app; split; [|assumption].
    apply Forall_app; split; [assumption|].
    apply Forall_app; split; [lit_ascii|].
    apply Forall_app; split; [apply strftime_ascii|lit_ascii].
  - intros -> -> ->. vm_compute. reflexivity.
Qed.

(** C6 (as stated, refuted): the title "café" keeps its "é" (U+00E9),
    which is none of A-Z, a-z, 0-9, space, '-', '_', '.'. *)
Lemma accented_title_is_kept :
  exists raw,
    compose_filename (lit "bob") Sample.jan2 (JStr (lit "caf" ++ [233%N])) = inr raw
    /\ In 233%N (clean_filename raw)
    /\ ascii_safe 233 = false
    /\ ~ Forall (fun x => ascii_safe x = true) (clean_filename raw).
Proof.
  eexists. split; [reflexivity|].
  assert (H : In 233%N (clean_filename
                          (((lit "bob" ++ lit " - " ++ strftime_date_time Sample.jan2
                               ++ lit " - ") ++ lit "caf" ++ [233%N]) ++ lit ".mp4"))).
  { vm_compute. tauto. }
  split; [exact H|]. split; [reflexivity|].
  intros Hall. rewrite List.Forall_forall in Hall. specialize (Hall _ H). discriminate.
Qed.

(* --------------------------------------------------------------------- *)
(** ** The interval between two status requests *)
(* --------------------------------------------------------------------- *)

(** C7 (the code at the failing input): with the interval at 15 seconds
    and two polls that find the channel offline, [run] sleeps 15 seconds
    in [check] and 15 more in [loop_check] after each of them: the second
    status request comes 30 seconds after the first.  The files of the
    recorded and processed directories are not touched (the lock file is
    not among [files]: the lock shows in the events). *)
Theorem offline_poll_waits_two_intervals :
  let x := run false (fun _ => Subprocess.LaunchFailure)
             Sample.offline [Sample.offline] Sample.start in
  refresh (self Sample.start) = 15
  /\ polls (events_of x) = 2%nat
  /\ List.filter is_sleep (events_of x) = [Sleep 15; Sleep 15; Sleep 15; Sleep 15]
  /\ poll_gaps (events_of x) = [30]
  /\ files (state_of x) = files Sample.start.
Proof. repeat split; vm_compute; reflexivity. Qed.

Lemma gaps_calm t1 since :
  Forall calm t1 ->
  exists since',
    (forall bound, slept_at_least bound since -> slept_at_least bound since')
    /\ forall t2, gaps_from since (t1 ++ t2) = gaps_from since' t2.
Proof.
  intros H. revert since. induction H as [|e t1 (Hp & _ & Hs) _ IH]; intros since.
  - exists since. now split.
  - destruct e; try discriminate Hp;
      try (destruct (IH since) as (since' & Hm & Hg); exists since'; now split).
    destruct (IH (option_map (Z.add secs) since)) as (since' & Hm & Hg).
    exists since'. split; [|exact Hg].
    intros bound Hb. apply Hm. destruct since as [d|]; cbn in *; lia.
Qed.

(** The status requests of one check: at most one, after which the time
    slept restarts from zero. *)
Lemma check_gaps c recorded_path processed_path st since :
  slept_at_least 15 since ->
  exists pre since',
    Forall (fun gap => 15 <= gap) pre /\ slept_at_least 0 since'
    /\ forall rest,
         gaps_from since (events_of (check c recorded_path processed_path st) ++ rest)
         = pre ++ gaps_from since' rest.
Proof.
  intros Hs. pose proof (check_events_shape c recorded_path processed_path st) as H.
  cbn zeta in H. destruct (lock_free c).
  - destruct H as (branch & -> & Hcalm).
    destruct (gaps_calm (branch ++ [LockReleased (recorded_path ++ lit ".lock")])
                (Some 0)) as (since' & Hm & Hg).
    { apply Forall_app. split; [assumption|]. now repeat constructor. }
    exists (match since with Some d => [d] | None => [] end), since'.
    split; [destruct since; now repeat constructor|].
    split; [apply Hm; cbn; lia|].
    intros rest. cbn [app gaps_from]. rewrite <- Hg.
    now destruct since.
  - rewrite H. exists [], since. split; [constructor|].
    split; [destruct since; cbn in *; lia|]. reflexivity.
Qed.

Lemma loop_check_gaps cs recorded_path processed_path st since :
  15 <= refresh (self st) -> slept_at_least 15 since ->
  Forall (fun gap => 15 <= gap)
    (gaps_from since (events_of (loop_check cs recorded_path processed_path st))).
Proof.
  revert st since. induction cs as [|c cs IH]; intros st since Hr Hs; [constructor|].
  rewrite loop_check_cons by lia. cbn zeta.
  destruct (check_gaps c recorded_path processed_path st since Hs)
    as (pre & since' & Hpre & Hs' & Hg).
  destruct (result_of (check c recorded_path processed_path st)) as [[]|e].
  - cbn [events_of snd]. fold (@events_of unit). rewrite Hg.
    apply Forall_app. split; [assumption|]. cbn [gaps_from]. apply IH.
    + now rewrite check_keeps_refresh.
    + destruct since' as [d|]; cbn in *; lia.
  - cbn [events_of snd]. fold (@events_of unit).
    rewrite <- (app_nil_r (events_of _)), Hg. cbn [gaps_from]. now rewrite app_nil_r.
Qed.

(* --------------------------------------------------------------------- *)
(** ** run *)
(* --------------------------------------------------------------------- *)

Lemma wp_bind {A B} (m : M A) (k : A -> M B) s Q :
  wp m s (fun r s1 t1 =>
            match r with
            | Returned a => wp (k a) s1 (fun r2 s2 t2 => Q r2 s2 (t1 ++ t2))
            | Raised e => Q (Raised e) s1 t1
            end) ->
  wp (bind m k) s Q.
Proof.
  unfold wp. destruct (result_of (m s)) as [a|e] eqn:Hr.
  - now rewrite (bind_returned m k s a Hr).
  - now rewrite (bind_raised m k s e Hr).
Qed.

Lemma wp_tame {A} (I : state -> Prop) E X (m : M A) s :
  tame I E X m -> I s ->
  wp m s (fun r s' t => I s' /\ Forall E t /\ forall e, r = Raised e -> X e).
Proof. intros Hm Hs. exact (Hm s Hs). Qed.

Lemma wp_mono {A} (m : M A) s (Q Q' : result A -> state -> list event -> Prop) :
  wp m s Q -> (forall r s' t, Q r s' t -> Q' r s' t) -> wp m s Q'.
Proof. unfold wp. intros H HQ. now apply HQ. Qed.

(** A method that raises nothing, followed by the rest. *)
Lemma wp_bind_tame {B} (I : state -> Prop) E (m : M unit) (k : unit -> M B) s Q :
  tame I E (fun _ => False) m -> I s ->
  (forall s1 t1, I s1 -> Forall E t1 ->
                 wp (k tt) s1 (fun r s2 t2 => Q r s2 (t1 ++ t2))) ->
  wp (bind m k) s Q.
Proof.
  intros Hm Hs Hk. apply wp_bind. apply (wp_mono _ _ _ _ (wp_tame I E _ m s Hm Hs)).
  intros [[]|e] s1 t1 (H1 & H2 & H3); [now apply Hk|].
  now destruct (H3 e eq_refl).
Qed.

Lemma tame_weaken {A} (I : state -> Prop) E (X X' : exn -> Prop) (m : M A) :
  tame I E X m -> (forall e, X e -> X' e) -> tame I E X' m.
Proof.
  intros Hm HX s Hs. destruct (Hm s Hs) as (H1 & H2 & H3).
  repeat split; try assumption. intros e He. now apply HX, H3.
Qed.

Section RunPrepare.

Context (I : state -> Prop).
Hypothesis I_self : forall s s', self s' = self s -> I s -> I s'.

Lemma tame_process_previous repair recorded_path processed_path video_list :
  tame I calm (fun _ => True)
    (process_previous repair recorded_path processed_path video_list).
Proof.
  induction video_list as [|f rest IH]; cbn [process_previous].
  - apply tame_ret.
  - apply tame_bind; [|intros _; exact IH].
    eapply tame_weaken; [now apply tame_process_recorded_file|easy].
Qed.

(** The processing of the files of a previous session: whatever is
    raised is caught and logged. *)
Lemma tame_previous_session repair recorded_path processed_path :
  tame I calm (fun _ => False)
    (try_except
       (let* fs := get_files in
        let video_list := listdir_files recorded_path fs in
        (if (0 <? length video_list)%nat then
           self_logger Logging.INFO "processing previously recorded files"
         else ret tt) >>
        process_previous repair recorded_path processed_path video_list)
       (fun e => log Logging.ERROR "(the exception)")).
Proof.
  apply tame_try_except; [|intros e; apply tame_log; tame_side].
  apply tame_bind; [apply tame_get_files|intros fs]. cbn zeta.
  apply tame_bind; [|intros _; apply tame_process_previous].
  destruct (0 <? length _)%nat; [apply tame_self_logger; tame_side|apply tame_ret].
Qed.

End RunPrepare.


(** [run], before it polls: no status request is made.  It returns with
    the interval at the configured value, or at 15 if that was lower;
    unless the interval is lower than 15 and the recorder has no logger:
    [self.logger.warning] then raises AttributeError and the interval is
    left as it was. *)
Lemma run_prepare_spec repair st :
  wp (run_prepare repair) st
    (fun r s' t =>
       Forall calm t
       /\ has_logger (self s') = has_logger (self st)
       /\ if (refresh (self st) <? 15) && negb (has_logger (self st))
          then r = Raised AttributeError /\ refresh (self s') = refresh (self st)
          else r = Returned tt /\ refresh (self s') = Z.max 15 (refresh (self st))).
Proof.
  unfold run_prepare. apply wp_bind_get_self.
  set (keeps_self := fun s : state => self s = self st).
  assert (Hkeep : forall s s', self s' = self s -> keeps_self s -> keeps_self s')
    by (unfold keeps_self; congruence).
  apply (wp_bind_tame keeps_self calm); [|reflexivity|].
  { apply tame_makedirs; [exact Hkeep|tame_side]. }
  intros s1 t1 Hs1 Ht1.
  apply (wp_bind_tame keeps_self calm); [|exact Hs1|].
  { apply tame_makedirs; [exact Hkeep|tame_side]. }
  intros s2 t2 Hs2 Ht2.
  set (clamped := fun s : state =>
                    refresh (self s) = Z.max 15 (refresh (self st))
                    /\ has_logger (self s) = has_logger (self st)).
  assert (Hclamped : forall s s', self s' = self s -> clamped s -> clamped s')
    by (unfold clamped; intros s s' ->; tauto).
  apply wp_bind.
  assert (Hclamp :
    wp (if refresh (self st) <? 15 then
          self_logger Logging.WARNING
            "check interval should not be lower than 15 seconds" >>
          set_self (with_refresh 15 (self st)) >>
          self_logger Logging.INFO "system set check interval to 15 seconds"
        else ret tt) s2
      (fun r s3 t3 =>
         Forall calm t3
         /\ if (refresh (self st) <? 15) && negb (has_logger (self st))
            then r = Raised AttributeError /\ self s3 = self st
            else r = Returned tt /\ clamped s3)).
  { unfold wp, clamped, self_logger, has_logger. unfold keeps_self in Hs2.
    destruct (refresh (self st) <? 15) eqn:Hlt.
    - apply Z.ltb_lt in Hlt. run_M. rewrite Hs2.
      destruct (logger (self st)) eqn:Hlog; cbn.
      + rewrite Hlog. cbn. rewrite Hlog. repeat split; [repeat constructor|lia].
      + repeat split; [constructor|assumption].
    - apply Z.ltb_ge in Hlt. cbn. rewrite Hs2.
      repeat split; [constructor|lia]. }
  apply (wp_mono _ _ _ _ Hclamp). intros r s3 t3 (Ht3 & Hcase).
  destruct ((refresh (self st) <? 15) && negb (has_logger (self st))) eqn:Hcond.
  - destruct Hcase as (-> & Hs3). rewrite Hs3.
    repeat split. repeat (apply Forall_app; split); assumption.
  - destruct Hcase as (-> & Hs3).
    apply (wp_mono _ _ _ _
             (wp_tame clamped calm (fun _ => False) _ s3
                (tame_previous_session clamped Hclamped repair
                   (recorded_dir (self st)) (processed_dir (self st))) Hs3)).
    intros [[]|e] s4 t4 ((Hr4 & Hl4) & Ht4 & HX); [|now destruct (HX e eq_refl)].
    repeat split; try assumption.
    repeat (apply Forall_app; split); assumption.
Qed.


Lemma loop_check_keeps_refresh cs recorded_path processed_path st :
  0 <= refresh (self st) ->
  refresh (self (state_of (loop_check cs recorded_path processed_path st)))
  = refresh (self st).
Proof.
  revert st. induction cs as [|c cs IH]; intros st Hr; [reflexivity|].
  rewrite (loop_check_cons _ _ _ _ _ Hr). cbn zeta.
  pose proof (check_keeps_refresh c recorded_path processed_path st) as Hk.
  destruct (result_of (check c recorded_path processed_path st)) as [[]|e].
  - cbn [state_of fst snd]. fold (@state_of unit). rewrite IH; [exact Hk|lia].
  - exact Hk.
Qed.

(** [run] as its preparation followed by the polling. *)
Lemma run_eq once repair c cs st :
  run once repair c cs st
  = let p := run_prepare repair st in
    let recorded_path := recorded_dir (self st) in
    let processed_path := processed_dir (self st) in
    match result_of p with
    | Raised e => (Raised e, state_of p, events_of p)
    | Returned _ =>
        if once then
          if has_logger (self st) then
            let y := check c recorded_path processed_path (state_of p) in
            (result_of y, state_of y,
             events_of p
               ++ Log Logging.DEBUG "checking for %s, recording with %s quality"
               :: events_of y)
          else (Raised AttributeError, state_of p, events_of p)
        else
          let y := loop_check (c :: cs) recorded_path processed_path (state_of p) in
          (result_of y, state_of y,
           events_of p
             ++ Log Logging.INFO
                  "checking for %s every %s seconds, recording with %s quality"
             :: events_of y)
    end.
Proof.
  unfold run. rewrite bind_get_self. cbn zeta.
  destruct (run_prepare_spec repair st) as (_ & Hlog & _).
  destruct (result_of (run_prepare repair st)) as [[]|e] eqn:Hr.
  - rewrite (bind_returned _ _ _ tt Hr). destruct once.
    + rewrite bind_self_logger, Hlog. destruct (has_logger (self st)).
      * reflexivity.
      * cbn [result_of state_of events_of fst snd]. now rewrite app_nil_r.
    + unfold log. rewrite bind_emit. reflexivity.
  - now rewrite (bind_raised _ _ _ e Hr).
Qed.


(* ===================================================================== *)
(** * Theorems: whole runs *)
(* ===================================================================== *)

(* --------------------------------------------------------------------- *)
(** ** What a run may do: events and the recorder object *)
(* --------------------------------------------------------------------- *)

Section QuietOps.

(** An invariant on the recorder object, and a class of events that holds
    the log entries, the sleeps and the repair process. *)
Context (I : state -> Prop) (E : event -> Prop).
Hypothesis I_self : forall s s', self s' = self s -> I s -> I s'.
Hypothesis E_log : forall lvl msg, E (Log lvl msg).
Hypothesis E_sleep : forall d, E (Sleep d).
Hypothesis E_ffmpeg : forall p i o, E (Ffmpeg p i o).

Lemma quiet_sleep d : tame I E (fun _ => True) (sleep d).
Proof.
  unfold sleep. destruct (d <? 0); [now apply tame_raise|apply tame_emit, E_sleep].
Qed.

Lemma quiet_os_remove path : tame I E (fun _ => True) (os_remove path).
Proof. unfold os_remove. repeat tame_step; exact Logic.I. Qed.

Lemma quiet_shutil_move src dst : tame I E (fun _ => True) (shutil_move src dst).
Proof. unfold shutil_move. repeat tame_step; exact Logic.I. Qed.

Lemma quiet_os_path_exists path : tame I E (fun _ => True) (os_path_exists path).
Proof. unfold os_path_exists. repeat tame_step. Qed.

Lemma quiet_subprocess_run e output run :
  E e -> tame I E (fun _ => True) (subprocess_run e output run).
Proof.
  intros He. unfold subprocess_run.
  apply tame_bind; [now apply tame_emit|intros _].
  destruct run as [|code [content|]]; [now apply tame_raise| |apply tame_ret].
  repeat tame_step.
Qed.

Lemma quiet_ffmpeg_copy_and_fix_errors run recorded processed :
  tame I E (fun _ => True) (ffmpeg_copy_and_fix_errors run recorded processed).
Proof.
  unfold ffmpeg_copy_and_fix_errors.
  apply tame_try_except; [|intros e; apply tame_log, E_log].
  apply tame_bind; [apply tame_get_self|intros me].
  apply tame_bind; [|intros _; apply quiet_os_remove].
  apply quiet_subprocess_run, E_ffmpeg.
Qed.

Lemma quiet_process_recorded_file run recorded processed :
  tame I E (fun _ => True) (process_recorded_file run recorded processed).
Proof.
  unfold process_recorded_file.
  apply tame_bind; [apply tame_get_self|intros me].
  destruct (disable_ffmpeg me).
  - apply tame_bind; [apply tame_log, E_log|intros _]. apply quiet_shutil_move.
  - apply tame_bind; [apply tame_log, E_log|intros _].
    apply quiet_ffmpeg_copy_and_fix_errors.
Qed.

Lemma quiet_process_previous repair recorded_path processed_path video_list :
  tame I E (fun _ => True)
    (process_previous repair recorded_path processed_path video_list).
Proof.
  induction video_list as [|f rest IH]; cbn [process_previous].
  - apply tame_ret.
  - apply tame_bind; [apply quiet_process_recorded_file|intros _; exact IH].
Qed.

(** The capture and what follows it in the ONLINE branch of [check]. *)
Lemma quiet_capture e c recorded processed :
  E e ->
  tame I E (fun _ => True)
    (let* _ := subprocess_run e recorded (streamlink_run c) in
     log Logging.INFO "recording stream is done, processing video file" >>
     let* present := os_path_exists recorded in
     (if present then process_recorded_file (ffmpeg_run c) recorded processed
      else log Logging.INFO "skip fixing, file not found") >>
     log Logging.INFO "processing is done, going back to checking...").
Proof.
  intros He.
  apply tame_bind; [now apply quiet_subprocess_run|intros _].
  apply tame_bind; [apply tame_log, E_log|intros _].
  apply tame_bind; [apply quiet_os_path_exists|intros present].
  apply tame_bind; [|intros _; apply tame_log, E_log].
  destruct present; [apply quiet_process_recorded_file|apply tame_log, E_log].
Qed.

End QuietOps.

Section Quiet.

(** An invariant on the recorder object that a change of the interval
    keeps; a class of events that holds the routine ones (log entries,
    sleeps, the lock, the directories), the status requests made with the
    recorder's own name and token, and, for a recorder that has a logger,
    the capture and repair processes. *)
Context (I : state -> Prop) (E : event -> Prop).
Hypothesis I_self : forall s s', self s' = self s -> I s -> I s'.
Hypothesis I_refresh : forall s secs, I s -> I (with_interval secs s).
Hypothesis E_log : forall lvl msg, E (Log lvl msg).
Hypothesis E_sleep : forall d, E (Sleep d).
Hypothesis E_lock :
  forall f, E (LockAcquired f) /\ E (LockBusy f) /\ E (LockReleased f).
Hypothesis E_makedirs : forall p, E (Makedirs p).
Hypothesis E_poll :
  forall s, I s -> E (HttpGet (username (self s)) (access_token (self s))).
Hypothesis E_logged :
  forall s, I s -> has_logger (self s) = true ->
  forall e, is_capture e = true \/ is_repair e = true -> E e.

Lemma quiet_check_status c recorded_path processed_path status info :
  status <> UNAUTHORIZED ->
  tame I E (fun _ => True)
    (check_status c recorded_path processed_path status info).
Proof.
  intros Hstatus. destruct status; try congruence; clear Hstatus.
  - (* ONLINE *)
    intros s Hs. unfold check_status.
    change (wp (let* me := get_self in
                log Logging.INFO "%s online, stream recording in session" >>
                let* channels := lift (getitem info (lit "data")) in
                let* channel := lift (first_or_None channels) in
                let* title := lift (dot_get channel (lit "title")) in
                let* filename := lift (compose_filename (username me) (now c) title) in
                let filename := clean_filename filename in
                let recorded_filename := OsPath.join recorded_path filename in
                let processed_filename := OsPath.join processed_path filename in
                self_logger Logging.INFO "Recording user %s" >>
                let* _ := subprocess_run
                            (Streamlink (username me) (quality me) recorded_filename)
                            recorded_filename (streamlink_run c) in
                log Logging.INFO "recording stream is done, processing video file" >>
                let* present := os_path_exists recorded_filename in
                (if present then
                   process_recorded_file (ffmpeg_run c) recorded_filename processed_filename
                 else
                   log Logging.INFO "skip fixing, file not found") >>
                log Logging.INFO "processing is done, going back to checking...")
              s (fun r s' t => I s' /\ Forall E t /\ forall e, r = Raised e -> True)).
    apply wp_bind_get_self. apply wp_bind_emit.
    destruct (getitem info (lit "data")) as [e|channels]; cbn [lift];
      [apply wp_bind_raise; now repeat constructor|apply wp_bind_ret].
    destruct (first_or_None channels) as [e|channel]; cbn [lift];
      [apply wp_bind_raise; now repeat constructor|apply wp_bind_ret].
    destruct (dot_get channel (lit "title")) as [e|title]; cbn [lift];
      [apply wp_bind_raise; now repeat constructor|apply wp_bind_ret].
    destruct (compose_filename (username (self s)) (now c) title) as [e|filename];
      cbn [lift]; [apply wp_bind_raise; now repeat constructor|apply wp_bind_ret].
    cbn zeta. destruct (has_logger (self s)) eqn:Hlog.
    + apply wp_bind_self_logger; [exact Hlog|].
      pose proof (E_logged s Hs Hlog) as HE.
      eapply wp_mono.
      * apply (wp_tame I E (fun _ => True)); [|exact Hs].
        apply quiet_capture; try assumption.
        -- intros p i o. apply HE. now right.
        -- apply HE. now left.
      * cbn beta. intros r s' t (H1 & H2 & _).
        split; [exact H1|]. split; [|easy]. now repeat constructor.
    + unfold wp. rewrite bind_self_logger, Hlog.
      cbn [result_of state_of events_of fst snd]. now repeat constructor.
  - (* OFFLINE *)
    unfold check_status. apply tame_bind; [apply tame_get_self|intros me].
    apply tame_bind; [apply tame_log, E_log|intros _]. now apply quiet_sleep.
  - (* NOT_FOUND *)
    unfold check_status. apply tame_bind; [apply tame_get_self|intros me].
    apply tame_bind; [apply tame_log, E_log|intros _]. now apply quiet_sleep.
  - (* ERROR *)
    unfold check_status. apply tame_bind; [apply tame_get_self|intros me].
    apply tame_bind; [apply tame_log, E_log|intros _]. now apply quiet_sleep.
Qed.

Lemma quiet_check_locked c recorded_path processed_path :
  tame I E (fun _ => True) (check_locked c recorded_path processed_path).
Proof.
  intros s Hs. rewrite check_locked_eq. cbn zeta.
  destruct (result_of (check_user (status_reply c) s)) as [[status info]|e] eqn:Hu.
  - assert (Hstatus : status <> UNAUTHORIZED).
    { destruct (check_user_statuses _ _ _ _ Hu) as [->|[->| ->]]; congruence. }
    destruct (quiet_check_status c recorded_path processed_path status info Hstatus s Hs)
      as (H1 & H2 & _).
    cbn [result_of state_of events_of fst snd].
    split; [exact H1|]. split; [|easy]. constructor; [now apply E_poll|exact H2].
  - cbn [result_of state_of events_of fst snd].
    split; [exact Hs|]. split; [|easy]. constructor; [now apply E_poll|constructor].
Qed.

Lemma quiet_check c recorded_path processed_path :
  tame I E (fun _ => True) (check c recorded_path processed_path).
Proof.
  unfold check. apply tame_try_except.
  - unfold with_FileLock. destruct (lock_free c).
    + apply tame_bind; [apply tame_emit, E_lock|intros _].
      apply tame_finally; [apply quiet_check_locked|apply tame_emit, E_lock].
    + apply tame_bind; [apply tame_emit, E_lock|intros _]. now apply tame_raise.
  - intros e. destruct e; solve [apply tame_ret | now apply tame_raise].
Qed.

Lemma quiet_loop_check cs recorded_path processed_path :
  tame I E (fun _ => True) (loop_check cs recorded_path processed_path).
Proof.
  induction cs as [|c cs IH]; cbn [loop_check]; [apply tame_ret|].
  apply tame_bind; [apply quiet_check|intros _].
  apply tame_bind; [|intros _; exact IH].
  apply tame_bind; [apply tame_get_self|intros me]. now apply quiet_sleep.
Qed.

Lemma quiet_makedirs path : tame I E (fun _ => True) (makedirs_if_missing path).
Proof. apply tame_makedirs; [exact I_self|apply E_makedirs]. Qed.

(** The [if self.refresh < 15] statement of [run]. *)
Lemma quiet_minimum_interval :
  tame I E (fun _ => True)
    (let* me := get_self in
     if refresh me <? 15 then
       self_logger Logging.WARNING "check interval should not be lower than 15 seconds" >>
       set_self (with_refresh 15 me) >>
       self_logger Logging.INFO "system set check interval to 15 seconds"
     else ret tt).
Proof.
  intros s Hs. rewrite bind_get_self. destruct (refresh (self s) <? 15).
  - unfold self_logger. run_M. destruct (logger (self s)) eqn:Hlog; cbn.
    + rewrite Hlog. cbn. split; [apply (I_refresh s 15 Hs)|].
      split; [|easy]. now repeat constructor.
    + split; [exact Hs|]. split; [constructor|easy].
  - cbn. split; [exact Hs|]. split; [constructor|easy].
Qed.

(** The files of a previous session (lines 86-95). *)
Lemma quiet_previous_session repair recorded_path processed_path :
  tame I E (fun _ => True)
    (try_except
       (let* fs := get_files in
        let video_list := listdir_files recorded_path fs in
        (if (0 <? length video_list)%nat then
           self_logger Logging.INFO "processing previously recorded files"
         else ret tt) >>
        process_previous repair recorded_path processed_path video_list)
       (fun e => log Logging.ERROR "(the exception)")).
Proof.
  apply tame_try_except; [|intros e; apply tame_log, E_log].
  intros s Hs. rewrite (bind_returned get_files _ s (files s) eq_refl).
  change (state_of (get_files s)) with s.
  change (events_of (get_files s)) with (@nil event). cbn zeta. cbn [app].
  destruct (listdir_files recorded_path (files s)) as [|f rest].
  - cbn. split; [exact Hs|]. split; [constructor|easy].
  - cbn [length Nat.ltb Nat.leb]. rewrite bind_self_logger.
    destruct (has_logger (self s)) eqn:Hlog.
    + pose proof (E_logged s Hs Hlog) as HE.
      destruct (quiet_process_previous I E I_self E_log
                  (fun p i o => HE (Ffmpeg p i o) (or_intror eq_refl))
                  repair recorded_path processed_path (f :: rest) s Hs)
        as (H1 & H2 & _).
      cbn [result_of state_of events_of fst snd].
      split; [exact H1|]. split; [|easy]. constructor; [apply E_log|exact H2].
    + cbn. split; [exact Hs|]. split; [constructor|easy].
Qed.

Lemma quiet_run_prepare repair : tame I E (fun _ => True) (run_prepare repair).
Proof.
  intros s Hs. unfold run_prepare. rewrite bind_get_self.
  set (J := fun s' : state => I s' /\ self s' = self s).
  assert (HJ : forall s1 s2, self s2 = self s1 -> J s1 -> J s2).
  { intros s1 s2 H12 (H1 & H2). split; [now apply (I_self s1)|congruence]. }
  assert (Hdirs : forall path, tame J E (fun _ => True) (makedirs_if_missing path)).
  { intros path. apply tame_makedirs; [exact HJ|apply E_makedirs]. }
  change (wp (makedirs_if_missing (recorded_dir (self s)) >>
              makedirs_if_missing (processed_dir (self s)) >>
              (if refresh (self s) <? 15 then
                 self_logger Logging.WARNING
                   "check interval should not be lower than 15 seconds" >>
                 set_self (with_refresh 15 (self s)) >>
                 self_logger Logging.INFO "system set check interval to 15 seconds"
               else ret tt) >>
              try_except
                (let* fs := get_files in
                 let video_list := listdir_files (recorded_dir (self s)) fs in
                 (if (0 <? length video_list)%nat then
                    self_logger Logging.INFO "processing previously recorded files"
                  else ret tt) >>
                 process_previous repair (recorded_dir (self s)) (processed_dir (self s))
                   video_list)
                (fun e => log Logging.ERROR "(the exception)"))
            s (fun r s' t => I s' /\ Forall E t /\ forall e, r = Raised e -> True)).
  apply wp_bind.
  apply (wp_mono _ _ _ _ (wp_tame J E _ _ s (Hdirs _) (conj Hs eq_refl))).
  intros r1 s1 t1 (Hs1 & Ht1 & _). destruct r1 as [[]|e1]; [|now destruct Hs1].
  apply wp_bind.
  apply (wp_mono _ _ _ _ (wp_tame J E _ _ s1 (Hdirs _) Hs1)).
  intros r2 s2 t2 ((Hs2 & Hself2) & Ht2 & _). destruct r2 as [[]|e2];
    [|split; [exact Hs2|split; [now apply Forall_app|easy]]].
  apply wp_bind.
  pose proof (quiet_minimum_interval s2 Hs2) as Hmin.
  rewrite bind_get_self, Hself2 in Hmin.
  apply (wp_mono _ _ (fun r s' t => I s' /\ Forall E t /\ forall e, r = Raised e -> True)
           _ Hmin).
  intros r3 s3 t3 (Hs3 & Ht3 & _). destruct r3 as [[]|e3];
    [|split; [exact Hs3|split; [repeat (apply Forall_app; split); assumption|easy]]].
  apply (wp_mono _ _ _ _
           (wp_tame I E _ _ s3 (quiet_previous_session repair _ _) Hs3)).
  intros r4 s4 t4 (Hs4 & Ht4 & _).
  split; [exact Hs4|]. split; [|easy].
  repeat (apply Forall_app; split); assumption.
Qed.

Lemma quiet_run once repair c cs : tame I E (fun _ => True) (run once repair c cs).
Proof.
  unfold run. apply tame_bind; [apply tame_get_self|intros me]. cbn zeta.
  apply tame_bind; [apply quiet_run_prepare|intros _]. destruct once.
  - apply tame_bind; [now apply tame_self_logger|intros _]. apply quiet_check.
  - apply tame_bind; [apply tame_log, E_log|intros _]. apply quiet_loop_check.
Qed.

End Quiet.

(** X1: a recorder never renews its token.  Since [check_user] never
    answers UNAUTHORIZED, no call of [run], whatever the answers of the
    server, the lock and the child processes do, makes a token request or
    changes the token or the user name of the recorder object: every status
    request of the run carries the user name and the token the recorder
    started with. *)
Theorem run_never_renews_token once repair c cs st :
  let x := run once repair c cs st in
  access_token (self (state_of x)) = access_token (self st)
  /\ username (self (state_of x)) = username (self st)
  /\ Forall (fun e => is_token_request e = false) (events_of x)
  /\ (forall user token,
        In (HttpGet user token) (events_of x) ->
        user = username (self st) /\ token = access_token (self st)).
Proof.
  cbn zeta.
  set (I := fun s : state =>
              username (self s) = username (self st)
              /\ access_token (self s) = access_token (self st)).
  set (E := fun e : event =>
              is_token_request e = false
              /\ match e with
                 | HttpGet user token =>
                     user = username (self st) /\ token = access_token (self st)
                 | _ => True
                 end).
  assert (H : tame I E (fun _ => True) (run once repair c cs)).
  { apply quiet_run; unfold I, E.
    - intros s s' ->. tauto.
    - intros s secs Hs. exact Hs.
    - now split.
    - now split.
    - now repeat split.
    - now split.
    - intros s (-> & ->). now repeat split.
    - intros s _ _ e [He|He]; destruct e; try discriminate He; now split. }
  destruct (H st (conj eq_refl eq_refl)) as ((Hu & Ht) & Hev & _).
  split; [exact Ht|]. split; [exact Hu|]. split.
  - eapply Forall_impl; [exact Hev|]. now intros e (He & _).
  - intros user token Hin. rewrite List.Forall_forall in Hev.
    now destruct (Hev _ Hin) as (_ & Hx).
Qed.

(* --------------------------------------------------------------------- *)
(** ** A recorder without logger *)
(* --------------------------------------------------------------------- *)

(** Without logger the ONLINE branch ends at [self.logger.info], or
    before it when the answer is malformed: nothing but the first log entry
    has happened. *)
Lemma check_status_ONLINE_no_logger c recorded_path processed_path info st :
  has_logger (self st) = false ->
  wp (check_status c recorded_path processed_path ONLINE info) st
    (fun r s' t =>
       (exists e, r = Raised e) /\ s' = st
       /\ t = [Log Logging.INFO "%s online, stream recording in session"]).
Proof.
  intros Hlog. unfold check_status. apply wp_bind_get_self. apply wp_bind_emit.
  destruct (getitem info (lit "data")) as [e|channels]; cbn [lift];
    [apply wp_bind_raise; split; [now exists e|now split]|apply wp_bind_ret].
  destruct (first_or_None channels) as [e|channel]; cbn [lift];
    [apply wp_bind_raise; split; [now exists e|now split]|apply wp_bind_ret].
  destruct (dot_get channel (lit "title")) as [e|title]; cbn [lift];
    [apply wp_bind_raise; split; [now exists e|now split]|apply wp_bind_ret].
  destruct (compose_filename (username (self st)) (now c) title) as [e|filename];
    cbn [lift]; [apply wp_bind_raise; split; [now exists e|now split]|apply wp_bind_ret].
  cbn zeta. unfold wp. rewrite bind_self_logger, Hlog.
  cbn [result_of state_of events_of fst snd].
  split; [now exists AttributeError|now split].
Qed.

(** The branches with a sleep leave the state as it is, also when the
    interval is one that [time.sleep] refuses. *)
Lemma check_status_idle_state c recorded_path processed_path status info st :
  status = OFFLINE \/ status = ERROR \/ status = NOT_FOUND ->
  state_of (check_status c recorded_path processed_path status info st) = st.
Proof.
  intros [->|[->| ->]]; unfold check_status; rewrite bind_get_self; run_M;
    try reflexivity; now destruct (refresh (self st) <? 0).
Qed.

Lemma check_no_logger_state c recorded_path processed_path st :
  has_logger (self st) = false ->
  state_of (check c recorded_path processed_path st) = st.
Proof.
  intros Hlog. destruct (lock_free c) eqn:Hl;
    [|now rewrite (check_busy _ _ _ _ Hl)].
  rewrite (check_free _ _ _ _ Hl). cbn zeta. cbn [state_of fst snd].
  fold (@state_of unit). rewrite check_locked_eq. cbn zeta.
  destruct (result_of (check_user (status_reply c) st)) as [[status info]|e] eqn:Hu;
    [|reflexivity].
  cbn [state_of fst snd]. fold (@state_of unit).
  destruct (check_user_statuses _ _ _ _ Hu) as [->|[->| ->]].
  - apply check_status_idle_state. tauto.
  - apply check_status_idle_state. tauto.
  - now destruct (check_status_ONLINE_no_logger c recorded_path processed_path
                    info st Hlog) as (_ & H & _).
Qed.

Lemma loop_check_no_logger_state cs recorded_path processed_path st :
  has_logger (self st) = false ->
  state_of (loop_check cs recorded_path processed_path st) = st.
Proof.
  intros Hlog. induction cs as [|c cs IH]; [reflexivity|]. cbn [loop_check].
  pose proof (check_no_logger_state c recorded_path processed_path st Hlog) as Hc.
  destruct (result_of (check c recorded_path processed_path st)) as [[]|e] eqn:Hr.
  - rewrite (bind_returned _ _ _ tt Hr), Hc. cbn [state_of fst snd].
    fold (@state_of unit).
    assert (Hsleep : (let* me := get_self in sleep (refresh me)) st
                     = (if refresh (self st) <? 0 then Raised ValueError else Returned tt,
                        st,
                        if refresh (self st) <? 0 then [] else [Sleep (refresh (self st))])).
    { rewrite bind_get_self. unfold sleep. now destruct (refresh (self st) <? 0). }
    destruct (refresh (self st) <? 0).
    + rewrite (bind_raised _ _ _ ValueError); now rewrite Hsleep.
    + rewrite (bind_returned _ _ _ tt); rewrite Hsleep; [|reflexivity].
      cbn [state_of fst snd]. fold (@state_of unit). exact IH.
  - rewrite (bind_raised _ _ _ e Hr). exact Hc.
Qed.

Lemma makedirs_if_missing_keeps path st :
  result_of (makedirs_if_missing path st) = Returned tt
  /\ self (state_of (makedirs_if_missing path st)) = self st
  /\ files (state_of (makedirs_if_missing path st)) = files st.
Proof. unfold makedirs_if_missing. now destruct (bool_decide _). Qed.

(** Without logger the preparation of [run] changes neither the recorder
    object nor a file: the interval is not raised, and the files of a
    previous session are not processed. *)
Lemma run_prepare_no_logger repair st :
  has_logger (self st) = false ->
  self (state_of (run_prepare repair st)) = self st
  /\ files (state_of (run_prepare repair st)) = files st.
Proof.
  intros Hlog.
  change (wp (run_prepare repair) st
            (fun _ s' _ => self s' = self st /\ files s' = files st)).
  unfold run_prepare. apply wp_bind_get_self.
  destruct (makedirs_if_missing_keeps (recorded_dir (self st)) st) as (R1 & S1 & F1).
  apply (wp_bind_returned _ _ _ tt); [exact R1|].
  set (s1 := state_of (makedirs_if_missing (recorded_dir (self st)) st)) in *.
  destruct (makedirs_if_missing_keeps (processed_dir (self st)) s1) as (R2 & S2 & F2).
  apply (wp_bind_returned _ _ _ tt); [exact R2|].
  set (s2 := state_of (makedirs_if_missing (processed_dir (self st)) s1)) in *.
  assert (Hlog2 : has_logger (self s2) = false) by now rewrite S2, S1.
  assert (Hs2 : self s2 = self st /\ files s2 = files st) by (split; congruence).
  destruct (refresh (self st) <? 15).
  - unfold wp. rewrite bind_raised with (e := AttributeError).
    + cbn [state_of fst snd]. fold (@state_of unit).
      rewrite bind_self_logger, Hlog2. exact Hs2.
    + now rewrite bind_self_logger, Hlog2.
  - apply wp_bind_ret. unfold wp, try_except.
    rewrite (bind_returned get_files _ s2 (files s2) eq_refl).
    change (state_of (get_files s2)) with s2.
    change (events_of (get_files s2)) with (@nil event). cbn zeta.
    destruct (listdir_files (recorded_dir (self st)) (files s2)) as [|f rest].
    + cbn. exact Hs2.
    + cbn [length Nat.ltb Nat.leb]. rewrite bind_self_logger, Hlog2. cbn. exact Hs2.
Qed.

Lemma run_no_logger_state once repair c cs st :
  has_logger (self st) = false ->
  self (state_of (run once repair c cs st)) = self st
  /\ files (state_of (run once repair c cs st)) = files st.
Proof.
  intros Hlog.
  destruct (run_prepare_no_logger repair st Hlog) as (Hself & Hfiles).
  assert (Hlog' : has_logger (self (state_of (run_prepare repair st))) = false)
    by (unfold has_logger in *; now rewrite Hself).
  replace (state_of (run once repair c cs st)) with (state_of (run_prepare repair st));
    [now split|].
  rewrite run_eq. cbn zeta.
  destruct (result_of (run_prepare repair st)) as [[]|e]; [|reflexivity].
  destruct once; [now rewrite Hlog|].
  cbn [state_of fst snd]. fold (@state_of unit).
  symmetry. now apply loop_check_no_logger_state.
Qed.

Lemma run_no_logger_events once repair c cs st :
  has_logger (self st) = false ->
  Forall (fun e => is_capture e = false /\ is_repair e = false)
    (events_of (run once repair c cs st)).
Proof.
  intros Hlog.
  assert (H : tame (fun s => has_logger (self s) = false)
                (fun e => is_capture e = false /\ is_repair e = false)
                (fun _ => True) (run once repair c cs)).
  { apply quiet_run.
    - intros s s' ->. tauto.
    - intros s secs Hs. exact Hs.
    - now split.
    - now split.
    - now repeat split.
    - now split.
    - now split.
    - intros s Hs Hs'. congruence. }
  now destruct (H st Hlog) as (_ & Hev & _).
Qed.



(* --------------------------------------------------------------------- *)
(** ** main: the command line *)
(* --------------------------------------------------------------------- *)

Ltac split_options :=
  repeat match goal with
         | |- context [str_eqb ?a ?b] =>
             let H := fresh "O" in destruct (str_eqb a b) eqn:H
         end;
  cbn [orb andb negb fst snd] in *.

Ltac same_option :=
  repeat match goal with
         | H : str_eqb ?a (lit _) = true |- _ =>
             apply bool_decide_eq_true in H; subst a
         end;
  repeat match goal with
         | H : str_eqb (lit _) (lit _) = _ |- _ => vm_compute in H
         end;
  try discriminate.

(** An option after which the loop goes on. *)
Lemma main_option_next level_of opt arg v v' t :
  main_option level_of opt arg v = (Next v', t) ->
  passes level_of (opt, arg) = true
  /\ logger (twitch_recorder v') = logger (twitch_recorder v)
  /\ refresh (twitch_recorder v') = refresh (twitch_recorder v)
  /\ access_token (twitch_recorder v') = access_token (twitch_recorder v)
  /\ root_path (twitch_recorder v') = root_path (twitch_recorder v)
  /\ if is_username_option opt
     then username (twitch_recorder v') = arg /\ specified_username v' = true
     else username (twitch_recorder v') = username (twitch_recorder v)
          /\ specified_username v' = specified_username v.
Proof.
  unfold main_option, passes, is_username_option, is_log_option.
  cbn [fst snd]. split_options;
    try (destruct (level_of arg)); intros [= <- <-]; cbn; same_option; tauto.
Qed.

(** An option that ends [main]. *)
Lemma main_option_stop level_of opt arg v t :
  (forall code, main_option level_of opt arg v = (SystemExit code, t) ->
                code = 0 /\ opt = lit "-h")
  /\ (forall e, main_option level_of opt arg v = (Uncaught e, t) ->
                e = ValueError /\ opt <> lit "-h" /\ is_log_option opt = true
                /\ level_of arg = None).
Proof.
  unfold main_option, is_log_option. split.
  - intros code. destruct (str_eqb opt (lit "-h")) eqn:O.
    + apply bool_decide_eq_true in O. now intros [= <-].
    + split_options; try (destruct (level_of arg)); discriminate.
  - intros e. destruct (str_eqb opt (lit "-h")) eqn:O; [discriminate|].
    apply bool_decide_eq_false in O.
    split_options; destruct (level_of arg) eqn:L; try discriminate;
      intros [= <-]; tauto.
Qed.

(** The loop goes through all the options only if each of them passes; it
    then has changed neither the logger, the interval, the token nor the
    root path, and the user name is the argument of an option that sets
    it, if there is one. *)
Lemma main_options_next level_of opts v v' t :
  main_options level_of opts v = (Next v', t) ->
  forallb (passes level_of) opts = true
  /\ logger (twitch_recorder v') = logger (twitch_recorder v)
  /\ refresh (twitch_recorder v') = refresh (twitch_recorder v)
  /\ access_token (twitch_recorder v') = access_token (twitch_recorder v)
  /\ root_path (twitch_recorder v') = root_path (twitch_recorder v)
  /\ specified_username v'
     = specified_username v || existsb (fun oa => is_username_option (fst oa)) opts
  /\ if existsb (fun oa => is_username_option (fst oa)) opts
     then exists opt, is_username_option opt = true
                      /\ In (opt, username (twitch_recorder v')) opts
     else username (twitch_recorder v') = username (twitch_recorder v).
Proof.
  revert v t. induction opts as [|[opt arg] rest IH]; intros v t.
  - intros [= <- <-]. cbn. rewrite orb_false_r. tauto.
  - cbn [main_options].
    destruct (main_option level_of opt arg v) as [[v1|code|e] t1] eqn:H1;
      try discriminate.
    destruct (main_options level_of rest v1) as [x t2] eqn:H2.
    intros [= -> <-].
    destruct (main_option_next _ _ _ _ _ _ H1) as (P1 & L1 & R1 & A1 & T1 & U1).
    destruct (IH _ _ H2) as (P2 & L2 & R2 & A2 & T2 & S2 & U2).
    cbn [forallb existsb fst]. rewrite P1, P2.
    split; [reflexivity|]. repeat (split; [congruence|]).
    destruct (is_username_option opt) eqn:Hopt; destruct U1 as (U1 & S1).
    + rewrite S2, S1. cbn [orb]. split; [now rewrite orb_true_r|].
      destruct (existsb _ rest).
      * destruct U2 as (opt' & Ho & Hin). exists opt'. split; [exact Ho|now right].
      * exists opt. split; [exact Hopt|]. left. congruence.
    + rewrite S2, S1. cbn [orb]. split; [reflexivity|].
      destruct (existsb _ rest).
      * destruct U2 as (opt' & Ho & Hin). exists opt'. split; [exact Ho|now right].
      * congruence.
Qed.

(** X4: how the option loop of [main] ends.  It goes through all the
    options only if none is [-h] and every log level is known to
    [logging]; otherwise the first [-h] or unknown log level decides:
    [-h] prints the usage and exits with status 0, an unknown level raises
    ValueError, and the options after it are not looked at.  No option
    changes the logger, the interval or the token of the recorder. *)
Theorem main_options_outcomes level_of opts v :
  match main_options level_of opts v with
  | (Next v', _) =>
      forallb (passes level_of) opts = true
      /\ logger (twitch_recorder v') = logger (twitch_recorder v)
      /\ refresh (twitch_recorder v') = refresh (twitch_recorder v)
      /\ access_token (twitch_recorder v') = access_token (twitch_recorder v)
      /\ specified_username v'
         = specified_username v || existsb (fun oa => is_username_option (fst oa)) opts
  | (SystemExit code, _) =>
      code = 0
      /\ exists before arg after,
           opts = before ++ (lit "-h", arg) :: after
           /\ forallb (passes level_of) before = true
  | (Uncaught e, _) =>
      e = ValueError
      /\ exists before opt arg after,
           opts = before ++ (opt, arg) :: after
           /\ forallb (passes level_of) before = true
           /\ is_log_option opt = true /\ level_of arg = None
  end.
Proof.
  revert v. induction opts as [|[opt arg] rest IH]; intros v.
  - cbn. rewrite orb_false_r. tauto.
  - destruct (main_options level_of ((opt, arg) :: rest) v) as [[v'|code|e] t] eqn:H.
    + destruct (main_options_next _ _ _ _ _ H) as (P & L & R & A & _ & S & _). tauto.
    + cbn [main_options] in H.
      destruct (main_option level_of opt arg v) as [[v1|code1|e1] t1] eqn:H1;
        try discriminate.
      * specialize (IH v1). destruct (main_options level_of rest v1) as [x t2].
        injection H as -> _. destruct IH as (-> & before & arg' & after & -> & Hb).
        split; [reflexivity|]. exists ((opt, arg) :: before), arg', after.
        split; [reflexivity|]. cbn [forallb].
        now destruct (main_option_next _ _ _ _ _ _ H1) as (-> & _).
      * injection H as -> _.
        destruct (proj1 (main_option_stop level_of opt arg v t1) _ H1) as (-> & ->).
        split; [reflexivity|]. now exists [], arg, rest.
    + cbn [main_options] in H.
      destruct (main_option level_of opt arg v) as [[v1|code1|e1] t1] eqn:H1;
        try discriminate.
      * specialize (IH v1). destruct (main_options level_of rest v1) as [x t2].
        injection H as -> _.
        destruct IH as (-> & before & opt' & arg' & after & -> & Hb & Ho & Hl).
        split; [reflexivity|]. exists ((opt, arg) :: before), opt', arg', after.
        split; [reflexivity|]. cbn [forallb].
        now destruct (main_option_next _ _ _ _ _ _ H1) as (-> & _).
      * injection H as -> _.
        destruct (proj2 (main_option_stop level_of opt arg v t1) _ H1)
          as (-> & _ & Ho & Hl).
        split; [reflexivity|]. now exists [], opt, arg, rest.
Qed.



(* --------------------------------------------------------------------- *)
(** ** loop_check: the time between two status requests *)
(* --------------------------------------------------------------------- *)

(** A check that finds nothing to record: the lock, the status request,
    one log entry, the sleep, the release; the state is as before. *)
Lemma check_idle c recorded_path processed_path st w :
  0 <= refresh (self st) -> lock_free c = true ->
  idle_sleep st (status_reply c) = Some w ->
  exists lvl msg,
    check c recorded_path processed_path st
    = (Returned tt, st,
       [LockAcquired (recorded_path ++ lit ".lock");
        HttpGet (username (self st)) (access_token (self st));
        Log lvl msg; Sleep w;
        LockReleased (recorded_path ++ lit ".lock")]).
Proof.
  intros Hr Hl Hidle. unfold idle_sleep in Hidle.
  rewrite (check_free _ _ _ _ Hl). cbn zeta. rewrite check_locked_eq. cbn zeta.
  destruct (result_of (check_user (status_reply c) st)) as [[status info]|e];
    [|discriminate].
  destruct (check_status_sleeps c recorded_path processed_path info st Hr)
    as (Hoff & Herr & _).
  destruct status; try discriminate; injection Hidle as <-.
  - rewrite Hoff. now eexists _, _.
  - rewrite Herr. now eexists _, _.
Qed.

Lemma loop_check_idle_gaps_from cs ws recorded_path processed_path st since :
  0 <= refresh (self st) ->
  Forall2 (fun c w => lock_free c = true
                      /\ idle_sleep st (status_reply c) = Some w) cs ws ->
  loop_check cs recorded_path processed_path st
  = (Returned tt, st, events_of (loop_check cs recorded_path processed_path st))
  /\ gaps_from since (events_of (loop_check cs recorded_path processed_path st))
     = match ws with
       | [] => []
       | _ => match since with Some d => [d] | None => [] end
              ++ map (fun w => w + refresh (self st)) (removelast ws)
       end.
Proof.
  intros Hr H. revert since. induction H as [|c w cs ws (Hl & Hw) _ IH]; intros since.
  - now split.
  - destruct (check_idle c recorded_path processed_path st w Hr Hl Hw)
      as (lvl & msg & Hc).
    rewrite (loop_check_cons _ _ _ _ _ Hr). cbn zeta. rewrite Hc.
    cbn [result_of state_of events_of fst snd].
    fold (@state_of unit). fold (@events_of unit). fold (@result_of unit).
    destruct (IH (Some (refresh (self st) + (w + 0)))) as (IH1 & IH2).
    split.
    + rewrite IH1. reflexivity.
    + cbn [app].
      assert (Hgaps :
        gaps_from since
          (LockAcquired (recorded_path ++ lit ".lock")
           :: HttpGet (username (self st)) (access_token (self st))
           :: Log lvl msg :: Sleep w
           :: LockReleased (recorded_path ++ lit ".lock")
           :: Sleep (refresh (self st))
           :: events_of (loop_check cs recorded_path processed_path st))
        = match since with Some d => [d] | None => [] end
          ++ gaps_from (Some (refresh (self st) + (w + 0)))
               (events_of (loop_check cs recorded_path processed_path st))).
      { destruct since; reflexivity. }
      rewrite Hgaps, IH2. f_equal. destruct ws as [|w' ws]; [reflexivity|].
      cbn [app removelast map]. f_equal. lia.
Qed.

(** X5: the time between two status requests of [loop_check].  While the
    polls find nothing to record, the loop goes on with the state
    unchanged, and the next status request comes after the sleep of
    [check] plus the sleep of the loop: two intervals after a poll that
    found the channel offline, 300 seconds plus one interval after a poll
    that failed. *)
Theorem loop_check_idle_poll_gaps cs ws recorded_path processed_path st :
  0 <= refresh (self st) ->
  Forall2 (fun c w => lock_free c = true
                      /\ idle_sleep st (status_reply c) = Some w) cs ws ->
  let x := loop_check cs recorded_path processed_path st in
  result_of x = Returned tt /\ state_of x = st
  /\ poll_gaps (events_of x) = map (fun w => w + refresh (self st)) (removelast ws)
  /\ Forall (fun w => w = refresh (self st) \/ w = 300) ws.
Proof.
  intros Hr H. cbn zeta.
  destruct (loop_check_idle_gaps_from cs ws recorded_path processed_path st None Hr H)
    as (H1 & H2).
  split; [now rewrite H1|]. split; [now rewrite H1|]. split.
  - unfold poll_gaps. rewrite H2. now destruct ws.
  - clear H1 H2. induction H as [|c w cs ws (_ & Hw) _ IH]; constructor; [|exact IH].
    unfold idle_sleep in Hw.
    destruct (result_of (check_user (status_reply c) st)) as [[[] info]|e];
      try discriminate; injection Hw as <-; tauto.
Qed.

Lemma loop_check_idle_poll_gaps_witness :
  0 <= refresh (self Sample.start)
  /\ poll_gaps (events_of (loop_check
                             [Sample.offline; Sample.cycle_with Requests.NoResponse;
                              Sample.offline]
                             Sample.recorded_path Sample.processed_path Sample.start))
     = [15 + 15; 300 + 15].
Proof.
  assert (Hr : 0 <= refresh (self Sample.start)) by (simpl; lia).
  split; [exact Hr|].
  apply (loop_check_idle_poll_gaps
           [Sample.offline; Sample.cycle_with Requests.NoResponse; Sample.offline]
           [15; 300; 15] Sample.recorded_path Sample.processed_path Sample.start Hr).
  repeat constructor.
Defined.

(* --------------------------------------------------------------------- *)
(** ** The files a run may change *)
(* --------------------------------------------------------------------- *)

Section Confined.

Context (P : str -> Prop).

(** A method that leaves the files as they are. *)
Lemma confined_same_files {A} (m : M A) :
  (forall s, files (state_of (m s)) = files s) -> confined P m.
Proof. intros H s k. left. now rewrite H. Qed.

Lemma confined_ret {A} (a : A) : confined P (ret a).
Proof. now apply confined_same_files. Qed.

Lemma confined_raise {A} e : confined P (@raise A e).
Proof. now apply confined_same_files. Qed.

Lemma confined_emit e : confined P (emit e).
Proof. now apply confined_same_files. Qed.

Lemma confined_log lvl msg : confined P (log lvl msg).
Proof. now apply confined_same_files. Qed.

Lemma confined_get_self : confined P get_self.
Proof. now apply confined_same_files. Qed.

Lemma confined_get_files : confined P get_files.
Proof. now apply confined_same_files. Qed.

Lemma confined_set_self r : confined P (set_self r).
Proof. now apply confined_same_files. Qed.

Lemma confined_lift {A} (x : exn + A) : confined P (lift x).
Proof. apply confined_same_files. now destruct x. Qed.

Lemma confined_sleep d : confined P (sleep d).
Proof. apply confined_same_files. intros s. unfold sleep. now destruct (d <? 0). Qed.

Lemma confined_self_logger lvl msg : confined P (self_logger lvl msg).
Proof.
  apply confined_same_files. intros s. unfold self_logger. rewrite bind_get_self.
  now destruct (logger (self s)).
Qed.

Lemma confined_makedirs path : confined P (makedirs_if_missing path).
Proof.
  apply confined_same_files. intros s.
  now destruct (makedirs_if_missing_keeps path s) as (_ & _ & H).
Qed.

Lemma confined_check_user reply : confined P (check_user reply).
Proof. apply confined_same_files. intros s. now rewrite check_user_state. Qed.

Lemma confined_bind {A B} (m : M A) (k : A -> M B) :
  confined P m -> (forall a, confined P (k a)) -> confined P (bind m k).
Proof.
  intros Hm Hk s x. specialize (Hm s x). unfold bind, state_of in *.
  destruct (m s) as [[[a|e] s1] t1]; cbn [fst snd] in *; [|exact Hm].
  specialize (Hk a s1 x). unfold state_of in Hk.
  destruct (k a s1) as [[r s2] t2]; cbn [fst snd] in *.
  destruct Hk as [Hk|Hk]; [|now right]. now rewrite Hk.
Qed.

Lemma confined_try_except {A} (m : M A) (h : exn -> M A) :
  confined P m -> (forall e, confined P (h e)) -> confined P (try_except m h).
Proof.
  intros Hm Hh s x. specialize (Hm s x). unfold try_except, state_of in *.
  destruct (m s) as [[[a|e] s1] t1]; cbn [fst snd] in *; [exact Hm|].
  specialize (Hh e s1 x). unfold state_of in Hh.
  destruct (h e s1) as [[r s2] t2]; cbn [fst snd] in *.
  destruct Hh as [Hh|Hh]; [|now right]. now rewrite Hh.
Qed.

Lemma confined_finally {A} (m : M A) (cleanup : M unit) :
  confined P m -> confined P cleanup -> confined P (finally m cleanup).
Proof.
  intros Hm Hc s x. specialize (Hm s x). unfold finally, state_of in *.
  destruct (m s) as [[r s1] t1]; cbn [fst snd] in *.
  specialize (Hc s1 x). unfold state_of in Hc.
  destruct (cleanup s1) as [[r' s2] t2]; cbn [fst snd] in *.
  destruct Hc as [Hc|Hc]; [|now right]. now rewrite Hc.
Qed.

Lemma confined_os_remove path : P path -> confined P (os_remove path).
Proof.
  intros Hp s k. unfold os_remove. run_M. destruct (files s !! path); cbn; [|now left].
  destruct (decide (k = path)) as [->|Hk]; [now right|left].
  now apply lookup_delete_ne.
Qed.

Lemma confined_shutil_move src dst : P src -> P dst -> confined P (shutil_move src dst).
Proof.
  intros Hsrc Hdst s k. unfold shutil_move. run_M.
  destruct (files s !! src); cbn; [|now left].
  destruct (decide (k = dst)) as [->|Hd]; [now right|].
  destruct (decide (k = src)) as [->|Hs]; [now right|left].
  rewrite lookup_insert_ne by congruence. now apply lookup_delete_ne.
Qed.

Lemma confined_os_path_exists path : confined P (os_path_exists path).
Proof. now apply confined_same_files. Qed.

Lemma confined_subprocess_run e output run :
  P output -> confined P (subprocess_run e output run).
Proof.
  intros Hp s k. unfold subprocess_run. run_M.
  destruct run as [|code [content|]]; cbn; try now left.
  destruct (decide (k = output)) as [->|Hk]; [now right|left].
  now apply lookup_insert_ne.
Qed.

Lemma confined_ffmpeg_copy_and_fix_errors run recorded processed :
  P recorded -> P processed ->
  confined P (ffmpeg_copy_and_fix_errors run recorded processed).
Proof.
  intros Hr Hp. unfold ffmpeg_copy_and_fix_errors.
  apply confined_try_except; [|intros e; apply confined_log].
  apply confined_bind; [apply confined_get_self|intros me].
  apply confined_bind; [now apply confined_subprocess_run|intros _].
  now apply confined_os_remove.
Qed.

Lemma confined_process_recorded_file run recorded processed :
  P recorded -> P processed ->
  confined P (process_recorded_file run recorded processed).
Proof.
  intros Hr Hp. unfold process_recorded_file.
  apply confined_bind; [apply confined_get_self|intros me].
  destruct (disable_ffmpeg me);
    (apply confined_bind; [apply confined_log|intros _]).
  - now apply confined_shutil_move.
  - now apply confined_ffmpeg_copy_and_fix_errors.
Qed.

End Confined.

Lemma confined_bind_at {A B} (P : str -> Prop) (m : M A) (k : A -> M B) s x :
  files (state_of (m s)) !! x = files s !! x \/ P x ->
  (forall a, confined P (k a)) ->
  files (state_of (bind m k s)) !! x = files s !! x \/ P x.
Proof.
  intros Hm Hk. unfold bind, state_of in *.
  destruct (m s) as [[[a|e] s1] t1]; cbn [fst snd] in *; [|exact Hm].
  specialize (Hk a s1 x). unfold state_of in Hk.
  destruct (k a s1) as [[r s2] t2]; cbn [fst snd] in *.
  destruct Hk as [Hk|Hk]; [|now right]. now rewrite Hk.
Qed.

Lemma confined_bind_lift {A B} (P : str -> Prop) (x : exn + A) (k : A -> M B) :
  (forall a, x = inr a -> confined P (k a)) -> confined P (bind (lift x) k).
Proof.
  intros Hk s y. destruct x as [e|a]; cbn [lift].
  - rewrite (bind_raised (raise e) k s e eq_refl). now left.
  - rewrite bind_ret. now apply Hk.
Qed.

(** The cleaning of the file name removes every separator, and leaves the
    extension. *)
Lemma clean_filename_no_sep filename : ~ In OsPath.sep (clean_filename filename).
Proof.
  unfold clean_filename. intros H. apply filter_In in H. destruct H as (_ & H).
  vm_compute in H. discriminate.
Qed.

Lemma compose_filename_extension user t title raw :
  compose_filename user t title = inr raw ->
  exists stem, clean_filename raw = stem ++ lit ".mp4".
Proof.
  unfold compose_filename. destruct (str_add _ title) as [e|s]; [discriminate|].
  intros [= <-]. exists (clean_filename s). unfold clean_filename.
  now rewrite List.filter_app.
Qed.

Lemma recording_directly_inside d user t title raw :
  compose_filename user t title = inr raw ->
  directly_inside d (OsPath.join d (clean_filename raw)).
Proof.
  intros H. exists (clean_filename raw). split; [|split].
  - destruct (compose_filename_extension _ _ _ _ H) as (stem & ->).
    now destruct stem.
  - apply clean_filename_no_sep.
  - reflexivity.
Qed.

Lemma basename_no_sep p : ~ In OsPath.sep (OsPath.basename p).
Proof.
  induction p as [|c p IH]; [easy|]. cbn [OsPath.basename].
  destruct (existsb (N.eqb OsPath.sep) (c :: p)) eqn:Hex; [exact IH|].
  intros Hin. apply not_true_iff_false in Hex. apply Hex.
  apply existsb_exists. exists OsPath.sep. split; [exact Hin|apply N.eqb_refl].
Qed.

Lemma basename_sep_free name : ~ In OsPath.sep name -> OsPath.basename name = name.
Proof.
  intros Hsep. destruct name as [|c name]; [reflexivity|]. cbn [OsPath.basename].
  destruct (existsb (N.eqb OsPath.sep) (c :: name)) eqn:Hex; [|reflexivity].
  apply existsb_exists in Hex. destruct Hex as (x & Hin & Hx).
  apply N.eqb_eq in Hx. now subst.
Qed.

Lemma basename_after_sep p name :
  ~ In OsPath.sep name -> OsPath.basename (p ++ OsPath.sep :: name) = name.
Proof.
  intros Hsep. induction p as [|c p IH].
  - cbn [app OsPath.basename existsb]. rewrite N.eqb_refl. cbn [orb].
    now apply basename_sep_free.
  - cbn [app OsPath.basename].
    replace (existsb (N.eqb OsPath.sep) (c :: p ++ OsPath.sep :: name)) with true;
      [exact IH|].
    symmetry. apply existsb_exists. exists OsPath.sep.
    split; [|apply N.eqb_refl]. right. apply in_app_iff. right. now left.
Qed.

Lemma startswith_sep_free name : ~ In OsPath.sep name -> OsPath.startswith_sep name = false.
Proof.
  destruct name as [|c name]; [reflexivity|]. intros Hsep. cbn.
  apply N.eqb_neq. intros ->. apply Hsep. now left.
Qed.

Lemma endswith_sep_inv d :
  OsPath.endswith_sep d = true -> exists p, d = p ++ [OsPath.sep].
Proof.
  unfold OsPath.endswith_sep. destruct (rev d) as [|c r] eqn:Hrev; [discriminate|].
  intros Hc. apply N.eqb_eq in Hc. subst c. exists (rev r).
  rewrite <- (rev_involutive d), Hrev. reflexivity.
Qed.

(** Joining a directory and a name without separator: the name follows
    the last separator of the result. *)
Lemma join_sep_free d name :
  ~ In OsPath.sep name ->
  (d = [] /\ OsPath.join d name = name)
  \/ exists p, OsPath.join d name = p ++ OsPath.sep :: name
               /\ (d = p \/ d = p ++ [OsPath.sep]).
Proof.
  intros Hsep. unfold OsPath.join. rewrite (startswith_sep_free name Hsep).
  destruct d as [|c d]; [now left|right].
  destruct (OsPath.endswith_sep (c :: d)) eqn:He.
  - destruct (endswith_sep_inv _ He) as (p & ->). exists p.
    split; [now rewrite <- app_assoc|now right].
  - exists (c :: d). split; [reflexivity|now left].
Qed.

Lemma basename_join d name :
  ~ In OsPath.sep name -> OsPath.basename (OsPath.join d name) = name.
Proof.
  intros Hsep. destruct (join_sep_free d name Hsep) as [(_ & ->)|(p & -> & _)].
  - now apply basename_sep_free.
  - now apply basename_after_sep.
Qed.

(** The names [listdir_files] gives are those of the files directly
    inside the directory. *)
Lemma listdir_files_spec d fs name :
  In name (listdir_files d fs)
  <-> name <> [] /\ ~ In OsPath.sep name /\ is_Some (fs !! OsPath.join d name).
Proof.
  unfold listdir_files. rewrite <- list_elem_of_In, list_elem_of_omap. split.
  - intros (k & Hk & Hname). apply list_elem_of_fmap in Hk.
    destruct Hk as ([k' v] & -> & Hkv). apply elem_of_map_to_list in Hkv.
    cbn [fst] in *. destruct (bool_decide _) eqn:Hd; [|discriminate].
    injection Hname as <-. apply bool_decide_eq_true in Hd. destruct Hd as (Hne & Hj).
    split; [exact Hne|]. split; [apply basename_no_sep|]. rewrite Hj. now exists v.
  - intros (Hne & Hsep & v & Hv). exists (OsPath.join d name). split.
    + apply list_elem_of_fmap. exists (OsPath.join d name, v). split; [reflexivity|].
      now apply elem_of_map_to_list.
    + rewrite (basename_join d name Hsep).
      rewrite bool_decide_eq_true_2; [reflexivity|now split].
Qed.

Section ConfinedRun.

(** The paths directly inside the recorded and the processed directory. *)
Context (recorded_path processed_path : str).

Lemma confined_check_status c status info :
  confined (in_directories recorded_path processed_path) (check_status c recorded_path processed_path status info).
Proof.
  unfold check_status. apply confined_bind; [apply confined_get_self|intros me].
  destruct status.
  - (* ONLINE *)
    apply confined_bind; [apply confined_log|intros _].
    apply confined_bind; [apply confined_lift|intros channels].
    apply confined_bind; [apply confined_lift|intros channel].
    apply confined_bind; [apply confined_lift|intros title].
    apply confined_bind_lift. intros filename Hname. cbn zeta.
    assert (Hrec : in_directories recorded_path processed_path (OsPath.join recorded_path (clean_filename filename)))
      by (left; eapply recording_directly_inside; eassumption).
    assert (Hproc : in_directories recorded_path processed_path (OsPath.join processed_path (clean_filename filename)))
      by (right; eapply recording_directly_inside; eassumption).
    apply confined_bind; [apply confined_self_logger|intros _].
    apply confined_bind; [now apply confined_subprocess_run|intros _].
    apply confined_bind; [apply confined_log|intros _].
    apply confined_bind; [apply confined_os_path_exists|intros present].
    apply confined_bind; [|intros _; apply confined_log].
    destruct present; [now apply confined_process_recorded_file|apply confined_log].
  - apply confined_bind; [apply confined_log|intros _]. apply confined_sleep.
  - apply confined_bind; [apply confined_log|intros _]. apply confined_sleep.
  - apply confined_bind; [apply confined_log|intros _].
    apply confined_bind; [|intros token; apply confined_set_self].
    unfold fetch_access_token.
    apply confined_bind; [apply confined_emit|intros _].
    destruct (token_reply c); [apply confined_ret|apply confined_raise].
  - apply confined_bind; [apply confined_log|intros _]. apply confined_sleep.
Qed.

Lemma confined_check c : confined (in_directories recorded_path processed_path) (check c recorded_path processed_path).
Proof.
  unfold check. apply confined_try_except.
  - unfold with_FileLock. destruct (lock_free c).
    + apply confined_bind; [apply confined_emit|intros _].
      apply confined_finally; [|apply confined_emit].
      unfold check_locked.
      apply confined_bind; [apply confined_check_user|intros [status info]].
      apply confined_check_status.
    + apply confined_bind; [apply confined_emit|intros _]. apply confined_raise.
  - intros e. destruct e; solve [apply confined_ret | apply confined_raise].
Qed.

Lemma confined_loop_check cs :
  confined (in_directories recorded_path processed_path) (loop_check cs recorded_path processed_path).
Proof.
  induction cs as [|c cs IH]; cbn [loop_check]; [apply confined_ret|].
  apply confined_bind; [apply confined_check|intros _].
  apply confined_bind; [|intros _; exact IH].
  apply confined_bind; [apply confined_get_self|intros me]. apply confined_sleep.
Qed.

Lemma confined_process_previous repair video_list :
  (forall f, In f video_list -> f <> [] /\ ~ In OsPath.sep f) ->
  confined (in_directories recorded_path processed_path) (process_previous repair recorded_path processed_path video_list).
Proof.
  induction video_list as [|f rest IH]; intros Hnames; cbn [process_previous].
  - apply confined_ret.
  - destruct (Hnames f (or_introl eq_refl)) as (Hne & Hsep).
    apply confined_bind; [|intros _; apply IH; intros g Hg; apply Hnames; now right].
    apply confined_process_recorded_file; [left|right]; now exists f.
Qed.

End ConfinedRun.

Lemma run_prepare_confined repair st k :
  files (state_of (run_prepare repair st)) !! k = files st !! k
  \/ directly_inside (recorded_dir (self st)) k
  \/ directly_inside (processed_dir (self st)) k.
Proof.
  unfold run_prepare. rewrite bind_get_self.
  enough (H : confined (in_directories (recorded_dir (self st)) (processed_dir (self st)))
                (makedirs_if_missing (recorded_dir (self st)) >>
                 makedirs_if_missing (processed_dir (self st)) >>
                 (if refresh (self st) <? 15 then
                    self_logger Logging.WARNING
                      "check interval should not be lower than 15 seconds" >>
                    set_self (with_refresh 15 (self st)) >>
                    self_logger Logging.INFO "system set check interval to 15 seconds"
                  else ret tt) >>
                 try_except
                   (let* fs := get_files in
                    let video_list := listdir_files (recorded_dir (self st)) fs in
                    (if (0 <? length video_list)%nat then
                       self_logger Logging.INFO "processing previously recorded files"
                     else ret tt) >>
                    process_previous repair (recorded_dir (self st))
                      (processed_dir (self st)) video_list)
                   (fun e => log Logging.ERROR "(the exception)"))) by apply H.
  apply confined_bind; [apply confined_makedirs|intros _].
  apply confined_bind; [apply confined_makedirs|intros _].
  apply confined_bind.
  { destruct (refresh (self st) <? 15); [|apply confined_ret].
    apply confined_bind; [apply confined_self_logger|intros _].
    apply confined_bind; [apply confined_set_self|intros _].
    apply confined_self_logger. }
  intros _. apply confined_try_except; [|intros e; apply confined_log].
  apply confined_bind; [apply confined_get_files|intros fs]. cbn zeta.
  apply confined_bind.
  { destruct (0 <? length _)%nat; [apply confined_self_logger|apply confined_ret]. }
  intros _. apply confined_process_previous.
  intros f Hf. apply listdir_files_spec in Hf. tauto.
Qed.


(* --------------------------------------------------------------------- *)
(** ** What becomes of a recording *)
(* --------------------------------------------------------------------- *)

Lemma subprocess_run_exited e output code written st :
  subprocess_run e output (Subprocess.Exited code written) st
  = (Returned code,
     match written with
     | Some content => with_files (<[output := content]> (files st)) st
     | None => st
     end, [e]).
Proof. now destruct written. Qed.

(** [process_recorded_file] on a file that exists: it is moved, or
    repaired and removed; after a launch failure of ffmpeg nothing has
    changed. *)
Lemma process_recorded_file_effect run recorded processed st content :
  files st !! recorded = Some content ->
  wp (process_recorded_file run recorded processed) st
    (fun r s' _ =>
       r = Returned tt /\ self s' = self st
       /\ files s'
          = if disable_ffmpeg (self st) then
              <[processed := content]> (delete recorded (files st))
            else
              match run with
              | Subprocess.LaunchFailure => files st
              | Subprocess.Exited _ written =>
                  delete recorded
                    match written with
                    | Some repaired => <[processed := repaired]> (files st)
                    | None => files st
                    end
              end).
Proof.
  intros Hc. unfold process_recorded_file. apply wp_bind_get_self.
  destruct (disable_ffmpeg (self st)).
  - unfold wp, log. rewrite bind_emit. run_M. cbn. rewrite Hc. cbn. now repeat split.
  - unfold wp, log. rewrite bind_emit. unfold ffmpeg_copy_and_fix_errors, try_except.
    rewrite bind_get_self. destruct run as [|code written].
    + cbn. now repeat split.
    + rewrite (bind_returned _ _ _ code) by now rewrite subprocess_run_exited.
      rewrite subprocess_run_exited. cbn [state_of events_of result_of fst snd].
      unfold os_remove. run_M. destruct written as [repaired|]; cbn.
      * assert (Hsome : is_Some (<[processed := repaired]> (files st) !! recorded)).
        { destruct (decide (processed = recorded)) as [->|Hne].
          - rewrite lookup_insert_eq. now eexists.
          - rewrite lookup_insert_ne by exact Hne. now exists content. }
        destruct Hsome as (x & ->). cbn. now repeat split.
      * rewrite Hc. cbn. now repeat split.
Qed.

(** The ONLINE branch for a stream that [check] records, when streamlink
    has run: the files afterwards. *)
Lemma check_status_ONLINE_effect c recorded_path processed_path info st
    entry more title raw code written :
  getitem info (lit "data") = inr (JArr (JObj entry :: more)) ->
  dict_get (lit "title") entry = Some (JStr title) ->
  compose_filename (username (self st)) (now c) (JStr title) = inr raw ->
  has_logger (self st) = true ->
  streamlink_run c = Subprocess.Exited code written ->
  let recorded := OsPath.join recorded_path (clean_filename raw) in
  let processed := OsPath.join processed_path (clean_filename raw) in
  let captured := match written with
                  | Some content => <[recorded := content]> (files st)
                  | None => files st
                  end in
  wp (check_status c recorded_path processed_path ONLINE info) st
    (fun r s' _ =>
       r = Returned tt /\ self s' = self st
       /\ files s'
          = match captured !! recorded with
            | None => captured
            | Some content =>
                if disable_ffmpeg (self st) then
                  <[processed := content]> (delete recorded captured)
                else
                  match ffmpeg_run c with
                  | Subprocess.LaunchFailure => captured
                  | Subprocess.Exited _ repaired =>
                      delete recorded
                        match repaired with
                        | Some content' => <[processed := content']> captured
                        | None => captured
                        end
                  end
            end).
Proof.
  intros Hd Ht Hraw Hlog Hrun recorded processed captured.
  unfold check_status. apply wp_bind_get_self.
  apply wp_bind_emit. rewrite Hd. apply wp_bind_ret.
  apply wp_bind_ret. cbn [dot_get]. rewrite Ht. apply wp_bind_ret.
  rewrite Hraw. apply wp_bind_ret. apply wp_bind_self_logger; [exact Hlog|].
  fold recorded. fold processed. rewrite Hrun.
  apply (wp_bind_returned _ _ _ code); [now rewrite subprocess_run_exited|].
  rewrite subprocess_run_exited. cbn [state_of events_of fst snd].
  set (s1 := match written with
             | Some content => with_files (<[recorded := content]> (files st)) st
             | None => st
             end).
  assert (Hfiles1 : files s1 = captured) by (subst s1 captured; now destruct written).
  assert (Hself1 : self s1 = self st) by (subst s1; now destruct written).
  apply wp_bind_emit.
  apply (wp_bind_returned _ _ _ (bool_decide (is_Some (files s1 !! recorded))));
    [reflexivity|].
  change (state_of (os_path_exists recorded s1)) with s1.
  rewrite Hfiles1. destruct (captured !! recorded) as [content|] eqn:Hc.
  - rewrite bool_decide_eq_true_2 by now exists content.
    apply wp_bind. rewrite <- Hfiles1 in Hc.
    apply (wp_mono _ _ _ _
             (process_recorded_file_effect (ffmpeg_run c) recorded processed s1
                content Hc)).
    intros r s' t (-> & Hself & Hfiles). unfold wp, log. cbn.
    rewrite Hself1, Hfiles1 in *. now repeat split.
  - rewrite bool_decide_eq_false_2 by (intros (x & Hx); discriminate).
    unfold wp, log. cbn. now repeat split.
Qed.

(** X7: what becomes of a recording.  When [check] records a live stream
    and streamlink has written its output, the recording is in the end:
    with the repair disabled, moved to the processed directory; with the
    repair enabled, replaced by what ffmpeg has written in the processed
    directory; kept in the recorded directory when ffmpeg cannot be
    started; and removed without a processed file when ffmpeg exits without
    having written one. *)
Theorem recording_outcome c recorded_path processed_path st info entry more title raw
    code content :
  lock_free c = true -> has_logger (self st) = true ->
  result_of (check_user (status_reply c) st) = Returned (ONLINE, info) ->
  getitem info (lit "data") = inr (JArr (JObj entry :: more)) ->
  dict_get (lit "title") entry = Some (JStr title) ->
  compose_filename (username (self st)) (now c) (JStr title) = inr raw ->
  streamlink_run c = Subprocess.Exited code (Some content) ->
  let recorded := OsPath.join recorded_path (clean_filename raw) in
  let processed := OsPath.join processed_path (clean_filename raw) in
  recorded <> processed ->
  let x := check c recorded_path processed_path st in
  result_of x = Returned tt
  /\ if disable_ffmpeg (self st) then
       files (state_of x) !! recorded = None
       /\ files (state_of x) !! processed = Some content
     else
       match ffmpeg_run c with
       | Subprocess.LaunchFailure =>
           files (state_of x) !! recorded = Some content
           /\ files (state_of x) !! processed = files st !! processed
       | Subprocess.Exited _ (Some repaired) =>
           files (state_of x) !! recorded = None
           /\ files (state_of x) !! processed = Some repaired
       | Subprocess.Exited _ None =>
           files (state_of x) !! recorded = None
           /\ files (state_of x) !! processed = files st !! processed
       end.
Proof.
  intros Hl Hlog Hu Hd Ht Hraw Hrun recorded processed Hne x.
  assert (Hx : result_of x
               = result_of (check_status c recorded_path processed_path ONLINE info st)
               /\ state_of x
                  = state_of (check_status c recorded_path processed_path ONLINE info st)).
  { subst x. rewrite (check_free _ _ _ _ Hl). cbn zeta.
    rewrite check_locked_eq. cbn zeta. rewrite Hu. now split. }
  destruct Hx as (-> & ->).
  destruct (check_status_ONLINE_effect c recorded_path processed_path info st
              entry more title raw code (Some content) Hd Ht Hraw Hlog Hrun)
    as (-> & _ & ->).
  fold recorded. fold processed. rewrite lookup_insert_eq.
  split; [reflexivity|]. destruct (disable_ffmpeg (self st)).
  - rewrite lookup_insert_ne by congruence. rewrite lookup_delete_eq.
    now rewrite lookup_insert_eq.
  - destruct (ffmpeg_run c) as [|code' [repaired|]].
    + rewrite lookup_insert_eq. now rewrite lookup_insert_ne by congruence.
    + rewrite lookup_delete_eq. rewrite lookup_delete_ne by congruence.
      now rewrite lookup_insert_eq.
    + rewrite lookup_delete_eq. rewrite lookup_delete_ne by congruence.
      now rewrite lookup_insert_ne by congruence.
Qed.

Lemma recording_outcome_witness :
  OsPath.join Sample.recorded_path
    (lit "bob - 2024-01-02 03h04m05s - Ranked Play.mp4")
  <> OsPath.join Sample.processed_path
       (lit "bob - 2024-01-02 03h04m05s - Ranked Play.mp4")
  /\ files (state_of (check (Sample.cycle_with
                               (http 200 (Sample.online_body (lit "Ranked Play!"))))
                        Sample.recorded_path Sample.processed_path Sample.pooled_start))
     !! lit "/data/processed/bob/bob - 2024-01-02 03h04m05s - Ranked Play.mp4"
     = Some [Byte.x02].
Proof.
  assert (Hne : OsPath.join Sample.recorded_path
                  (lit "bob - 2024-01-02 03h04m05s - Ranked Play.mp4")
                <> OsPath.join Sample.processed_path
                     (lit "bob - 2024-01-02 03h04m05s - Ranked Play.mp4"))
    by (vm_compute; discriminate).
  split; [exact Hne|].
  exact (proj2 (proj2
    (recording_outcome
       (Sample.cycle_with (http 200 (Sample.online_body (lit "Ranked Play!"))))
       Sample.recorded_path Sample.processed_path Sample.pooled_start
       (Sample.online_body (lit "Ranked Play!"))
       [(lit "title", JStr (lit "Ranked Play!"))] [] (lit "Ranked Play!")
       (((lit "bob" ++ lit " - " ++ strftime_date_time Sample.jan2 ++ lit " - ")
           ++ lit "Ranked Play!") ++ lit ".mp4")
       0 [Byte.x01]
       eq_refl eq_refl eq_refl eq_refl eq_refl eq_refl eq_refl Hne))).
Defined.

(* --------------------------------------------------------------------- *)
(** ** The two directories of a recorder *)
(* --------------------------------------------------------------------- *)

(** The name after the last separator determines the split of a path. *)
Lemma split_at_last_sep p q f g :
  ~ In OsPath.sep f -> ~ In OsPath.sep g ->
  p ++ OsPath.sep :: f = q ++ OsPath.sep :: g -> p = q /\ f = g.
Proof.
  intros Hf Hg H.
  assert (Hfg : f = g).
  { rewrite <- (basename_after_sep p f Hf), <- (basename_after_sep q g Hg).
    now rewrite H. }
  subst g. split; [|reflexivity]. now apply app_inv_tail in H.
Qed.

(** A directory under the root: the root (with a separator, unless it is
    empty or ends with one) followed by the name. *)
Lemma join_root root name :
  OsPath.startswith_sep name = false ->
  exists prefix, (prefix = [] \/ prefix = root \/ prefix = root ++ [OsPath.sep])
                 /\ forall name', OsPath.startswith_sep name' = false ->
                                  OsPath.join root name' = prefix ++ name'.
Proof.
  intros _. unfold OsPath.join. destruct root as [|c root].
  - exists []. split; [now left|]. now intros name' ->.
  - destruct (OsPath.endswith_sep (c :: root)).
    + exists (c :: root). split; [tauto|]. now intros name' ->.
    + exists ((c :: root) ++ [OsPath.sep]). split; [tauto|]. intros name' ->.
      now rewrite <- app_assoc.
Qed.

Lemma dirs_shape me :
  OsPath.startswith_sep (username me) = false ->
  exists prefix,
    (prefix = [] \/ prefix = root_path me \/ prefix = root_path me ++ [OsPath.sep])
    /\ recorded_dir me = (prefix ++ lit "recorded") ++ OsPath.sep :: username me
    /\ processed_dir me = (prefix ++ lit "processed") ++ OsPath.sep :: username me.
Proof.
  intros Hu. unfold recorded_dir, processed_dir.
  destruct (join_root (root_path me) (lit "recorded") eq_refl)
    as (prefix & Hprefix & Hj).
  exists prefix. split; [exact Hprefix|]. rewrite !Hj by reflexivity.
  assert (Hjoin : forall word, word <> [] -> List.last word 0%N <> OsPath.sep ->
            OsPath.join (prefix ++ word) (username me)
            = (prefix ++ word) ++ OsPath.sep :: username me).
  { intros word Hne Hlast. unfold OsPath.join. rewrite Hu.
    destruct (prefix ++ word) as [|c l] eqn:Hpw.
    - apply app_eq_nil in Hpw. now destruct Hpw.
    - rewrite <- Hpw. unfold OsPath.endswith_sep. rewrite rev_app_distr.
      destruct (rev word) as [|x r] eqn:Hrev.
      + apply (f_equal (@rev N)) in Hrev. rewrite rev_involutive in Hrev. now subst.
      + cbn [app]. replace x with (List.last word 0%N).
        * apply N.eqb_neq in Hlast. now rewrite Hlast.
        * rewrite <- (rev_involutive word), Hrev. cbn [rev]. now rewrite last_last. }
  split; apply Hjoin; vm_compute; congruence.
Qed.

(** For a user name that does not start with a separator, no path is
    directly inside both directories. *)
Lemma dirs_disjoint me k :
  OsPath.startswith_sep (username me) = false ->
  directly_inside (recorded_dir me) k -> directly_inside (processed_dir me) k -> False.
Proof.
  intros Hu (f & _ & Hf & Hkf) (g & _ & Hg & Hkg).
  destruct (dirs_shape me Hu) as (prefix & _ & Hrec & Hproc).
  destruct (join_sep_free (recorded_dir me) f Hf) as [(H0 & _)|(p & Hp & Hrp)].
  { rewrite Hrec in H0. destruct prefix; discriminate. }
  destruct (join_sep_free (processed_dir me) g Hg) as [(H0 & _)|(q & Hq & Hrq)].
  { rewrite Hproc in H0. destruct prefix; discriminate. }
  rewrite Hkf, Hp, Hq in Hkg.
  destruct (split_at_last_sep _ _ _ _ Hf Hg Hkg) as (<- & _).
  rewrite Hrec in Hrp. rewrite Hproc in Hrq. rewrite <- !app_assoc in Hrp, Hrq.
  destruct Hrp as [<-|Hrp], Hrq as [Hrq|Hrq].
  - apply app_inv_head in Hrq. discriminate.
  - rewrite <- !app_assoc in Hrq. apply app_inv_head in Hrq. discriminate.
  - subst p. rewrite <- !app_assoc in Hrp. apply app_inv_head in Hrp. discriminate.
  - rewrite <- Hrq in Hrp. apply app_inv_head in Hrp. discriminate.
Qed.

(** X8: the two directories of a recorder.  For a user name that does
    not start with a separator they are the root path, a separator unless
    the root is empty or ends with one, "recorded" or "processed", a
    separator and the user name; they differ, and no path lies directly
    inside both.  A user name that starts with a separator replaces both:
    the recorded and the processed directory are then the user name
    itself. *)
Theorem recorder_directories me :
  if OsPath.startswith_sep (username me) then
    recorded_dir me = username me /\ processed_dir me = username me
  else
    (exists prefix,
       (prefix = [] \/ prefix = root_path me \/ prefix = root_path me ++ [OsPath.sep])
       /\ recorded_dir me = (prefix ++ lit "recorded") ++ OsPath.sep :: username me
       /\ processed_dir me = (prefix ++ lit "processed") ++ OsPath.sep :: username me)
    /\ recorded_dir me <> processed_dir me
    /\ (forall k, directly_inside (recorded_dir me) k ->
                  directly_inside (processed_dir me) k -> False).
Proof.
  destruct (OsPath.startswith_sep (username me)) eqn:Hu.
  - unfold recorded_dir, processed_dir, OsPath.join. now rewrite Hu.
  - destruct (dirs_shape me Hu) as (prefix & Hprefix & Hrec & Hproc).
    split; [now exists prefix|]. split.
    + rewrite Hrec, Hproc. intros H. apply app_inv_tail in H.
      apply app_inv_head in H. discriminate.
    + intros k. now apply dirs_disjoint.
Qed.

(* --------------------------------------------------------------------- *)
(** ** run: the files of a previous session *)
(* --------------------------------------------------------------------- *)

(** Once ffmpeg has been started the recorded file is gone, and the
    processed file is what ffmpeg has written, if it has written one. *)
Lemma ffmpeg_exited_effect code written recorded processed st :
  wp (ffmpeg_copy_and_fix_errors (Subprocess.Exited code written) recorded processed) st
    (fun r s' t =>
       r = Returned tt /\ self s' = self st
       /\ files s'
          = delete recorded
              match written with
              | Some repaired => <[processed := repaired]> (files st)
              | None => files st
              end
       /\ List.filter is_repair t = [Ffmpeg (ffmpeg_path (self st)) recorded processed]).
Proof.
  unfold wp, ffmpeg_copy_and_fix_errors, try_except. rewrite bind_get_self.
  rewrite (bind_returned _ _ _ code) by now rewrite subprocess_run_exited.
  rewrite subprocess_run_exited. cbn [state_of events_of result_of fst snd].
  unfold os_remove. run_M. destruct written as [repaired|]; cbn.
  - destruct (<[processed := repaired]> (files st) !! recorded) eqn:Hl; cbn.
    + now repeat split.
    + repeat split. symmetry. now apply delete_id.
  - destruct (files st !! recorded) eqn:Hl; cbn.
    + now repeat split.
    + repeat split. symmetry. now apply delete_id.
Qed.

Lemma process_recorded_file_repairs run recorded processed st :
  disable_ffmpeg (self st) = false -> launches run = true ->
  wp (process_recorded_file run recorded processed) st
    (fun r s' t =>
       r = Returned tt /\ self s' = self st
       /\ files s' !! recorded = None
       /\ (forall k, k <> processed -> is_Some (files s' !! k) ->
                     files s' !! k = files st !! k)
       /\ List.filter is_repair t = [Ffmpeg (ffmpeg_path (self st)) recorded processed]).
Proof.
  intros Hff Hrun. unfold process_recorded_file. apply wp_bind_get_self. rewrite Hff.
  unfold log. apply wp_bind_emit.
  destruct run as [|code written]; [discriminate|].
  apply (wp_mono _ _ _ _ (ffmpeg_exited_effect code written recorded processed st)).
  intros r s' t (-> & Hself & Hfiles & Ht). rewrite Hfiles.
  split; [reflexivity|]. split; [exact Hself|]. split; [apply lookup_delete_eq|].
  split; [|exact Ht].
  intros k Hk Hsome. destruct (decide (k = recorded)) as [->|Hne].
  - rewrite lookup_delete_eq in Hsome. now destruct Hsome.
  - rewrite lookup_delete_ne by congruence.
    destruct written; [now rewrite lookup_insert_ne by congruence|reflexivity].
Qed.

(** The loop over the files of a previous session, with the repair
    enabled and an ffmpeg that can be started: every file of the list is
    handed to ffmpeg once, in order, and is gone afterwards. *)
Lemma process_previous_repairs repair recorded_path processed_path video_list st :
  disable_ffmpeg (self st) = false -> (forall f, launches (repair f) = true) ->
  (forall f g, In f video_list -> In g video_list ->
               OsPath.join recorded_path f <> OsPath.join processed_path g) ->
  wp (process_previous repair recorded_path processed_path video_list) st
    (fun r s' t =>
       r = Returned tt /\ self s' = self st
       /\ (forall f, In f video_list ->
                     files s' !! OsPath.join recorded_path f = None)
       /\ (forall k, (forall g, In g video_list -> k <> OsPath.join processed_path g) ->
                     is_Some (files s' !! k) -> files s' !! k = files st !! k)
       /\ List.filter is_repair t
          = map (fun f => Ffmpeg (ffmpeg_path (self st))
                            (OsPath.join recorded_path f)
                            (OsPath.join processed_path f)) video_list).
Proof.
  intros Hff Hrun. revert st Hff.
  induction video_list as [|f rest IH]; intros st Hff Hdisj; cbn [process_previous].
  - unfold wp. cbn. repeat split; try easy.
  - apply wp_bind.
    apply (wp_mono _ _ _ _
             (process_recorded_file_repairs (repair f) (OsPath.join recorded_path f)
                (OsPath.join processed_path f) st Hff (Hrun f))).
    intros r s1 t1 (-> & Hself1 & Hgone1 & Hkeep1 & Ht1).
    assert (Hff1 : disable_ffmpeg (self s1) = false) by now rewrite Hself1.
    assert (Hdisj' : forall f' g, In f' rest -> In g rest ->
                       OsPath.join recorded_path f' <> OsPath.join processed_path g)
      by (intros f' g Hf' Hg; apply Hdisj; now right).
    apply (wp_mono _ _ _ _ (IH s1 Hff1 Hdisj')).
    intros r s' t (-> & Hself & Hgone & Hkeep & Ht).
    split; [reflexivity|]. split; [congruence|]. split; [|split].
    + intros g [<-|Hg]; [|now apply Hgone].
      destruct (files s' !! OsPath.join recorded_path f) as [x|] eqn:Hx; [|reflexivity].
      rewrite <- Hx, Hkeep, Hgone1; [reflexivity| |rewrite Hx; now eexists].
      intros g Hg. apply Hdisj; [now left|now right].
    + intros k Hk Hsome.
      assert (Hs1 : files s' !! k = files s1 !! k).
      { apply Hkeep; [|exact Hsome]. intros g Hg. apply Hk. now right. }
      rewrite Hs1 in *. apply Hkeep1; [|exact Hsome]. apply Hk. now left.
    + rewrite List.filter_app, Ht1, Ht, Hself1. reflexivity.
Qed.

Lemma makedirs_if_missing_no_repair path st :
  List.filter is_repair (events_of (makedirs_if_missing path st)) = [].
Proof. unfold makedirs_if_missing. now destruct (bool_decide _). Qed.

Lemma try_except_returned {A} (m : M A) (h : exn -> M A) s a :
  result_of (m s) = Returned a -> try_except m h s = m s.
Proof.
  unfold try_except, result_of. destruct (m s) as [[r s1] t1]; cbn. now intros ->.
Qed.



(* --------------------------------------------------------------------- *)
(** ** The channel list: lines and user names *)
(* --------------------------------------------------------------------- *)

(** [rstrip] removes a suffix of whitespace, and all of it. *)
Lemma rstrip_spec s :
  exists w, s = rstrip s ++ w /\ Forall (fun c => isspace c = true) w
            /\ (rstrip s = [] \/ isspace (List.last (rstrip s) 0%N) = false).
Proof.
  induction s as [|c s (w & Hs & Hw & Hlast)];
    [exists []; split; [reflexivity|split; [constructor|now left]]|].
  cbn [rstrip]. destruct (rstrip s) as [|x t] eqn:Hr.
  - destruct (isspace c) eqn:Hc.
    + exists (c :: w). cbn in Hs. subst s. repeat split; [now constructor|now left].
    + exists w. cbn in *. subst s. repeat split; [assumption|now right].
  - exists w. rewrite Hs at 1. repeat split; [assumption|right].
    destruct Hlast as [Hlast|Hlast]; [discriminate|exact Hlast].
Qed.

Lemma In_removelast {A} (a : A) l : In a (removelast l) -> In a l.
Proof.
  induction l as [|b l IH]; [easy|]. destruct l as [|c l]; [easy|].
  intros [->|Hin]; [now left|right; now apply IH].
Qed.

(** The lines of a text, put together, are the text; a line holds no
    newline except as its last character. *)
Lemma iter_lines_from_spec cur text :
  ~ In 10%N cur ->
  concat (iter_lines_from cur text) = rev cur ++ text
  /\ Forall (fun line => ~ In 10%N (removelast line)) (iter_lines_from cur text).
Proof.
  revert cur. induction text as [|c text IH]; intros cur Hcur.
  - cbn [iter_lines_from]. destruct cur as [|x cur].
    + split; [reflexivity|constructor].
    + split; [cbn; now rewrite !app_nil_r|]. constructor; [|constructor].
      intros Hin. apply Hcur. apply in_rev. now apply In_removelast.
  - cbn [iter_lines_from]. destruct (c =? 10)%N eqn:Hc.
    + apply N.eqb_eq in Hc. subst c.
      destruct (IH [] (fun H => H)) as (IH1 & IH2). split.
      * cbn [concat rev]. rewrite IH1. cbn. now rewrite <- app_assoc.
      * constructor; [|exact IH2]. cbn [rev]. rewrite removelast_last.
        intros Hin. apply Hcur. now apply in_rev.
    + apply N.eqb_neq in Hc.
      destruct (IH (c :: cur)) as (IH1 & IH2).
      { intros [->|Hin]; [now apply Hc|now apply Hcur]. }
      split; [|exact IH2]. rewrite IH1. cbn [rev]. now rewrite <- app_assoc.
Qed.

(** X10: the user names of a batch.  The lines of the list file, put
    together, are the file; every user name that is submitted is a line
    without its trailing whitespace (leading and inner whitespace is kept):
    it has at least two characters, does not end with whitespace and holds
    no line break. *)
Theorem twitch_usernames_are_stripped_lines text :
  concat (iter_lines text) = text
  /\ forall user,
       In user (Scheduler.twitch_usernames text) ->
       (2 <= length user)%nat
       /\ isspace (List.last user 0%N) = false
       /\ ~ In 10%N user
       /\ exists line blanks,
            In line (iter_lines text) /\ line = user ++ blanks
            /\ Forall (fun c => isspace c = true) blanks.
Proof.
  destruct (iter_lines_from_spec [] text (fun H => H)) as (Hconcat & Hlines).
  split; [exact Hconcat|]. intros user Huser.
  unfold Scheduler.twitch_usernames, Scheduler.select_usernames in Huser.
  apply in_map_iff in Huser. destruct Huser as (line & <- & Hline).
  apply filter_In in Hline. destruct Hline as (Hline & Hlen).
  apply Nat.ltb_lt in Hlen.
  destruct (rstrip_spec line) as (blanks & Hsplit & Hblanks & Hlast).
  assert (Hend : isspace (List.last (rstrip line) 0%N) = false).
  { destruct Hlast as [Hnil|Hlast]; [|exact Hlast]. rewrite Hnil in Hlen. cbn in Hlen. lia. }
  split; [lia|]. split; [exact Hend|]. split.
  - intros Hin. rewrite List.Forall_forall in Hlines.
    apply (Hlines line Hline). fold (iter_lines text) in Hline.
    destruct blanks as [|b blanks].
    + rewrite app_nil_r in Hsplit. rewrite Hsplit.
      assert (Hne : rstrip line <> []) by (intros Hnil; rewrite Hnil in Hlen; cbn in Hlen; lia).
      rewrite (app_removelast_last 0%N Hne) in Hin. apply in_app_iff in Hin.
      destruct Hin as [Hin|[Heq|[]]]; [exact Hin|].
      rewrite Heq in Hend. discriminate.
    + rewrite Hsplit at 1. rewrite removelast_app by discriminate.
      apply in_app_iff. now left.
  - exists line, blanks. now repeat split.
Qed.

(* ===================================================================== *)
(** * Theorems: statuses 401 and 404, failing cycles, repair, scheduler,
      minimum interval *)
(* ===================================================================== *)

(* --------------------------------------------------------------------- *)
(** ** check on an answer with status 401 or 404 *)
(* --------------------------------------------------------------------- *)

Lemma check_never_requests_token c recorded_path processed_path st :
  Forall (fun e => is_token_request e = false)
    (events_of (check c recorded_path processed_path st))
  /\ access_token (self (state_of (check c recorded_path processed_path st)))
     = access_token (self st).
Proof.
  assert (H : tame (fun s => access_token (self s) = access_token (self st))
                (fun e => is_token_request e = false) (fun _ => True)
                (check c recorded_path processed_path)).
  { apply quiet_check.
    - intros s s' ->. tauto.
    - reflexivity.
    - reflexivity.
    - now repeat split.
    - reflexivity.
    - intros s Hs Hlog e [He|He]; now destruct e. }
  destruct (H st eq_refl) as (Hs & Hev & _). now split.
Qed.

(** C1 (the code at the failing inputs): a status request answered with
    HTTP 401, or with HTTP 404, makes [check] log an unexpected error and
    sleep 300 seconds under the lock: no token is requested, nothing is
    polled again, and the state is as before.  No call of [check] ever
    requests a token or changes it, and a call makes one status request when
    it obtains the lock and none otherwise.  The other rows hold: after a
    poll that finds nobody live [check] logs and sleeps the interval, after
    a failed one it logs and sleeps 300 seconds. *)
Theorem check_on_401_sleeps_300 c recorded_path processed_path st b :
  let lock := recorded_path ++ lit ".lock" in
  let poll := HttpGet (username (self st)) (access_token (self st)) in
  let x := check c recorded_path processed_path st in
  (lock_free c = true ->
   status_reply c = http 401 b \/ status_reply c = http 404 b ->
   x = (Returned tt, st,
        [LockAcquired lock; poll;
         Log Logging.ERROR "%s unexpected error. will try again in 5 minutes";
         Sleep 300; LockReleased lock]))
  /\ Forall (fun e => is_token_request e = false) (events_of x)
  /\ access_token (self (state_of x)) = access_token (self st)
  /\ polls (events_of x) = (if lock_free c then 1 else 0)%nat
  /\ (0 <= refresh (self st) -> lock_free c = true ->
      forall w, idle_sleep st (status_reply c) = Some w ->
      (w = refresh (self st) \/ w = 300)
      /\ exists lvl msg,
           x = (Returned tt, st,
                [LockAcquired lock; poll; Log lvl msg; Sleep w; LockReleased lock])).
Proof.
  cbn zeta.
  destruct (check_never_requests_token c recorded_path processed_path st) as (Hev & Htok).
  split; [|split; [exact Hev|split; [exact Htok|split; [apply check_polls|]]]].
  - intros Hl Hreply. rewrite (check_free _ _ _ _ Hl). cbn zeta.
    rewrite check_locked_eq. cbn zeta.
    assert (Hu : result_of (check_user (status_reply c) st) = Returned (ERROR, JNull))
      by (destruct Hreply as [-> | ->]; reflexivity).
    rewrite Hu. unfold check_status. rewrite bind_get_self. reflexivity.
  - intros Hr Hl w Hw. split.
    + unfold idle_sleep in Hw.
      destruct (result_of (check_user (status_reply c) st)) as [[[] info]|e];
        try discriminate; injection Hw as <-; tauto.
    + now apply check_idle.
Qed.

Lemma check_on_401_sleeps_300_witness :
  check (Sample.cycle_with (http 401 JNull)) Sample.recorded_path Sample.processed_path
    Sample.start
  = (Returned tt, Sample.start,
     [LockAcquired (Sample.recorded_path ++ lit ".lock");
      HttpGet (username (self Sample.start)) (access_token (self Sample.start));
      Log Logging.ERROR "%s unexpected error. will try again in 5 minutes";
      Sleep 300; LockReleased (Sample.recorded_path ++ lit ".lock")]).
Proof.
  exact (proj1 (check_on_401_sleeps_300 (Sample.cycle_with (http 401 JNull))
                  Sample.recorded_path Sample.processed_path Sample.start JNull)
           eq_refl (or_introl eq_refl)).
Defined.

(* --------------------------------------------------------------------- *)
(** ** The cycles that end the loop, and the units of the pool *)
(* --------------------------------------------------------------------- *)

Lemma goes_on_benign me c : goes_on (has_logger me) c = true -> benign me c = true.
Proof.
  unfold goes_on, classify, benign, recordable, titled.
  destruct (lock_free c); [|reflexivity]. cbn [negb orb].
  destruct (status_reply c) as [|r]; [reflexivity|].
  destruct (Requests.raise_for_status_raises r); [reflexivity|]. cbn [orb].
  destruct (Requests.body r) as [| | | | |fields]; try discriminate; [reflexivity|].
  destruct (dict_get (lit "data") fields) as [data|]; [|discriminate].
  destruct (truthy data); [|reflexivity]. cbn [negb orb].
  destruct data as [| | | |[|[| | | | |entry] more]|]; cbn; try discriminate;
    try (rewrite ?andb_false_r; discriminate).
  destruct (dict_get (lit "title") entry) as [[| | |title| |]|]; cbn;
    rewrite ?andb_false_r, ?andb_true_r; try discriminate.
  now intros ->.
Qed.

Lemma fails_not_benign me c : fails (has_logger me) c = true -> benign me c = false.
Proof.
  unfold fails, classify, benign, recordable, titled.
  destruct (lock_free c); [|discriminate]. cbn [negb orb].
  destruct (status_reply c) as [|r]; [discriminate|].
  destruct (Requests.raise_for_status_raises r); [discriminate|]. cbn [orb].
  destruct (Requests.body r) as [| | | | |fields]; try discriminate; try reflexivity.
  destruct (dict_get (lit "data") fields) as [data|]; [|reflexivity].
  destruct (truthy data); [|discriminate]. cbn [negb orb].
  destruct data as [| | | |[|[| | | | |entry] more]|]; try reflexivity.
  destruct (dict_get (lit "title") entry) as [[| | |title| |]|]; try reflexivity.
  cbn [negb orb]. destruct (has_logger me), (launches (streamlink_run c)); cbn;
    congruence.
Qed.

(** A unit of the pool — [run(True)] on a recorder with a logger — whose
    cycle fails ends with the exception of its check. *)
Lemma run_once_fails repair c cs st :
  has_logger (self st) = true -> fails true c = true ->
  exists e, result_of (run true repair c cs st) = Raised e.
Proof.
  intros Hlog Hfails. rewrite run_eq. cbn zeta.
  destruct (run_prepare_spec repair st) as (_ & Hlog' & Hcase).
  rewrite Hlog, andb_false_r in Hcase. destruct Hcase as (-> & _). rewrite Hlog.
  cbn [result_of fst]. fold (@result_of unit).
  apply check_not_benign_raises, fails_not_benign. now rewrite Hlog', Hlog.
Qed.

(** The pool stores the outcome of a unit in its future.  That touches
    neither the list of [main] nor another future, and every move that
    [main] or a worker thread can make while the unit is running, it can
    make as well once the outcome is stored, with the same effect. *)
Lemma finish_commutes s i f r :
  Scheduler.pool s !! i = Some f -> Scheduler.fut_phase f = Scheduler.Running ->
  Scheduler.unit_outcome f r ->
  let s' := Scheduler.set_phase i (Scheduler.Finished r) s in
  Scheduler.step s s'
  /\ Scheduler.list_of_futures s' = Scheduler.list_of_futures s
  /\ (forall j, j <> i -> Scheduler.pool s' !! j = Scheduler.pool s !! j)
  /\ (forall s2, Scheduler.step s s2 -> Scheduler.running_at s2 i ->
                 Scheduler.step s' (Scheduler.set_phase i (Scheduler.Finished r) s2)).
Proof.
  intros Hi Hrun Hout s'. split; [now apply Scheduler.step_finish with (f := f)|].
  split; [reflexivity|]. split.
  { intros j Hj. subst s'. unfold Scheduler.set_phase. cbn [Scheduler.pool].
    apply list_lookup_alter_ne. congruence. }
  intros s2 Hstep (f2 & Hi2 & Hrun2).
  set (fin := fun f0 : Scheduler.future =>
                {| Scheduler.fut_username := Scheduler.fut_username f0;
                   Scheduler.fut_token := Scheduler.fut_token f0;
                   Scheduler.fut_phase := Scheduler.Finished r |}).
  assert (Hexec : (Scheduler.executing s' < Scheduler.executing s)%nat).
  { subst s'. unfold Scheduler.executing, Scheduler.set_phase. cbn [Scheduler.pool].
    pose proof (SchedulerFacts.count_alter Scheduler.is_running fin
                  (Scheduler.pool s) i f Hi) as Hc.
    assert (Hf : Scheduler.is_running f = true)
      by (unfold Scheduler.is_running; now rewrite Hrun).
    rewrite Hf in Hc. cbn in Hc. fold fin. lia. }
  inversion Hstep as [s0 j fj Hj Hq Hlt|s0 j fj r' Hj Hrj Hout'|s0 j fj Hlen Hin Hj Hd
                      |s0 text token Hlen]; subst.
  - (* a worker takes a queued call *)
    assert (Hne : j <> i) by (intros ->; congruence).
    replace (Scheduler.set_phase i (Scheduler.Finished r)
               (Scheduler.set_phase j Scheduler.Running s))
      with (Scheduler.set_phase j Scheduler.Running s').
    + apply Scheduler.step_start with (f := fj); [|assumption|lia].
      subst s'. unfold Scheduler.set_phase. cbn [Scheduler.pool].
      now rewrite list_lookup_alter_ne by congruence.
    + subst s'. unfold Scheduler.set_phase. cbn [Scheduler.pool Scheduler.list_of_futures].
      f_equal. apply list_alter_alter_ne. congruence.
  - (* another unit finishes *)
    assert (Hne : j <> i).
    { intros ->. unfold Scheduler.set_phase in Hi2. cbn [Scheduler.pool] in Hi2.
      rewrite list_lookup_alter_eq, Hi in Hi2. cbn in Hi2. injection Hi2 as <-.
      discriminate. }
    replace (Scheduler.set_phase i (Scheduler.Finished r)
               (Scheduler.set_phase j (Scheduler.Finished r') s))
      with (Scheduler.set_phase j (Scheduler.Finished r') s').
    + apply Scheduler.step_finish with (f := fj); [|assumption|assumption].
      subst s'. unfold Scheduler.set_phase. cbn [Scheduler.pool].
      now rewrite list_lookup_alter_ne by congruence.
    + subst s'. unfold Scheduler.set_phase. cbn [Scheduler.pool Scheduler.list_of_futures].
      f_equal. apply list_alter_alter_ne. congruence.
  - (* main removes a completed future from its list *)
    assert (Hne : j <> i).
    { intros ->. rewrite Hi in Hj. injection Hj as <-.
      unfold Scheduler.is_done in Hd. now rewrite Hrun in Hd. }
    change (Scheduler.set_phase i (Scheduler.Finished r) (Scheduler.forget j s))
      with (Scheduler.forget j s').
    apply Scheduler.step_drain with (f := fj); try assumption.
    subst s'. unfold Scheduler.set_phase. cbn [Scheduler.pool].
    now rewrite list_lookup_alter_ne by congruence.
  - (* main submits a batch *)
    replace (Scheduler.set_phase i (Scheduler.Finished r)
               (Scheduler.submit_batch text token s))
      with (Scheduler.submit_batch text token s').
    + now apply Scheduler.step_submit.
    + subst s'. unfold Scheduler.set_phase, Scheduler.submit_batch.
      cbn [Scheduler.pool Scheduler.list_of_futures]. rewrite length_alter.
      f_equal. symmetry. apply alter_app_l. now apply lookup_lt_Some in Hi.
Qed.

(** C4 (amended): [loop_check] goes on after a cycle in which the lock is
    busy, the status request fails or is answered with an error status,
    the body is [null] or has a false ["data"], or, on a recorder with a
    logger, the stream is live with a string title and the capture can be
    started: all the supplied cycles are then executed.  A cycle whose
    body gives no ["data"], whose live stream has no string title, or, on a
    recorder with a logger, whose capture cannot be started, makes [check]
    raise; nothing catches the exception and it ends [loop_check].  In
    multi-target mode a unit is one [run(True)] of a recorder with a
    logger: when its cycle fails the run raises, the worker stores the
    exception in the unit's future, the list of [main] and the other
    futures are untouched, and every move that [main] or a worker could
    make while the unit was running is still possible afterwards. *)
Theorem loop_check_runs_on cs recorded_path processed_path st :
  0 <= refresh (self st) ->
  (Forall (fun c => goes_on (has_logger (self st)) c = true) cs ->
   result_of (loop_check cs recorded_path processed_path st) = Returned tt
   /\ lock_attempts (events_of (loop_check cs recorded_path processed_path st))
      = length cs)
  /\ (forall c,
        fails (has_logger (self st)) c = true ->
        exists e,
          result_of (check c recorded_path processed_path st) = Raised e
          /\ result_of (loop_check (c :: cs) recorded_path processed_path st)
             = Raised e
          /\ events_of (loop_check (c :: cs) recorded_path processed_path st)
             = events_of (check c recorded_path processed_path st))
  /\ (forall s i f cfg repair c fs ds,
        Scheduler.pool s !! i = Some f ->
        Scheduler.fut_phase f = Scheduler.Running ->
        let unit := run true repair c []
                      {| self := Scheduler.recorder cfg f; files := fs; dirs := ds |} in
        let s' := Scheduler.set_phase i (Scheduler.Finished (result_of unit)) s in
        (fails true c = true -> exists e, result_of unit = Raised e)
        /\ Scheduler.step s s'
        /\ Scheduler.list_of_futures s' = Scheduler.list_of_futures s
        /\ (forall j, j <> i -> Scheduler.pool s' !! j = Scheduler.pool s !! j)
        /\ (forall s2,
              Scheduler.step s s2 -> Scheduler.running_at s2 i ->
              Scheduler.step s'
                (Scheduler.set_phase i (Scheduler.Finished (result_of unit)) s2))).
Proof.
  intros Hr. split; [|split].
  - intros Hcs. apply (loop_check_benign (self st)); [exact Hr|reflexivity|].
    eapply Forall_impl; [exact Hcs|]. intros c. apply goes_on_benign.
  - intros c Hc. apply fails_not_benign in Hc.
    destruct (check_not_benign_raises c recorded_path processed_path st Hc) as (e & He).
    exists e. now rewrite (loop_check_raised _ _ _ _ _ _ He).
  - intros s i f cfg repair c fs ds Hi Hrun unit s'. split.
    + intros Hc. now apply run_once_fails.
    + apply (finish_commutes s i f (result_of unit) Hi Hrun).
      now exists cfg, repair, c, fs, ds.
Qed.

Lemma loop_check_runs_on_witness :
  0 <= refresh (self Sample.start)
  /\ Forall (fun c => goes_on (has_logger (self Sample.start)) c = true)
       [Sample.offline; Sample.busy_cycle Requests.NoResponse;
        Sample.cycle_with (http 503 JNull)]
  /\ result_of (loop_check
                  [Sample.offline; Sample.busy_cycle Requests.NoResponse;
                   Sample.cycle_with (http 503 JNull)]
                  Sample.recorded_path Sample.processed_path Sample.start)
     = Returned tt.
Proof.
  assert (H1 : 0 <= refresh (self Sample.start)) by (simpl; lia).
  assert (H2 : Forall (fun c => goes_on (has_logger (self Sample.start)) c = true)
                 [Sample.offline; Sample.busy_cycle Requests.NoResponse;
                  Sample.cycle_with (http 503 JNull)])
    by (repeat constructor).
  split; [exact H1|]. split; [exact H2|].
  exact (proj1 (proj1 (loop_check_runs_on _ Sample.recorded_path Sample.processed_path
                         Sample.start H1) H2)).
Defined.

(* --------------------------------------------------------------------- *)
(** ** The repair step after ffmpeg has run *)
(* --------------------------------------------------------------------- *)

(** C5 (the code at the failing input): with the repair enabled, once
    ffmpeg has been started the recorded file is removed whatever its
    return code, also when it has written nothing: the method returns, no
    error is logged, and the recording is neither at the recorded nor at
    the processed path.  Only when ffmpeg cannot be started is the recorded
    file kept (the state is unchanged and the failure is logged). *)
Theorem repair_removes_input_after_any_exit code recorded processed st content :
  files st !! recorded = Some content -> disable_ffmpeg (self st) = false ->
  recorded <> processed ->
  let lost := process_recorded_file (Subprocess.Exited code None) recorded processed st in
  let kept := process_recorded_file Subprocess.LaunchFailure recorded processed st in
  (result_of lost = Returned tt
   /\ files (state_of lost) !! recorded = None
   /\ files (state_of lost) !! processed = files st !! processed
   /\ events_of lost
      = [Log Logging.INFO "fixing %s";
         Ffmpeg (ffmpeg_path (self st)) recorded processed])
  /\ (forall repaired,
        let x := process_recorded_file (Subprocess.Exited code (Some repaired))
                   recorded processed st in
        result_of x = Returned tt
        /\ files (state_of x) !! recorded = None
        /\ files (state_of x) !! processed = Some repaired)
  /\ (result_of kept = Returned tt /\ state_of kept = st
      /\ events_of kept
         = [Log Logging.INFO "fixing %s";
            Ffmpeg (ffmpeg_path (self st)) recorded processed;
            Log Logging.ERROR "(the exception)"]).
Proof.
  intros Hc Hff Hne. cbn zeta. unfold process_recorded_file.
  rewrite !bind_get_self, Hff. unfold log. rewrite !bind_emit.
  split; [|split].
  - unfold ffmpeg_copy_and_fix_errors, try_except. rewrite bind_get_self.
    assert (Hrun : result_of (subprocess_run
                                (Ffmpeg (ffmpeg_path (self st)) recorded processed)
                                processed (Subprocess.Exited code None) st)
                   = Returned code) by reflexivity.
    rewrite (bind_returned _ _ _ code Hrun).
    rewrite subprocess_run_exited. cbn [state_of events_of result_of fst snd].
    unfold os_remove. run_M. rewrite Hc. cbn.
    split; [reflexivity|]. split; [apply lookup_delete_eq|].
    split; [|reflexivity]. apply lookup_delete_ne. congruence.
  - intros repaired. cbn zeta. rewrite !bind_get_self, Hff. rewrite !bind_emit.
    unfold ffmpeg_copy_and_fix_errors, try_except. rewrite bind_get_self.
    assert (Hrun : result_of (subprocess_run
                                (Ffmpeg (ffmpeg_path (self st)) recorded processed)
                                processed (Subprocess.Exited code (Some repaired)) st)
                   = Returned code) by reflexivity.
    rewrite (bind_returned _ _ _ code Hrun).
    rewrite subprocess_run_exited. cbn [state_of events_of result_of fst snd].
    unfold os_remove. run_M. cbn. rewrite lookup_insert_ne by congruence.
    rewrite Hc. cbn. split; [reflexivity|]. split; [apply lookup_delete_eq|].
    rewrite lookup_delete_ne by congruence. apply lookup_insert_eq.
  - rewrite ffmpeg_launch_failure. cbn. now repeat split.
Qed.

Lemma repair_removes_input_after_any_exit_witness :
  files Sample.with_leftover !! Sample.leftover = Some [Byte.x0a; Byte.x0b]
  /\ Sample.leftover <> Sample.repaired
  /\ files (state_of (process_recorded_file (Subprocess.Exited 1 None) Sample.leftover
                        Sample.repaired Sample.with_leftover)) !! Sample.leftover
     = None
  /\ files (state_of (process_recorded_file (Subprocess.Exited 1 None) Sample.leftover
                        Sample.repaired Sample.with_leftover)) !! Sample.repaired
     = None.
Proof.
  assert (H : files Sample.with_leftover !! Sample.leftover = Some [Byte.x0a; Byte.x0b])
    by (vm_compute; reflexivity).
  assert (Hne : Sample.leftover <> Sample.repaired) by (vm_compute; discriminate).
  split; [exact H|]. split; [exact Hne|].
  destruct (repair_removes_input_after_any_exit 1 Sample.leftover Sample.repaired
              Sample.with_leftover _ H eq_refl Hne) as ((_ & Hgone & Hproc & _) & _).
  split; [exact Hgone|]. rewrite Hproc. vm_compute. reflexivity.
Defined.

(* --------------------------------------------------------------------- *)
(** ** The scheduler: when a batch is submitted *)
(* --------------------------------------------------------------------- *)

Lemma reachable_within_reachable bound s :
  Scheduler.reachable_within bound s -> Scheduler.reachable s.
Proof.
  unfold Scheduler.reachable_within, Scheduler.reachable.
  induction 1 as [|s1 s2 s3 (Hstep & _) _ IH]; [apply rtc_refl|].
  now apply rtc_l with s2.
Qed.

Lemma length_list_remove i l : (length (Scheduler.list_remove i l) <= length l)%nat.
Proof.
  induction l as [|y l IH]; [reflexivity|]. cbn.
  destruct (i =? y)%nat; cbn; lia.
Qed.

(** A move that adds calls to the pool is the submission of a batch, made
    while at most [num_workers] futures are listed. *)
Lemma step_grows_pool s s' :
  Scheduler.step s s' ->
  (length (Scheduler.pool s) < length (Scheduler.pool s'))%nat ->
  (length (Scheduler.list_of_futures s) <= Scheduler.num_workers)%nat
  /\ exists text token, s' = Scheduler.submit_batch text token s.
Proof.
  intros Hstep Hgrow.
  destruct Hstep as [s i f Hi Hq Hlt|s i f r Hi Hrun Hout|s i f Hlen Hin Hi Hd
                     |s text token Hlen].
  - unfold Scheduler.set_phase in Hgrow. cbn [Scheduler.pool] in Hgrow.
    rewrite length_alter in Hgrow. lia.
  - unfold Scheduler.set_phase in Hgrow. cbn [Scheduler.pool] in Hgrow.
    rewrite length_alter in Hgrow. lia.
  - cbn in Hgrow. lia.
  - split; [exact Hlen|]. now exists text, token.
Qed.

(** With channel lists of at most [bound] names, the list of [main] never
    holds more than [num_workers + bound] futures. *)
Lemma list_of_futures_bounded bound s :
  Scheduler.reachable_within bound s ->
  (length (Scheduler.list_of_futures s) <= Scheduler.num_workers + bound)%nat.
Proof.
  unfold Scheduler.reachable_within. revert s. apply rtc_ind_r.
  - cbn. lia.
  - intros s s' _ (Hstep & Hbound) IH.
    destruct Hstep as [s i f Hi Hq Hlt|s i f r Hi Hrun Hout|s i f Hlen Hin Hi Hd
                       |s text token Hlen].
    + exact IH.
    + exact IH.
    + unfold Scheduler.forget. cbn [Scheduler.list_of_futures].
      pose proof (length_list_remove i (Scheduler.list_of_futures s)). lia.
    + unfold Scheduler.submit_batch in *.
      cbn [Scheduler.pool Scheduler.list_of_futures] in *.
      rewrite length_app, length_map in Hbound. rewrite length_app, length_seq. lia.
Qed.

(** C8 (amended): in every state the scheduler reaches, at most
    [num_workers] units are being executed, and the units in flight
    (submitted, not finished) are at most the futures in the list of
    [main].  Calls are added to the pool only by the submission of a batch,
    and a batch is submitted only while at most [num_workers] futures are
    listed, hence with at most [num_workers] units in flight; the batch is
    then submitted whole.  So with channel lists of at most [bound] names
    the units in flight never exceed [num_workers + bound]: the work in the
    pool's queue is bounded by the size of the channel list, not by the
    worker cap. *)
Theorem admission_control bound s :
  Scheduler.reachable_within bound s ->
  (Scheduler.executing s <= Scheduler.num_workers)%nat
  /\ (Scheduler.in_flight s <= length (Scheduler.list_of_futures s))%nat
  /\ (length (Scheduler.list_of_futures s) <= Scheduler.num_workers + bound)%nat
  /\ (Scheduler.in_flight s <= Scheduler.num_workers + bound)%nat
  /\ (forall s',
        Scheduler.step s s' ->
        (length (Scheduler.pool s) < length (Scheduler.pool s'))%nat ->
        (length (Scheduler.list_of_futures s) <= Scheduler.num_workers)%nat
        /\ (Scheduler.in_flight s <= Scheduler.num_workers)%nat
        /\ exists text token,
             s' = Scheduler.submit_batch text token s
             /\ Scheduler.in_flight s'
                = (Scheduler.in_flight s
                   + length (Scheduler.twitch_usernames text))%nat).
Proof.
  intros Hr. pose proof (list_of_futures_bounded bound s Hr) as Hlist.
  apply reachable_within_reachable in Hr.
  destruct (SchedulerFacts.reachable_invariants s Hr) as (He & Ht).
  pose proof (SchedulerFacts.tracked_in_flight s Ht) as Hf.
  split; [exact He|]. split; [exact Hf|]. split; [exact Hlist|]. split; [lia|].
  intros s' Hstep Hgrow.
  destruct (step_grows_pool s s' Hstep Hgrow) as (Hlen & text & token & ->).
  split; [exact Hlen|]. split; [lia|]. exists text, token.
  split; [reflexivity|]. apply SchedulerFacts.in_flight_submit_batch.
Qed.

Lemma admission_control_witness :
  Scheduler.reachable_within 5
    (Scheduler.submit_batch Sample.streamers (lit "token-1") Scheduler.initial)
  /\ (Scheduler.in_flight
        (Scheduler.submit_batch Sample.streamers (lit "token-1") Scheduler.initial)
      <= Scheduler.num_workers + 5)%nat.
Proof.
  assert (H : Scheduler.reachable_within 5
                (Scheduler.submit_batch Sample.streamers (lit "token-1")
                   Scheduler.initial)).
  { apply rtc_once. split.
    - apply Scheduler.step_submit. cbn. unfold Scheduler.num_workers. lia.
    - vm_compute. lia. }
  split; [exact H|].
  exact (proj1 (proj2 (proj2 (proj2 (admission_control 5 _ H))))).
Defined.

(* --------------------------------------------------------------------- *)
(** ** The minimum interval *)
(* --------------------------------------------------------------------- *)

Lemma polls_app t1 t2 : polls (t1 ++ t2) = (polls t1 + polls t2)%nat.
Proof. unfold polls. now rewrite List.filter_app, length_app. Qed.



